(** * object.Assign: a shallow embedding of the reflection-driven assignment engine

    The repository holds two revisions of the engine: [assign.go]
    (parameters of type [any], key type [kkk]) and a later rewrite
    (parameters of type [reflect.Value], key type [metaKey]).  The
    embedding follows both; wherever the two differ the definition branches
    on the [revision] of the assigner.

    Go values are modelled as finite trees.  A [reflect.Value] that denotes
    a settable slot is a pair of a tree and a [canSet] flag; a handler
    returns the tree the slot holds afterwards.  Sharing between two
    distinct slots (a source and a target reaching the same pointee) is not
    tracked. *)

From Stdlib Require Import List String Ascii ZArith Bool Lia Permutation.
From Stdlib Require Import SpecFloat DecimalString.
Import ListNotations.
Local Open Scope string_scope.
Local Open Scope Z_scope.
Local Open Scope list_scope.

Set Implicit Arguments.
#[local] Set Warnings "-register-all".

(** ** reflect.Kind *)

Module reflect.

Inductive Kind : Type :=
| Invalid | Bool | Int | Int8 | Int16 | Int32 | Int64
| Uint | Uint8 | Uint16 | Uint32 | Uint64 | Uintptr
| Float32 | Float64 | Complex64 | Complex128
| Array | Chan | Func | Interface | Map | Pointer | Slice | String | Struct
| UnsafePointer.

(** The numeric value of a kind, as declared in package reflect. *)
Definition kind_num (k : Kind) : Z :=
  match k with
  | Invalid => 0 | Bool => 1 | Int => 2 | Int8 => 3 | Int16 => 4 | Int32 => 5
  | Int64 => 6 | Uint => 7 | Uint8 => 8 | Uint16 => 9 | Uint32 => 10
  | Uint64 => 11 | Uintptr => 12 | Float32 => 13 | Float64 => 14
  | Complex64 => 15 | Complex128 => 16 | Array => 17 | Chan => 18 | Func => 19
  | Interface => 20 | Map => 21 | Pointer => 22 | Slice => 23 | String => 24
  | Struct => 25 | UnsafePointer => 26
  end.

Definition kind_eqb (a b : Kind) : bool := kind_num a =? kind_num b.

End reflect.

Inductive IntKind := KInt | KInt8 | KInt16 | KInt32 | KInt64.
Inductive UintKind := KUint | KUint8 | KUint16 | KUint32 | KUint64 | KUintptr.
Inductive FloatKind := KFloat32 | KFloat64.

Definition int_kind (k : IntKind) : reflect.Kind :=
  match k with
  | KInt => reflect.Int | KInt8 => reflect.Int8 | KInt16 => reflect.Int16 | KInt32 => reflect.Int32
  | KInt64 => reflect.Int64
  end.

Definition uint_kind (k : UintKind) : reflect.Kind :=
  match k with
  | KUint => reflect.Uint | KUint8 => reflect.Uint8 | KUint16 => reflect.Uint16 | KUint32 => reflect.Uint32
  | KUint64 => reflect.Uint64 | KUintptr => reflect.Uintptr
  end.

Definition float_kind (k : FloatKind) : reflect.Kind :=
  match k with KFloat32 => reflect.Float32 | KFloat64 => reflect.Float64 end.

(** Type.Bits(), on a 64-bit platform. *)
Definition int_bits (k : IntKind) : Z :=
  match k with
  | KInt => 64 | KInt8 => 8 | KInt16 => 16 | KInt32 => 32 | KInt64 => 64
  end.

Definition uint_bits (k : UintKind) : Z :=
  match k with
  | KUint => 64 | KUint8 => 8 | KUint16 => 16 | KUint32 => 32 | KUint64 => 64
  | KUintptr => 64
  end.

Definition float_bits (k : FloatKind) : Z :=
  match k with KFloat32 => 32 | KFloat64 => 64 end.

(** ** Fixed-width integers, wrap-around written out *)

(** Conversion to an unsigned integer of [w] bits: the value modulo 2^w. *)
Definition wrapU (w : Z) (x : Z) : Z := x mod 2 ^ w.

(** Conversion to a signed integer of [w] bits: two's complement. *)
Definition wrapS (w : Z) (x : Z) : Z :=
  let r := x mod 2 ^ w in
  if r <? 2 ^ (w - 1) then r else r - 2 ^ w.

(** ** Types and values *)

(** reflect.StructField without its type, which is stored next to it. *)
Record StructField : Type := mkField {
  Name : string;
  PkgPath : string;                 (* empty exactly for exported fields *)
  Tag : list (string * string);     (* the struct tag, as key/value pairs *)
  Anonymous : bool
}.

Definition IsExported (f : StructField) : bool := String.eqb (PkgPath f) "".

(** Go types.  Interface types are restricted to the empty interface [any];
    [TNumber] is encoding/json.Number; [TOpaque] covers the kinds the engine
    never looks into (complex numbers, channels, functions, unsafe
    pointers), identified by kind and name. *)
Inductive type : Type :=
| TBool
| TInt (k : IntKind)
| TUint (k : UintKind)
| TFloat (k : FloatKind)
| TString
| TNumber
| TArray (n : nat) (e : type)
| TSlice (e : type)
| TMap (k e : type)
| TPtr (e : type)
| TAny
| TStruct (name : string) (fs : list (StructField * type))
| TOpaque (k : reflect.Kind) (name : string).

(** Go values.  [None] under a slice, map, pointer, interface or opaque
    value is nil (for complex numbers: zero).  A map is an association list
    with pairwise different keys; its order stands for the order in which
    the run-time happens to enumerate it. *)
Inductive value : Type :=
| VBool (b : bool)
| VInt (k : IntKind) (i : Z)
| VUint (k : UintKind) (u : Z)
| VFloat (k : FloatKind) (f : spec_float)
| VString (s : string)
| VNumber (s : string)
| VArray (e : type) (l : list value)
| VSlice (e : type) (l : option (list value))
| VMap (k e : type) (m : option (list (value * value)))
| VPtr (e : type) (p : option value)
| VIface (v : option value)
| VStruct (name : string) (fs : list (StructField * value))
| VOpaque (k : reflect.Kind) (name : string) (payload : option nat).

Fixpoint typeOf (v : value) : type :=
  match v with
  | VBool _ => TBool
  | VInt k _ => TInt k
  | VUint k _ => TUint k
  | VFloat k _ => TFloat k
  | VString _ => TString
  | VNumber _ => TNumber
  | VArray e l => TArray (List.length l) e
  | VSlice e _ => TSlice e
  | VMap k e _ => TMap k e
  | VPtr e _ => TPtr e
  | VIface _ => TAny
  | VStruct n fs => TStruct n (map (fun p => (fst p, typeOf (snd p))) fs)
  | VOpaque k n _ => TOpaque k n
  end.

Definition type_kind (t : type) : reflect.Kind :=
  match t with
  | TBool => reflect.Bool
  | TInt k => int_kind k
  | TUint k => uint_kind k
  | TFloat k => float_kind k
  | TString => reflect.String
  | TNumber => reflect.String
  | TArray _ _ => reflect.Array
  | TSlice _ => reflect.Slice
  | TMap _ _ => reflect.Map
  | TPtr _ => reflect.Pointer
  | TAny => reflect.Interface
  | TStruct _ _ => reflect.Struct
  | TOpaque k _ => k
  end.

(** Value.Kind() of a valid value. *)
Definition value_kind (v : value) : reflect.Kind := type_kind (typeOf v).

(** reflect.Zero *)
Fixpoint Zero (t : type) : value :=
  match t with
  | TBool => VBool false
  | TInt k => VInt k 0
  | TUint k => VUint k 0
  | TFloat k => VFloat k (S754_zero false)
  | TString => VString ""
  | TNumber => VNumber ""
  | TArray n e => VArray e (repeat (Zero e) n)
  | TSlice e => VSlice e None
  | TMap k e => VMap k e None
  | TPtr e => VPtr e None
  | TAny => VIface None
  | TStruct n fs => VStruct n (map (fun p => (fst p, Zero (snd p))) fs)
  | TOpaque k n => VOpaque k n None
  end.

(** ** Structural equality of types and values *)

Definition StructField_eq_dec (a b : StructField) : {a = b} + {a <> b}.
Proof.
  decide equality.
  - apply bool_dec.
  - apply (list_eq_dec (fun x y : string * string =>
             ltac:(decide equality; apply string_dec))).
  - apply string_dec.
  - apply string_dec.
Defined.

Definition Kind_eq_dec (a b : reflect.Kind) : {a = b} + {a <> b}.
Proof. decide equality. Defined.

Fixpoint type_eq_dec (a b : type) {struct a} : {a = b} + {a <> b}.
Proof.
  decide equality;
    try apply string_dec; try apply Kind_eq_dec; try apply Nat.eq_dec;
    try (decide equality; fail).
  apply list_eq_dec. intros [f t] [g u].
  destruct (StructField_eq_dec f g) as [->|nf]; [|right; congruence].
  destruct (type_eq_dec t u) as [->|nt]; [|right; congruence].
  left; reflexivity.
Defined.

Definition spec_float_eq_dec (a b : spec_float) : {a = b} + {a <> b}.
Proof.
  decide equality; try apply bool_dec; try apply Z.eq_dec;
    apply Pos.eq_dec.
Defined.

Fixpoint value_eq_dec (a b : value) {struct a} : {a = b} + {a <> b}.
Proof.
  assert (Hl : forall l l' : list value, {l = l'} + {l <> l'})
    by (apply list_eq_dec, value_eq_dec).
  assert (Hp : forall p q : value * value, {p = q} + {p <> q}).
  { intros [k1 v1] [k2 v2].
    destruct (value_eq_dec k1 k2) as [->|nk]; [|right; congruence].
    destruct (value_eq_dec v1 v2) as [->|nv]; [|right; congruence].
    left; reflexivity. }
  assert (Hf : forall p q : StructField * value, {p = q} + {p <> q}).
  { intros [f1 v1] [f2 v2].
    destruct (StructField_eq_dec f1 f2) as [->|nf]; [|right; congruence].
    destruct (value_eq_dec v1 v2) as [->|nv]; [|right; congruence].
    left; reflexivity. }
  decide equality;
    try apply string_dec; try apply Kind_eq_dec; try apply type_eq_dec;
    try apply Z.eq_dec; try apply bool_dec; try apply spec_float_eq_dec;
    try apply Hl; try (apply list_eq_dec; assumption);
    try (decide equality; try apply Nat.eq_dec; try apply Hl;
         try (apply list_eq_dec; assumption); fail).
Defined.

Definition type_eqb (a b : type) : bool :=
  if type_eq_dec a b then true else false.

Definition value_eqb (a b : value) : bool :=
  if value_eq_dec a b then true else false.

(** ** Operations of package reflect on values *)

Definition SF_zero : spec_float := S754_zero false.

(** [f == 0] on float64. *)
Definition float_is_zero (f : spec_float) : bool := SFeqb f SF_zero.

(** [f < 0] on float64. *)
Definition float_is_neg (f : spec_float) : bool := SFltb f SF_zero.

(** math.IsNaN(f) || math.IsInf(f, 0) *)
Definition float_nan_or_inf (f : spec_float) : bool :=
  match f with
  | S754_nan => true
  | S754_infinity _ => true
  | _ => false
  end.

Definition is_none {A : Type} (o : option A) : bool :=
  match o with None => true | Some _ => false end.

(** Value.IsZero (Go 1.22 and later, where a negative floating-point zero
    counts as zero); the rewrite's [isZeroValue] computes the same on every
    kind of this model. *)
Fixpoint IsZero (v : value) : bool :=
  match v with
  | VBool b => negb b
  | VInt _ i => i =? 0
  | VUint _ u => u =? 0
  | VFloat _ f => float_is_zero f
  | VString s => String.eqb s ""
  | VNumber s => String.eqb s ""
  | VArray _ l => forallb IsZero l
  | VSlice _ l => is_none l
  | VMap _ _ m => is_none m
  | VPtr _ p => is_none p
  | VIface x => is_none x
  | VStruct _ fs => forallb (fun p => IsZero (snd p)) fs
  | VOpaque _ _ p => is_none p
  end.

(** Value.IsNil, for the kinds on which reflect allows it; [None] is the
    panic reflect raises on the others. *)
Definition IsNil (v : value) : option bool :=
  match v with
  | VSlice _ l => Some (is_none l)
  | VMap _ _ m => Some (is_none m)
  | VPtr _ p => Some (is_none p)
  | VIface x => Some (is_none x)
  | VOpaque k _ p =>
      match k with
      | reflect.Chan | reflect.Func | reflect.UnsafePointer => Some (is_none p)
      | _ => None
      end
  | _ => None
  end.

(** The bytes of a string, as uint8 values. *)
Fixpoint string_bytes (s : string) : list value :=
  match s with
  | EmptyString => []
  | String.String c r => VUint KUint8 (Z.of_nat (nat_of_ascii c)) :: string_bytes r
  end.

(** string(uints) for a list of uint8 values. *)
Fixpoint bytes_string (l : list value) : string :=
  match l with
  | [] => EmptyString
  | VUint _ u :: r => String.String (ascii_of_nat (Z.to_nat u)) (bytes_string r)
  | _ :: r => bytes_string r
  end.

(** Value.Len; [None] is the panic on a kind without a length. *)
Definition Len (v : value) : option nat :=
  match v with
  | VArray _ l => Some (List.length l)
  | VSlice _ l => Some (match l with Some l => List.length l | None => 0%nat end)
  | VMap _ _ m => Some (match m with Some m => List.length m | None => 0%nat end)
  | VString s => Some (String.length s)
  | VNumber s => Some (String.length s)
  | _ => None
  end.

(** The elements Value.Index ranges over; [None] where Index panics. *)
Definition Elems (v : value) : option (list value) :=
  match v with
  | VArray _ l => Some l
  | VSlice _ l => Some (match l with Some l => l | None => [] end)
  | VString s => Some (string_bytes s)
  | VNumber s => Some (string_bytes s)
  | _ => None
  end.

(** Type.Elem() of an array, slice, map or pointer type. *)
Definition type_elem (t : type) : type :=
  match t with
  | TArray _ e => e
  | TSlice e => e
  | TMap _ e => e
  | TPtr e => e
  | _ => t
  end.

(** Value.Interface(): the dynamic value, as an [any]. *)
Definition Interface_ (v : value) : option value :=
  match v with
  | VIface x => x
  | _ => Some v
  end.

(** The value a slot of static type [t] holds after storing the dynamic
    value [x] in it. *)
Definition store (t : type) (x : option value) : value :=
  match t with
  | TAny => VIface x
  | _ => match x with Some v => v | None => Zero t end
  end.

(** Type.AssignableTo: identical types, or any type to the empty
    interface. *)
Definition AssignableTo (v t : type) : bool :=
  type_eqb v t || match t with TAny => true | _ => false end.

(** Go's [==] on two values of one comparable type; [None] is the run-time
    panic on a slice, map or function.  Pointer identity is approximated by
    equality of the pointees. *)
Fixpoint go_eq (a b : value) {struct a} : option bool :=
  match a, b with
  | VBool x, VBool y => Some (Bool.eqb x y)
  | VInt _ x, VInt _ y => Some (x =? y)
  | VUint _ x, VUint _ y => Some (x =? y)
  | VFloat _ x, VFloat _ y => Some (SFeqb x y)
  | VString x, VString y => Some (String.eqb x y)
  | VNumber x, VNumber y => Some (String.eqb x y)
  | VArray _ l, VArray _ l' =>
      (fix go (l : list value) (l' : list value) : option bool :=
         match l, l' with
         | x :: r, y :: r' =>
             match go_eq x y with
             | Some true => go r r'
             | o => o
             end
         | _, _ => Some true
         end) l l'
  | VPtr _ p, VPtr _ q =>
      match p, q with
      | None, None => Some true
      | Some x, Some y => Some (value_eqb x y)
      | _, _ => Some false
      end
  | VIface x, VIface y =>
      match x, y with
      | None, None => Some true
      | Some u, Some v =>
          if type_eqb (typeOf u) (typeOf v) then go_eq u v else Some false
      | _, _ => Some false
      end
  | VStruct _ fs, VStruct _ gs =>
      (fix go (l : list (StructField * value)) (l' : list (StructField * value))
         : option bool :=
         match l, l' with
         | x :: r, y :: r' =>
             match go_eq (snd x) (snd y) with
             | Some true => go r r'
             | o => o
             end
         | _, _ => Some true
         end) fs gs
  | VOpaque k _ p, VOpaque _ _ q =>
      match k with
      | reflect.Func => None
      | _ => Some (match p, q with
                   | None, None => true
                   | Some n, Some m => Nat.eqb n m
                   | _, _ => false
                   end)
      end
  | VSlice _ _, _ => None
  | VMap _ _ _, _ => None
  | _, _ => Some false
  end.

(** Value.MapIndex: the entry stored under [k]. Keys are compared
    structurally, which is Go's [==] on strings and integers. *)
Fixpoint assoc (m : list (value * value)) (k : value) : option value :=
  match m with
  | [] => None
  | (k', v) :: r => if value_eqb k' k then Some v else assoc r k
  end.

Definition MapIndex (m : value) (k : value) : option value :=
  match m with
  | VMap _ _ (Some l) => assoc l k
  | _ => None
  end.

(** Value.SetMapIndex on the entries: replace the entry under [k] or add
    one. *)
Fixpoint assoc_set (m : list (value * value)) (k v : value)
  : list (value * value) :=
  match m with
  | [] => [(k, v)]
  | (k', v') :: r =>
      if value_eqb k' k then (k', v) :: r else (k', v') :: assoc_set r k v
  end.

(** ** Locations inside a struct value *)

Inductive step : Type :=
| SField (i : nat)      (* Value.Field(i) *)
| SDeref.               (* Value.Elem() of a non-nil pointer *)

Definition path := list step.

Fixpoint get_path (v : value) (p : path) : option value :=
  match p with
  | [] => Some v
  | SField i :: r =>
      match v with
      | VStruct _ fs =>
          match nth_error fs i with
          | Some (_, x) => get_path x r
          | None => None
          end
      | _ => None
      end
  | SDeref :: r =>
      match v with
      | VPtr _ (Some x) => get_path x r
      | _ => None
      end
  end.

Fixpoint set_nth {A : Type} (l : list A) (i : nat) (x : A) : list A :=
  match l, i with
  | [], _ => []
  | _ :: r, O => x :: r
  | y :: r, S j => y :: set_nth r j x
  end.

Fixpoint set_path (v : value) (p : path) (x : value) : option value :=
  match p with
  | [] => Some x
  | SField i :: r =>
      match v with
      | VStruct n fs =>
          match nth_error fs i with
          | Some (f, y) =>
              match set_path y r x with
              | Some y' => Some (VStruct n (set_nth fs i (f, y')))
              | None => None
              end
          | None => None
          end
      | _ => None
      end
  | SDeref :: r =>
      match v with
      | VPtr e (Some y) =>
          match set_path y r x with
          | Some y' => Some (VPtr e (Some y'))
          | None => None
          end
      | _ => None
      end
  end.

(** ** Errors *)

(** The text of an error, kept as the format and its arguments. *)
Inductive errmsg : Type :=
| MsgTargetNotPointer       (* target must be a pointer *)
| MsgTargetNotAddressable   (* target must be addressable (a pointer) *)
| MsgUnsupportedType (key : string) (k : reflect.Kind)
| MsgExpectedType (key : string) (want got : type)
| MsgUnconvertible (key : string) (want got : type) (v : option value)
| MsgCannotParse (key : string) (what : string) (err : string)
| MsgUintOverflowInt (key : string) (i : Z)
| MsgUintOverflowFloat (key : string) (f : spec_float)
| MsgJsonNumber (key : string) (err : string)
| MsgNaNInf (key : string)
| MsgExpectedMap (key : string) (k : reflect.Kind)
| MsgExpectedMapNil (key : string)
| MsgMapValueType (got want : type)
| MsgMapKey (name : string) (inner : list errmsg)
| MsgExpectedSequence (key : string) (k : reflect.Kind)
| MsgLengthExceeded (key : string) (max got : nat)
| MsgKeyType (key : string) (k : reflect.Kind).

(** A Go [error]: one made by errors.New or fmt.Errorf, or the aggregate
    [*Error] with its list of messages. *)
Inductive error : Type :=
| ErrorNew (m : errmsg)
| ErrorList (ms : list errmsg).

Definition messages (e : error) : list errmsg :=
  match e with
  | ErrorNew m => [m]
  | ErrorList ms => ms
  end.

(** Modelled from the spec: [appendErrors] is declared outside the files at
    hand.  The aggregate error exposes the full ordered list of the
    individual failure messages, so the messages of an aggregate child are
    spliced in and any other error adds its one message. *)
Definition appendErrors (errors : list errmsg) (err : error) : list errmsg :=
  errors ++ messages err.

(** [if len(errors) > 0 { return &Error{errors} }; return nil] *)
Definition errorsResult (errors : list errmsg) : option error :=
  match errors with
  | [] => None
  | _ => Some (ErrorList errors)
  end.

(** ** Configuration and metadata *)

Record Metadata : Type := mkMetadata {
  Keys : list string;
  Unused : list string;
  Unset : list string
}.

Record AssignConfig : Type := mkConfig {
  WeaklyTypedInput : bool;
  TagName : string;
  IncludeIgnoreFields : bool;
  Converter : string -> string;
  (* the sink [Metadata] points to, if any; nil and empty lists are not
     told apart *)
  Metadata_ : option Metadata;
  SkipKeys : list string;
  SkipSameValues : bool
}.

Inductive revision : Type :=
| Rev1      (* assign.go *)
| Rev2.     (* the rewrite on reflect.Value *)

Record assigner : Type := mkAssigner {
  config : AssignConfig;
  skipKeysCache : list string;     (* Rev2 only: the keys of the cache *)
  rev : revision
}.

(** [&assigner{config: c}] in Rev1, [newAssigner(c)] in Rev2. *)
Definition newAssigner (r : revision) (c : AssignConfig) : assigner :=
  {| config := c;
     skipKeysCache := match r with Rev1 => [] | Rev2 => SkipKeys c end;
     rev := r |}.

(** ** The functions of the Go run-time and standard library the engine
    calls *)

Record GoRuntime : Type := mkRuntime {
  toLowerCamel : string -> string;
  (* strconv.ParseInt(s, base, bitSize) and friends; [inr] is err.Error() *)
  ParseInt : string -> Z -> Z -> Z + string;
  ParseUint : string -> Z -> Z -> Z + string;
  ParseFloat : string -> Z -> spec_float + string;
  FormatFloat : spec_float -> string;
  (* the conversions int64(f), uint64(f), float64(i) and float32(f); what
     uint64(f) and int64(f) give outside the target range depends on the
     platform *)
  FloatToInt64 : spec_float -> Z;
  FloatToUint64 : spec_float -> Z;
  IntToFloat : Z -> spec_float;
  RoundFloat32 : spec_float -> spec_float;
  (* fmt.Sprintf("%v", x) and Type.String() *)
  Sprint : option value -> string;
  TypeString : type -> string;
  (* reflect.DeepEqual on two [any] *)
  DeepEqual : option value -> option value -> bool;
  (* the order in which a range loop over a map visits the entries *)
  RangeOrder : forall A : Type, list A -> list A;
  RangeOrder_perm : forall (A : Type) (l : list A),
      Permutation l (RangeOrder l)
}.

(** ** Outcomes and the state monad over the metadata sink *)

Inductive outcome (A : Type) : Type :=
| Done (a : A)
| Panic            (* a run-time panic of the Go program *)
| OutOfFuel.       (* the recursion bound of the model was reached *)

Arguments Done {A} a.
Arguments Panic {A}.
Arguments OutOfFuel {A}.

(** The state is the object [config.Metadata] points to; [None] when the
    pointer is nil. *)
Definition Sink := option Metadata.

Definition M (A : Type) : Type := Sink -> outcome (A * Sink).

Definition ret {A : Type} (a : A) : M A := fun s => Done (a, s).

Definition bind {A B : Type} (m : M A) (f : A -> M B) : M B :=
  fun s =>
    match m s with
    | Done (a, s') => f a s'
    | Panic => Panic
    | OutOfFuel => OutOfFuel
    end.

Definition panic {A : Type} : M A := fun _ => Panic.
Definition out_of_fuel {A : Type} : M A := fun _ => OutOfFuel.

Definition modify (f : Metadata -> Metadata) : M unit :=
  fun s =>
    match s with
    | None => Done (tt, None)
    | Some m => Done (tt, Some (f m))
    end.

(** Run [m] for an assigner without a sink (the package-level
    [weakAssigner]) and keep the caller's sink as it is. *)
Definition without_sink {A : Type} (m : M A) : M A :=
  fun s =>
    match m None with
    | Done (a, _) => Done (a, s)
    | Panic => Panic
    | OutOfFuel => OutOfFuel
    end.

Declare Scope go_scope.
Delimit Scope go_scope with go.
Notation "x <- m ;; k" := (bind m (fun x => k))
  (at level 61, m at next level, right associativity) : go_scope.
Notation "' p <- m ;; k" := (bind m (fun x => match x with p => k end))
  (at level 61, p pattern, m at next level, right associativity) : go_scope.
Notation "m ;;; k" := (bind m (fun _ => k))
  (at level 61, right associativity) : go_scope.
Local Open Scope go_scope.

(** A [for ... range] loop whose body always runs to its end or to a
    [continue]: the body is applied to every element in turn. *)
Fixpoint forEach {X St : Type} (body : X -> St -> M St) (xs : list X)
  (st : St) : M St :=
  match xs with
  | [] => ret st
  | x :: r => st' <- body x st ;; forEach body r st'
  end.

(** The elements of a sequence with their indices. *)
Definition indexed {A : Type} (l : list A) : list (nat * A) :=
  combine (seq 0 (List.length l)) l.

(** A handler returns the value its target slot holds afterwards and the
    Go error. *)
Definition result : Type := value * option error.

(** Value.Set and its typed variants panic on a slot that is not
    settable. *)
Definition Set_ (canSet : bool) (x : value) : M value :=
  if canSet then ret x else panic.

Definition SetInt (canSet : bool) (t : value) (x : Z) : M value :=
  match t with
  | VInt k _ => Set_ canSet (VInt k (wrapS (int_bits k) x))
  | _ => panic
  end.

Definition SetUint (canSet : bool) (t : value) (x : Z) : M value :=
  match t with
  | VUint k _ => Set_ canSet (VUint k (wrapU (uint_bits k) x))
  | _ => panic
  end.

Definition SetBool (canSet : bool) (t : value) (b : bool) : M value :=
  match t with
  | VBool _ => Set_ canSet (VBool b)
  | _ => panic
  end.

Definition SetString (canSet : bool) (t : value) (s : string) : M value :=
  match t with
  | VString _ => Set_ canSet (VString s)
  | VNumber _ => Set_ canSet (VNumber s)
  | _ => panic
  end.

(** ** Key paths *)

Definition metaKey := string.

Definition IsEmpty (k : metaKey) : bool := String.eqb k "".

Definition genFullKey (parentKind : reflect.Kind) (parentFull keyName : string)
  : string :=
  if negb (reflect.kind_num parentKind =? 0) then
    if String.eqb parentFull "" then keyName
    else if String.eqb keyName "" then parentFull
    else match parentKind with
         | reflect.Map | reflect.Array | reflect.Slice =>
             (parentFull ++ "[" ++ keyName ++ "]")%string
         | _ => (parentFull ++ "." ++ keyName)%string
         end
  else keyName.

Definition newChild (k : metaKey) (parentKind : reflect.Kind)
  (fieldName : string) : metaKey :=
  genFullKey parentKind k fieldName.

(** strconv.Itoa and strconv.FormatInt(i, 10) *)
Definition Itoa (i : nat) : string := NilZero.string_of_uint (Nat.to_uint i).
Definition FormatInt (i : Z) : string := NilZero.string_of_int (Z.to_int i).

(** strconv.ParseBool *)
Definition ParseBool (s : string) : option bool :=
  if existsb (String.eqb s) ["1"; "t"; "T"; "true"; "TRUE"; "True"]
  then Some true
  else if existsb (String.eqb s) ["0"; "f"; "F"; "false"; "FALSE"; "False"]
  then Some false
  else None.

(** ** Metadata *)

Definition addMetaKey (targetKey : metaKey) : M unit :=
  if IsEmpty targetKey then ret tt
  else modify (fun m => {| Keys := Keys m ++ [targetKey];
                           Unused := Unused m; Unset := Unset m |}).

Definition addMetaUnused (sourceKey : metaKey) : M unit :=
  if IsEmpty sourceKey then ret tt
  else modify (fun m => {| Keys := Keys m;
                           Unused := Unused m ++ [sourceKey];
                           Unset := Unset m |}).

Definition addMetaUnset (targetKey : metaKey) : M unit :=
  if IsEmpty targetKey then ret tt
  else modify (fun m => {| Keys := Keys m; Unused := Unused m;
                           Unset := Unset m ++ [targetKey] |}).

(** Rev1 walks [config.SkipKeys] and records the skipped pair; Rev2 looks
    both keys up in the cache and records nothing. *)
Definition shouldSkipKey (a : assigner) (targetKey sourceKey : metaKey)
  : M bool :=
  if String.eqb targetKey "" || String.eqb sourceKey "" then ret false
  else
    match rev a with
    | Rev1 =>
        if existsb (fun keyToSkip => String.eqb targetKey keyToSkip
                                     || String.eqb sourceKey keyToSkip)
                   (SkipKeys (config a))
        then addMetaUnused sourceKey ;;; addMetaUnset targetKey ;;; ret true
        else ret false
    | Rev2 =>
        if existsb (String.eqb targetKey) (skipKeysCache a) then ret true
        else if existsb (String.eqb sourceKey) (skipKeysCache a) then ret true
        else ret false
    end.

(** ** Kinds *)

(** Rev1 folds the sized kinds into one representative per family. *)
Definition getKind (val : value) : reflect.Kind :=
  let kind := value_kind val in
  let n := reflect.kind_num kind in
  if (reflect.kind_num reflect.Int <=? n) && (n <=? reflect.kind_num reflect.Int64)
  then reflect.Int
  else if (reflect.kind_num reflect.Uint <=? n)
          && (n <=? reflect.kind_num reflect.Uint64)
  then reflect.Uint
  else if (reflect.kind_num reflect.Float32 <=? n)
          && (n <=? reflect.kind_num reflect.Float64)
  then reflect.Float32
  else kind.

(** The predicates of Rev2. *)
Definition isUint (kind : reflect.Kind) : bool :=
  match kind with
  | reflect.Uint | reflect.Uint8 | reflect.Uint16 | reflect.Uint32
  | reflect.Uint64 => true
  | _ => false
  end.

Definition isInt (kind : reflect.Kind) : bool :=
  match kind with
  | reflect.Int | reflect.Int8 | reflect.Int16 | reflect.Int32
  | reflect.Int64 => true
  | _ => false
  end.

Definition isFloat (kind : reflect.Kind) : bool :=
  match kind with
  | reflect.Float32 | reflect.Float64 => true
  | _ => false
  end.

Definition isString (kind : reflect.Kind) : bool :=
  reflect.kind_eqb kind reflect.String.
Definition isMap (kind : reflect.Kind) : bool :=
  reflect.kind_eqb kind reflect.Map.
Definition isStruct (kind : reflect.Kind) : bool :=
  reflect.kind_eqb kind reflect.Struct.
Definition isArraySlice (kind : reflect.Kind) : bool :=
  reflect.kind_eqb kind reflect.Array || reflect.kind_eqb kind reflect.Slice.

Definition isJsonNumber (t : type) : bool :=
  match t with TNumber => true | _ => false end.

Definition isPtrAble (kind : reflect.Kind) : bool :=
  match kind with
  | reflect.Chan | reflect.Func | reflect.Map | reflect.Pointer
  | reflect.UnsafePointer | reflect.Interface | reflect.Slice => true
  | _ => false
  end.

(** reflect.Indirect on a possibly invalid Value. *)
Definition Indirect (s : option value) : option value :=
  match s with
  | Some (VPtr _ p) => p
  | _ => s
  end.

(** Value.Kind(), [Invalid] on the zero Value. *)
Definition Kind_ (s : option value) : reflect.Kind :=
  match s with
  | Some v => value_kind v
  | None => reflect.Invalid
  end.

(** The kind a handler dispatches on: [getKind(sourceVal)] in Rev1,
    [sourceVal.Kind()] in Rev2. *)
Definition sourceKindOf (a : assigner) (s : option value) : reflect.Kind :=
  match s with
  | None => reflect.Invalid
  | Some v => match rev a with Rev1 => getKind v | Rev2 => value_kind v end
  end.

(** [sourceKind == reflect.Int] in Rev1, [isInt(sourceKind)] in Rev2, and
    likewise for the other families. *)
Definition kindIsInt (a : assigner) (k : reflect.Kind) : bool :=
  match rev a with Rev1 => reflect.kind_eqb k reflect.Int | Rev2 => isInt k end.
Definition kindIsUint (a : assigner) (k : reflect.Kind) : bool :=
  match rev a with Rev1 => reflect.kind_eqb k reflect.Uint | Rev2 => isUint k end.
Definition kindIsFloat (a : assigner) (k : reflect.Kind) : bool :=
  match rev a with
  | Rev1 => reflect.kind_eqb k reflect.Float32
  | Rev2 => isFloat k
  end.

(** Value.Int(), Value.Uint(), Value.Float(), Value.Bool(), Value.String()
    on a value of the matching kind. *)
Definition Int_ (v : value) : Z := match v with VInt _ i => i | _ => 0 end.
Definition Uint_ (v : value) : Z := match v with VUint _ u => u | _ => 0 end.
Definition Float_ (v : value) : spec_float :=
  match v with VFloat _ f => f | _ => SF_zero end.
Definition Bool_ (v : value) : bool :=
  match v with VBool b => b | _ => false end.
Definition String_ (v : value) : string :=
  match v with VString s => s | VNumber s => s | _ => "" end.

(** ** Struct tags *)

(** StructTag.Get *)
Fixpoint TagGet (tag : list (string * string)) (key : string) : string :=
  match tag with
  | [] => ""
  | (k, v) :: r => if String.eqb k key then v else TagGet r key
  end.

(** strings.Split(s, ","), with the piece read so far in [cur]. *)
Fixpoint SplitComma (s : string) (cur : string) : list string :=
  match s with
  | EmptyString => [cur]
  | String.String c r =>
      if Ascii.eqb c ","%char then cur :: SplitComma r ""
      else SplitComma r (cur ++ String.String c "")%string
  end.

Definition parseTag (a : assigner) (fd : StructField)
  : string * bool * bool :=
  let tagValue := TagGet (Tag fd) (TagName (config a)) in
  let pices := SplitComma tagValue "" in
  let displayName := Name fd in
  let '(actualName, skip) :=
    match pices with
    | [] => (Converter (config a) displayName, false)
    | p0 :: _ =>
        if String.eqb p0 "" then (Converter (config a) displayName, false)
        else if String.eqb p0 "-" then
          if IncludeIgnoreFields (config a)
          then (Converter (config a) displayName, false)
          else ("", true)
        else (p0, false)
    end in
  (actualName, existsb (String.eqb "omitempty") pices, skip).

(** ** Flattening a struct *)

Record fieldInfo : Type := mkFieldInfo {
  field : StructField;
  fieldVal : value;          (* the value read when the struct was flattened *)
  fieldLoc : option path;    (* the slot inside the flattened struct; [None]
                                for a slot of a detached zero struct *)
  fieldCanSet : bool;        (* fieldVal.CanSet() *)
  displayName : string;
  actualName : string;
  omitempty : bool
}.

(** An entry of the queue [structs]. *)
Record structItem : Type := mkItem {
  sVal : value;
  sLoc : option path;
  sCanSet : bool
}.

Definition flatState : Type :=
  (value * list structItem * list (string * fieldInfo))%type.

Definition fields_has (fields : list (string * fieldInfo)) (n : string)
  : bool :=
  existsb (fun p => String.eqb (fst p) n) fields.

Definition extend (loc : option path) (s : path) : option path :=
  match loc with
  | Some p => Some (p ++ s)
  | None => None
  end.

Definition set_at (root : value) (loc : option path) (x : value) : value :=
  match loc with
  | Some p => match set_path root p x with Some r => r | None => root end
  | None => root
  end.

(** The body of the loop over the fields of one struct, for field [i]. *)
Definition flattenField (a : assigner) (it : structItem) (i : nat)
  (fdv : StructField * value) (st : flatState) : flatState :=
  let '(root, structs, fields) := st in
  let '(fd, fieldVal) := fdv in
  if negb (IsExported fd) then st
  else
    let '(actualName, omitempty, skip) := parseTag a fd in
    if skip then st
    else if omitempty && IsZero fieldVal then st
    else
      let fLoc := extend (sLoc it) [SField i] in
      let '(root, fieldVal, fLoc, fCanSet) :=
        if Anonymous fd then
          match fieldVal with
          | VPtr (TStruct n fs) p =>
              let e := TStruct n fs in
              match p with
              | None =>
                  if sCanSet it
                  then (set_at root fLoc (VPtr e (Some (Zero e))),
                        Zero e, extend fLoc [SDeref], true)
                  else (root, Zero e, None, true)
              | Some x => (root, x, extend fLoc [SDeref], true)
              end
          | _ => (root, fieldVal, fLoc, sCanSet it)
          end
        else (root, fieldVal, fLoc, sCanSet it) in
      if Anonymous fd && reflect.kind_eqb (value_kind fieldVal) reflect.Struct
      then (root, structs ++ [mkItem fieldVal fLoc fCanSet], fields)
      else if fields_has fields (Name fd) then (root, structs, fields)
      else (root, structs,
            fields ++ [(Name fd,
                        {| field := fd; fieldVal := fieldVal;
                           fieldLoc := fLoc; fieldCanSet := fCanSet;
                           displayName := Name fd; actualName := actualName;
                           omitempty := omitempty |})]).

Fixpoint flattenFields (a : assigner) (it : structItem)
  (fs : list (StructField * value)) (i : nat) (st : flatState) : flatState :=
  match fs with
  | [] => st
  | fdv :: r => flattenFields a it r (S i) (flattenField a it i fdv st)
  end.

Definition struct_fields (v : value) : list (StructField * value) :=
  match v with
  | VStruct _ fs => fs
  | _ => []
  end.

(** [for len(structs) > 0 { ... }]; [None] when [fuel] iterations were not
    enough. *)
Fixpoint flattenLoop (fuel : nat) (a : assigner) (st : flatState)
  : option (value * list (string * fieldInfo)) :=
  match st with
  | (root, [], fields) => Some (root, fields)
  | (root, it :: rest, fields) =>
      match fuel with
      | O => None
      | S n =>
          flattenLoop n a
            (flattenFields a it (struct_fields (sVal it)) 0 (root, rest, fields))
      end
  end.

(** The number of values of struct kind reachable through fields and
    pointers, which bounds the number of structs the queue ever holds. *)
Fixpoint tweight (t : type) : nat :=
  match t with
  | TStruct _ fs => S (list_sum (map (fun p => tweight (snd p)) fs))
  | TPtr e => tweight e
  | TOpaque _ _ => 1
  | _ => 0
  end.

Fixpoint vweight (v : value) : nat :=
  match v with
  | VStruct _ fs => S (list_sum (map (fun p => vweight (snd p)) fs))
  | VPtr e None => tweight e
  | VPtr _ (Some x) => vweight x
  | VOpaque _ _ _ => 1
  | _ => 0
  end.

(** flattenStruct(val): the struct with its nil embedded pointers
    initialised, and the flattened fields in the order they were added. *)
Definition flattenStruct (a : assigner) (canSet : bool) (val : value)
  : option (value * list (string * fieldInfo)) :=
  flattenLoop (vweight val) a (val, [mkItem val (Some []) canSet], []).

(** ** The engine *)

Section Engine.

Variable rt : GoRuntime.

Definition defaultAssigner (r : revision) : assigner :=
  newAssigner r {| WeaklyTypedInput := false; TagName := "json";
                   IncludeIgnoreFields := false;
                   Converter := toLowerCamel rt; Metadata_ := None;
                   SkipKeys := []; SkipSameValues := false |}.

Definition weakAssigner (r : revision) : assigner :=
  newAssigner r {| WeaklyTypedInput := true; TagName := "json";
                   IncludeIgnoreFields := false;
                   Converter := toLowerCamel rt; Metadata_ := None;
                   SkipKeys := []; SkipSameValues := false |}.

Definition weak (a : assigner) : bool := WeaklyTypedInput (config a).

Definition SetFloat (canSet : bool) (t : value) (f : spec_float) : M value :=
  match t with
  | VFloat KFloat32 _ => Set_ canSet (VFloat KFloat32 (RoundFloat32 rt f))
  | VFloat KFloat64 _ => Set_ canSet (VFloat KFloat64 f)
  | _ => panic
  end.

(** Value.String() on any kind. *)
Definition ValueString (v : value) : string :=
  match v with
  | VString s => s
  | VNumber s => s
  | _ => ("<" ++ TypeString rt (typeOf v) ++ " Value>")%string
  end.

(** The value printed by a conversion error: [source] in Rev1,
    [sourceVal.Interface()] in Rev2. *)
Definition shown (a : assigner) (source : option value) (sourceVal : value)
  : option value :=
  match rev a with
  | Rev1 => source
  | Rev2 => Interface_ sourceVal
  end.

Definition unconvertible (a : assigner) (targetVal : value)
  (targetKey : metaKey) (source : option value) (sourceVal : value) : error :=
  ErrorNew (MsgUnconvertible targetKey (typeOf targetVal) (typeOf sourceVal)
              (shown a source sourceVal)).

Definition ok (t : M value) : M result := (v <- t ;; ret (v, None)).
Definition fail (t : value) (e : error) : M result := ret (t, Some e).

(** The json.Number a handler reads: the type assertion is on [source] in
    Rev1 and panics on a pointer to a json.Number; Rev2 asserts on
    [sourceVal.Interface()]. *)
Definition jsonNumber (a : assigner) (source : option value)
  (sourceVal : value) : option string :=
  match rev a with
  | Rev1 => match source with Some (VNumber s) => Some s | _ => None end
  | Rev2 => match sourceVal with VNumber s => Some s | _ => None end
  end.

Definition assignBool (a : assigner) (canSet : bool) (targetVal : value)
  (targetKey : metaKey) (source : option value) (sourceKey : metaKey)
  : M result :=
  match Indirect source with
  | None => panic
  | Some sourceVal =>
      let sourceKind := sourceKindOf a (Some sourceVal) in
      if reflect.kind_eqb sourceKind reflect.Bool then
        ok (SetBool canSet targetVal (Bool_ sourceVal))
      else if kindIsInt a sourceKind && weak a then
        ok (SetBool canSet targetVal (negb (Int_ sourceVal =? 0)))
      else if kindIsUint a sourceKind && weak a then
        ok (SetBool canSet targetVal (negb (Uint_ sourceVal =? 0)))
      else if kindIsFloat a sourceKind && weak a then
        ok (SetBool canSet targetVal (negb (float_is_zero (Float_ sourceVal))))
      else if reflect.kind_eqb sourceKind reflect.String && weak a then
        match ParseBool (String_ sourceVal) with
        | Some b => ok (SetBool canSet targetVal b)
        | None =>
            if String.eqb (String_ sourceVal) "" then
              ok (SetBool canSet targetVal false)
            else
              fail targetVal
                (ErrorNew (MsgCannotParse
                             (match rev a with
                              | Rev1 => targetKey
                              | Rev2 => sourceKey
                              end) "bool" (String_ sourceVal)))
        end
      else fail targetVal (unconvertible a targetVal targetKey source sourceVal)
  end.

Definition assignString (a : assigner) (canSet : bool) (targetVal : value)
  (targetKey : metaKey) (source : option value) (sourceKey : metaKey)
  : M result :=
  match Indirect source with
  | None => panic
  | Some sourceVal =>
      let sourceKind := sourceKindOf a (Some sourceVal) in
      if reflect.kind_eqb sourceKind reflect.String then
        ok (SetString canSet targetVal (String_ sourceVal))
      else if reflect.kind_eqb sourceKind reflect.Bool && weak a then
        ok (SetString canSet targetVal (if Bool_ sourceVal then "1" else "0"))
      else if kindIsInt a sourceKind && weak a then
        ok (SetString canSet targetVal (FormatInt (Int_ sourceVal)))
      else if kindIsUint a sourceKind && weak a then
        ok (SetString canSet targetVal (FormatInt (Uint_ sourceVal)))
      else if kindIsFloat a sourceKind && weak a then
        ok (SetString canSet targetVal (FormatFloat rt (Float_ sourceVal)))
      else if isArraySlice sourceKind && weak a then
        match type_elem (typeOf sourceVal), Elems sourceVal with
        | TUint KUint8, Some uints =>
            ok (SetString canSet targetVal (bytes_string uints))
        | _, _ =>
            fail targetVal (unconvertible a targetVal targetKey source sourceVal)
        end
      else fail targetVal (unconvertible a targetVal targetKey source sourceVal)
  end.

Definition assignInt (a : assigner) (canSet : bool) (targetVal : value)
  (targetKey : metaKey) (source : option value) (sourceKey : metaKey)
  : M result :=
  match Indirect source with
  | None => panic
  | Some sourceVal =>
      let sourceKind := sourceKindOf a (Some sourceVal) in
      let sourceType := typeOf sourceVal in
      if kindIsInt a sourceKind then
        ok (SetInt canSet targetVal (Int_ sourceVal))
      else if kindIsUint a sourceKind then
        ok (SetInt canSet targetVal (wrapS 64 (Uint_ sourceVal)))
      else if kindIsFloat a sourceKind then
        ok (SetInt canSet targetVal (FloatToInt64 rt (Float_ sourceVal)))
      else if reflect.kind_eqb sourceKind reflect.Bool && weak a then
        ok (SetInt canSet targetVal (if Bool_ sourceVal then 1 else 0))
      else if reflect.kind_eqb sourceKind reflect.String && weak a then
        let str := String_ sourceVal in
        let str := if String.eqb str "" then "0" else str in
        let bits := match targetVal with VInt k _ => int_bits k | _ => 0 end in
        match ParseInt rt str 0 bits with
        | inl i => ok (SetInt canSet targetVal i)
        | inr err => fail targetVal (ErrorNew (MsgCannotParse targetKey "int" err))
        end
      else if isJsonNumber sourceType then
        match jsonNumber a source sourceVal with
        | None => panic
        | Some jn =>
            match ParseInt rt jn 10 64 with
            | inl i => ok (SetInt canSet targetVal i)
            | inr err => fail targetVal (ErrorNew (MsgJsonNumber targetKey err))
            end
        end
      else fail targetVal (unconvertible a targetVal targetKey source sourceVal)
  end.

Definition assignUint (a : assigner) (canSet : bool) (targetVal : value)
  (targetKey : metaKey) (source : option value) (sourceKey : metaKey)
  : M result :=
  match Indirect source with
  | None => panic
  | Some sourceVal =>
      let sourceKind := sourceKindOf a (Some sourceVal) in
      let sourceType := typeOf sourceVal in
      if kindIsInt a sourceKind then
        let i := Int_ sourceVal in
        if (i <? 0) && negb (weak a) then
          fail targetVal (ErrorNew (MsgUintOverflowInt targetKey i))
        else ok (SetUint canSet targetVal (wrapU 64 i))
      else if kindIsUint a sourceKind then
        ok (SetUint canSet targetVal (Uint_ sourceVal))
      else if kindIsFloat a sourceKind then
        let f := Float_ sourceVal in
        if float_is_neg f && negb (weak a) then
          fail targetVal (ErrorNew (MsgUintOverflowFloat targetKey f))
        else ok (SetUint canSet targetVal (FloatToUint64 rt f))
      else if reflect.kind_eqb sourceKind reflect.Bool && weak a then
        ok (SetUint canSet targetVal (if Bool_ sourceVal then 1 else 0))
      else if reflect.kind_eqb sourceKind reflect.String && weak a then
        let str := String_ sourceVal in
        let str := if String.eqb str "" then "0" else str in
        let bits := match targetVal with VUint k _ => uint_bits k | _ => 0 end in
        match ParseUint rt str 0 bits with
        | inl i => ok (SetUint canSet targetVal i)
        | inr err => fail targetVal (ErrorNew (MsgCannotParse targetKey "uint" err))
        end
      else if isJsonNumber sourceType then
        match jsonNumber a source sourceVal with
        | None => panic
        | Some jn =>
            match ParseUint rt jn 0 64 with
            | inl i => ok (SetUint canSet targetVal i)
            | inr err => fail targetVal (ErrorNew (MsgJsonNumber targetKey err))
            end
        end
      else fail targetVal (unconvertible a targetVal targetKey source sourceVal)
  end.

(** Rev2 only: [setFloatValue], with [checkNaNAndInf] inlined. *)
Definition setFloatValue (a : assigner) (canSet : bool) (targetVal : value)
  (key : metaKey) (f : spec_float) : M result :=
  if float_nan_or_inf f then
    if weak a then ok (SetFloat canSet targetVal SF_zero)
    else fail targetVal (ErrorNew (MsgNaNInf key))
  else ok (SetFloat canSet targetVal f).

Definition assignFloat (a : assigner) (canSet : bool) (targetVal : value)
  (targetKey : metaKey) (source : option value) (sourceKey : metaKey)
  : M result :=
  match Indirect source with
  | None => panic
  | Some sourceVal =>
      let sourceKind := sourceKindOf a (Some sourceVal) in
      let sourceType := typeOf sourceVal in
      let set f := match rev a with
                   | Rev1 => ok (SetFloat canSet targetVal f)
                   | Rev2 => setFloatValue a canSet targetVal targetKey f
                   end in
      if kindIsInt a sourceKind then
        ok (SetFloat canSet targetVal (IntToFloat rt (Int_ sourceVal)))
      else if kindIsUint a sourceKind then
        ok (SetFloat canSet targetVal (IntToFloat rt (Uint_ sourceVal)))
      else if kindIsFloat a sourceKind then
        set (Float_ sourceVal)
      else if reflect.kind_eqb sourceKind reflect.Bool && weak a then
        ok (SetFloat canSet targetVal
              (IntToFloat rt (if Bool_ sourceVal then 1 else 0)))
      else if reflect.kind_eqb sourceKind reflect.String && weak a then
        let str := String_ sourceVal in
        let str := if String.eqb str "" then "0" else str in
        let bits := match targetVal with VFloat k _ => float_bits k | _ => 0 end in
        match ParseFloat rt str bits with
        | inl f => set f
        | inr err =>
            fail targetVal (ErrorNew (MsgCannotParse targetKey "float" err))
        end
      else if isJsonNumber sourceType then
        match jsonNumber a source sourceVal with
        | None => panic
        | Some jn =>
            match ParseFloat rt jn 64 with
            | inl f => set f
            | inr err => fail targetVal (ErrorNew (MsgJsonNumber targetKey err))
            end
        end
      else fail targetVal (unconvertible a targetVal targetKey source sourceVal)
  end.

Definition assignFunc (a : assigner) (canSet : bool) (targetVal : value)
  (targetKey : metaKey) (source : option value) (sourceKey : metaKey)
  : M result :=
  match Indirect source with
  | None => panic
  | Some sourceVal =>
      if negb (type_eqb (typeOf targetVal) (typeOf sourceVal)) then
        fail targetVal (unconvertible a targetVal targetKey source sourceVal)
      else ok (Set_ canSet sourceVal)
  end.

(** The signature of [assign] and of the handlers it dispatches to. *)
Definition handler : Type :=
  assigner -> bool -> value -> metaKey -> option value -> metaKey -> M result.

(** The recursive calls a handler makes, one level of recursion further
    down. *)
Record engine : Type := mkEngine {
  e_assign : handler;
  e_assignSlice : handler;
  e_assignArray : handler;
  e_assignMapFromStruct :
    assigner -> bool -> value -> metaKey -> value -> metaKey -> M result
}.

Section Handlers.

Variable E : engine.

(** What a caller hands to [assign] for the element [x] it read from the
    source: [x.Interface()] in Rev1, [x] itself in Rev2. *)
Definition pass (a : assigner) (x : value) : option value :=
  match rev a with
  | Rev1 => Interface_ x
  | Rev2 => Some x
  end.

Definition addError (errors : list errmsg) (err : option error)
  : list errmsg :=
  match err with
  | Some e => appendErrors errors e
  | None => errors
  end.

Definition assignBasic (a : assigner) (canSet : bool) (targetVal : value)
  (targetKey : metaKey) (source : option value) (sourceKey : metaKey)
  : M result :=
  match Interface_ targetVal, targetVal with
  | Some elem, VIface _ =>
      (* the element of an interface is never addressable: decode into a
         copy behind a fresh pointer and store the copy back *)
      let copy := VPtr (typeOf elem) (Some elem) in
      '(elem', err) <- e_assign E a false copy targetKey source sourceKey ;;
      match err with
      | Some e => ret (targetVal, Some e)
      | None =>
          match elem' with
          | VPtr _ (Some x) => ok (Set_ canSet (VIface (Interface_ x)))
          | _ => panic
          end
      end
  | _, _ =>
      let sourceVal :=
        match source with
        | Some (VPtr e p) =>
            if type_eqb e (typeOf targetVal) then p else source
        | _ => source
        end in
      let sourceVal :=
        match sourceVal with
        | Some v => v
        | None => Zero (typeOf targetVal)
        end in
      let sourceType := typeOf sourceVal in
      if negb (AssignableTo sourceType (typeOf targetVal)) then
        fail targetVal
          (ErrorNew (MsgExpectedType targetKey (typeOf targetVal) sourceType))
      else
        ok (Set_ canSet (store (typeOf targetVal) (Interface_ sourceVal)))
  end.

(** What [assign] does on the zero Value as its target: the else branch of
    [assignPtr] reaches it through a nil pointer that cannot be set. *)
Definition assignInvalidTarget (a : assigner) (targetKey : metaKey)
  (source : option value) (sourceKey : metaKey) : M (option error) :=
  skip <- shouldSkipKey a targetKey sourceKey ;;
  if skip then ret None
  else
    match source with
    | None => ret None
    | Some (VPtr _ None) => ret None
    | Some _ =>
        if SkipSameValues (config a) then panic
        else ret (Some (ErrorNew (MsgUnsupportedType targetKey reflect.Invalid)))
    end.

(** The nil test at the head of [assignPtr]. *)
Definition sourceIsNil (a : assigner) (source : option value) : option bool :=
  let inner (v : option value) (dflt : bool) : option bool :=
    match v with
    | Some x =>
        match value_kind x with
        | reflect.Chan | reflect.Func | reflect.Interface | reflect.Map
        | reflect.Pointer | reflect.Slice => IsNil x
        | _ => Some dflt
        end
    | None => Some dflt
    end in
  match rev a with
  | Rev1 =>
      match source with
      | None => Some true
      | Some _ => inner (Indirect source) false
      end
  | Rev2 =>
      match source with
      | Some sv =>
          if isPtrAble (value_kind sv) then
            match IsNil sv with
            | Some true => Some true
            | Some false => inner (Indirect source) false
            | None => None
            end
          else Some false
      | None => Some false
      end
  end.

Definition assignPtr (a : assigner) (canSet : bool) (targetVal : value)
  (targetKey : metaKey) (source : option value) (sourceKey : metaKey)
  : M (bool * result) :=
  match targetVal with
  | VPtr targetValElemType p =>
      match sourceIsNil a source with
      | None => panic
      | Some true =>
          if negb (is_none p) && canSet
          then ret (true, (VPtr targetValElemType None, None))
          else ret (true, (targetVal, None))
      | Some false =>
          if canSet then
            let realVal :=
              match p with
              | Some x => x
              | None => Zero targetValElemType
              end in
            '(x', err) <- e_assign E a true realVal targetKey source sourceKey ;;
            match err with
            | Some e =>
                (* the pointee of a live pointer was written in place *)
                ret (false,
                     (match p with
                      | Some _ => VPtr targetValElemType (Some x')
                      | None => targetVal
                      end, Some e))
            | None => ret (false, (VPtr targetValElemType (Some x'), None))
            end
          else
            match p with
            | Some x =>
                '(x', err) <- e_assign E a true x targetKey source sourceKey ;;
                ret (false, (VPtr targetValElemType (Some x'), err))
            | None =>
                err <- assignInvalidTarget a targetKey source sourceKey ;;
                ret (false, (targetVal, err))
            end
      end
  | _ => panic
  end.

(** [[]any{source}] in Rev1, [wrapSlice(sourceVal)] in Rev2. *)
Definition wrapSlice (a : assigner) (source sourceVal : option value)
  : option value :=
  match rev a with
  | Rev1 => Some (VSlice TAny (Some [VIface source]))
  | Rev2 =>
      match sourceVal with
      | Some sv => Some (VSlice (typeOf sv) (Some [sv]))
      | None => None
      end
  end.

(** [for targetValSlice.Len() <= i { append a zero element }] *)
Definition grow (e : type) (l : list value) (i : nat) : list value :=
  l ++ repeat (Zero e) (S i - List.length l).

(** The body of the loop of [assignSlice] for index [i]. *)
Definition assignSliceBody (a : assigner) (e : type)
  (targetKey sourceKey : metaKey) (ix : nat * value)
  (st : list value * list errmsg) : M (list value * list errmsg) :=
  let '(i, sourceElem) := ix in
  let '(targetValSlice, errors) := st in
  let targetValSlice := grow e targetValSlice i in
  let targetField := nth i targetValSlice (Zero e) in
  let k := Itoa i in
  let targetFieldKey := newChild targetKey reflect.Slice k in
  let sourceFieldKey := newChild sourceKey reflect.Slice k in
  skip <- shouldSkipKey a targetFieldKey sourceFieldKey ;;
  if skip then ret (targetValSlice, errors)
  else
    '(x, err) <- e_assign E a true targetField targetFieldKey
                   (pass a sourceElem) sourceFieldKey ;;
    ret (set_nth targetValSlice i x, addError errors err).

Definition assignSlice (a : assigner) (canSet : bool) (targetVal : value)
  (targetKey : metaKey) (source : option value) (sourceKey : metaKey)
  : M result :=
  let sourceVal := Indirect source in
  let sourceValKind := Kind_ sourceVal in
  let targetValElemType := type_elem (typeOf targetVal) in
  if negb (isArraySlice sourceValKind) then
    if weak a then
      if reflect.kind_eqb sourceValKind reflect.Map then
        match sourceVal with
        | Some (VMap _ _ m) =>
            if is_none m || (List.length (match m with Some l => l | None => [] end) =? 0)%nat
            then
              t <- Set_ canSet (VSlice targetValElemType (Some [])) ;;
              addMetaKey targetKey ;;;
              ret (t, None)
            else
              match wrapSlice a source sourceVal with
              | Some w => e_assignSlice E a canSet targetVal targetKey (Some w) sourceKey
              | None => panic
              end
        | _ => panic
        end
      else if reflect.kind_eqb sourceValKind reflect.String
              && reflect.kind_eqb (type_kind targetValElemType) reflect.Uint8
      then
        e_assignSlice E a canSet targetVal targetKey
          (Some (VSlice (TUint KUint8)
                   (Some (string_bytes (match sourceVal with
                                        | Some v => String_ v
                                        | None => ""
                                        end))))) sourceKey
      else
        match wrapSlice a source sourceVal with
        | Some w => e_assignSlice E a canSet targetVal targetKey (Some w) sourceKey
        | None => panic
        end
    else
      fail targetVal (ErrorNew (MsgExpectedSequence targetKey sourceValKind))
  else
    match sourceVal, targetVal with
    | Some (VSlice _ None), _ => ret (targetVal, None)
    | Some sv, VSlice _ tl =>
        let src := match Elems sv with Some l => l | None => [] end in
        let targetValSlice :=
          match tl with
          | None => repeat (Zero targetValElemType) (List.length src)
          | Some l =>
              if (List.length src <? List.length l)%nat
              then firstn (List.length src) l
              else l
          end in
        '(l, errors) <- forEach (assignSliceBody a targetValElemType targetKey
                                   sourceKey)
                          (indexed src) (targetValSlice, []) ;;
        t <- Set_ canSet (VSlice targetValElemType (Some l)) ;;
        ret (t, errorsResult errors)
    | _, _ => panic
    end.

(** What the loop of [assignArray] ranges over; [None] where
    [sourceVal.Len()] or [sourceVal.Index(i)] panics. *)
Definition arraySource (sourceVal : option value) : option (list value) :=
  match sourceVal with
  | Some (VMap _ _ m) =>
      match m with
      | Some (_ :: _) => None
      | _ => Some []
      end
  | Some v => Elems v
  | None => None
  end.

(** The body of the loop of [assignArray] for index [i]. *)
Definition assignArrayBody (a : assigner) (elemCanSet : bool)
  (targetKey sourceKey : metaKey) (ix : nat * value)
  (st : list value * list errmsg) : M (list value * list errmsg) :=
  let '(i, sourceElem) := ix in
  let '(valArray, errors) := st in
  match nth_error valArray i with
  | None => panic
  | Some targetField =>
      let k := Itoa i in
      let targetFieldKey := newChild targetKey reflect.Array k in
      let sourceFieldKey := newChild sourceKey reflect.Array k in
      skip <- shouldSkipKey a targetFieldKey sourceFieldKey ;;
      if skip then ret (valArray, errors)
      else
        '(x, err) <- e_assign E a elemCanSet targetField targetFieldKey
                       (pass a sourceElem) sourceFieldKey ;;
        ret (set_nth valArray i x, addError errors err)
  end.

(** The part of [assignArray] after the checks on a zero target. *)
Definition assignArrayFill (a : assigner) (canSet elemCanSet : bool)
  (e : type) (arrayLen : nat) (targetKey : metaKey)
  (sourceVal : option value) (sourceKey : metaKey) (valArray : list value)
  : M result :=
  match arraySource sourceVal with
  | None => panic
  | Some src =>
      '(l, errors) <- forEach (assignArrayBody a elemCanSet targetKey sourceKey)
                        (indexed src) (valArray, []) ;;
      l <- match rev a with
           | Rev1 => ret l
           | Rev2 =>
               if (List.length src <? arrayLen)%nat then
                 if elemCanSet
                 then ret (firstn (List.length src) l
                           ++ repeat (Zero e) (arrayLen - List.length src))
                 else panic
               else ret l
           end ;;
      t <- Set_ canSet (VArray e l) ;;
      ret (t, errorsResult errors)
  end.

Definition assignArray (a : assigner) (canSet : bool) (targetVal : value)
  (targetKey : metaKey) (source : option value) (sourceKey : metaKey)
  : M result :=
  let sourceVal := Indirect source in
  let sourceValKind := Kind_ sourceVal in
  match targetVal with
  | VArray e tl =>
      let arrayLen := List.length tl in
      match go_eq targetVal (Zero (typeOf targetVal)) with
      | None => panic
      | Some false =>
          assignArrayFill a canSet canSet e arrayLen targetKey sourceVal
            sourceKey tl
      | Some true =>
          if negb (isArraySlice sourceValKind) then
            if weak a && reflect.kind_eqb sourceValKind reflect.Map then
              if match sourceVal with
                 | Some (VMap _ _ (Some (_ :: _))) => false
                 | _ => true
                 end
              then
                t <- Set_ canSet (Zero (TArray arrayLen e)) ;;
                addMetaKey targetKey ;;;
                ret (t, None)
              else
                fail targetVal
                  (ErrorNew (MsgExpectedSequence targetKey sourceValKind))
            else if weak a then
              match wrapSlice a source sourceVal with
              | Some w =>
                  e_assignArray E a canSet targetVal targetKey (Some w) sourceKey
              | None => panic
              end
            else
              fail targetVal
                (ErrorNew (MsgExpectedSequence targetKey sourceValKind))
          else
            let n := match sourceVal with
                     | Some v => match Len v with Some n => n | None => 0%nat end
                     | None => 0%nat
                     end in
            if (arrayLen <? n)%nat then
              fail targetVal (ErrorNew (MsgLengthExceeded targetKey arrayLen n))
            else
              assignArrayFill a canSet true e arrayLen targetKey sourceVal
                sourceKey (repeat (Zero e) arrayLen)
      end
  | _ => panic
  end.

Fixpoint assignMapFromSliceLoop (a : assigner) (canSet : bool)
  (targetKey sourceKey : metaKey) (src : list value) (i : nat)
  (targetVal : value) : M result :=
  match src with
  | [] => ret (targetVal, None)
  | srcElem :: rest =>
      '(t, err) <- e_assign E a canSet targetVal targetKey (pass a srcElem)
                     (newChild sourceKey reflect.Slice (Itoa i)) ;;
      match err with
      | Some e => ret (t, Some e)
      | None => assignMapFromSliceLoop a canSet targetKey sourceKey rest (S i) t
      end
  end.

Definition assignMapFromSlice (a : assigner) (canSet : bool)
  (targetVal : value) (targetKey : metaKey) (sourceVal : value)
  (sourceKey : metaKey) : M result :=
  match IsNil sourceVal, targetVal with
  | None, _ => panic
  | Some true, _ => ret (targetVal, None)
  | Some false, VMap targetKeyType targetElemType m =>
      let src := match Elems sourceVal with Some l => l | None => [] end in
      match src with
      | [] =>
          t <- Set_ canSet (VMap targetKeyType targetElemType (Some [])) ;;
          addMetaKey targetKey ;;;
          ret (t, None)
      | _ =>
          t <- (if is_none m
                then Set_ canSet (VMap targetKeyType targetElemType (Some []))
                else ret targetVal) ;;
          assignMapFromSliceLoop a canSet targetKey sourceKey src 0 t
      end
  | Some false, _ => panic
  end.

(** The call [weakAssigner.assign(target, "", source, "")]. *)
Definition weakAssign (a : assigner) (canSet : bool) (target : value)
  (source : option value) : M result :=
  without_sink (e_assign E (weakAssigner (rev a)) canSet target "" source "").

(** The body of the loop of [assignMapFromMap] for the key [srcKey]. *)
Definition assignMapFromMapBody (a : assigner)
  (targetValKeyType targetValElemType : type) (targetKey sourceKey : metaKey)
  (sourceVal : value) (srcKey : value)
  (st : list (value * value) * list errmsg)
  : M (list (value * value) * list errmsg) :=
  let '(entries, errors) := st in
  let kStr := Sprint rt (Interface_ srcKey) in
  let targetElem := Zero targetValElemType in
  match MapIndex sourceVal srcKey with
  | None => panic
  | Some sourceElem =>
      let childTargetKey := newChild targetKey reflect.Map kStr in
      let childSourceKey := newChild sourceKey reflect.Map kStr in
      skip <- shouldSkipKey a childTargetKey childSourceKey ;;
      if skip then ret (entries, errors)
      else
        '(currentKey, err) <- weakAssign a true (Zero targetValKeyType)
                                (pass a srcKey) ;;
        match err with
        | Some e => ret (entries, appendErrors errors e)
        | None =>
            '(targetElem, err) <- e_assign E a true targetElem childTargetKey
                                    (pass a sourceElem) childSourceKey ;;
            match err with
            | Some e => ret (entries, appendErrors errors e)
            | None => ret (assoc_set entries currentKey targetElem, errors)
            end
        end
  end.

Definition assignMapFromMap (a : assigner) (canSet : bool) (targetVal : value)
  (targetKey : metaKey) (sourceVal : value) (sourceKey : metaKey) : M result :=
  match sourceVal, targetVal with
  | VMap _ _ None, _ => ret (targetVal, None)
  | VMap _ _ (Some src), VMap targetValKeyType targetValElemType m =>
      match src with
      | [] =>
          t <- Set_ canSet (VMap targetValKeyType targetValElemType (Some [])) ;;
          addMetaKey targetKey ;;;
          ret (t, None)
      | _ =>
          entries <- match m with
                     | None =>
                         t <- Set_ canSet
                                (VMap targetValKeyType targetValElemType (Some [])) ;;
                         ret []
                     | Some l => ret l
                     end ;;
          '(entries, errors) <-
             forEach (assignMapFromMapBody a targetValKeyType targetValElemType
                        targetKey sourceKey sourceVal)
               (map fst (RangeOrder rt src)) (entries, []) ;;
          ret (VMap targetValKeyType targetValElemType (Some entries),
               errorsResult errors)
      end
  | _, _ => panic
  end.

Definition isEmptyValue (v : value) : bool :=
  match v with
  | VArray _ l => (List.length l =? 0)%nat
  | VMap _ _ m =>
      (List.length (match m with Some l => l | None => [] end) =? 0)%nat
  | VSlice _ l =>
      (List.length (match l with Some l => l | None => [] end) =? 0)%nat
  | VString s => (String.length s =? 0)%nat
  | VNumber s => (String.length s =? 0)%nat
  | VBool b => negb b
  | VInt _ i => i =? 0
  | VUint _ u => u =? 0
  | VFloat _ f => float_is_zero f
  | VIface x => is_none x
  | VPtr _ p => is_none p
  | _ => false
  end.

(** The flattened fields of a source struct.  A source reached through a
    pointer is addressable in Go and gets its nil embedded pointers
    initialised; the model leaves the source as it is, and reads the same
    field values either way. *)
Definition flattenSource (a : assigner) (sourceVal : value)
  : M (list (string * fieldInfo)) :=
  match flattenStruct a false sourceVal with
  | Some (_, fields) => ret fields
  | None => out_of_fuel
  end.

Fixpoint assignMapFromStructLoop (a : assigner)
  (targetKeyType targetElemType : type) (targetKey sourceKey : metaKey)
  (sourceFields : list (string * fieldInfo)) (entries : list (value * value))
  : M (list (value * value) * option error) :=
  match sourceFields with
  | [] => ret (entries, None)
  | (_, srcField) :: rest =>
      let next := assignMapFromStructLoop a targetKeyType targetElemType
                    targetKey sourceKey rest in
      let fv := fieldVal srcField in
      if negb (AssignableTo (typeOf fv) targetElemType) then
        ret (entries, Some (ErrorNew (MsgMapValueType (typeOf fv) targetElemType)))
      else
        let targetFieldKey :=
          newChild targetKey reflect.Map (actualName srcField) in
        let sourceFieldKey :=
          newChild sourceKey reflect.Struct (displayName srcField) in
        skip <- shouldSkipKey a targetFieldKey sourceFieldKey ;;
        if skip then next entries
        else
          '(keyVal, kerr) <- weakAssign a true (Zero targetKeyType)
                               (Some (VString (actualName srcField))) ;;
          match rev a, kerr with
          | Rev2, Some e =>
              ret (entries,
                   Some (ErrorNew (MsgMapKey (actualName srcField) (messages e))))
          | _, _ =>
              if reflect.kind_eqb (value_kind fv) reflect.Struct then
                if AssignableTo (typeOf fv) targetElemType then
                  addMetaKey targetFieldKey ;;;
                  next (assoc_set entries keyVal
                          (store targetElemType (Interface_ fv)))
                else
                  let targetChildVal := VMap TString TAny (Some []) in
                  if negb (AssignableTo (typeOf targetChildVal) targetElemType)
                  then addMetaUnused sourceFieldKey ;;; next entries
                  else
                    '(child, err) <- e_assignMapFromStruct E a false
                                       targetChildVal targetFieldKey fv
                                       sourceFieldKey ;;
                    match err with
                    | Some e => ret (entries, Some e)
                    | None =>
                        addMetaKey targetFieldKey ;;;
                        next (assoc_set entries keyVal
                                (store targetElemType (Some child)))
                    end
              else if omitempty srcField && isEmptyValue fv then
                addMetaUnused sourceFieldKey ;;; next entries
              else
                addMetaKey targetFieldKey ;;;
                next (assoc_set entries keyVal
                        (store targetElemType (Interface_ fv)))
          end
  end.

Definition assignMapFromStruct (a : assigner) (canSet : bool)
  (targetVal : value) (targetKey : metaKey) (sourceVal : value)
  (sourceKey : metaKey) : M result :=
  match targetVal with
  | VMap targetKeyType targetElemType m =>
      entries <- match m with
                 | None =>
                     t <- Set_ canSet (VMap targetKeyType targetElemType (Some [])) ;;
                     ret []
                 | Some l => ret l
                 end ;;
      sourceFields <- flattenSource a sourceVal ;;
      '(entries, err) <-
         assignMapFromStructLoop a targetKeyType targetElemType targetKey
           sourceKey (RangeOrder rt sourceFields) entries ;;
      ret (VMap targetKeyType targetElemType (Some entries), err)
  | _ => panic
  end.

Definition assignMap (a : assigner) (canSet : bool) (targetVal : value)
  (targetKey : metaKey) (source : option value) (sourceKey : metaKey)
  : M result :=
  match Indirect source with
  | None =>
      match rev a with
      | Rev1 => fail targetVal (ErrorNew (MsgExpectedMap targetKey reflect.Invalid))
      | Rev2 => fail targetVal (ErrorNew (MsgExpectedMapNil targetKey))
      end
  | Some sourceVal =>
      let sourceKind := value_kind sourceVal in
      if isMap sourceKind then
        assignMapFromMap a canSet targetVal targetKey sourceVal sourceKey
      else if isStruct sourceKind then
        assignMapFromStruct a canSet targetVal targetKey sourceVal sourceKey
      else if weak a && isArraySlice sourceKind then
        assignMapFromSlice a canSet targetVal targetKey sourceVal sourceKey
      else fail targetVal (ErrorNew (MsgExpectedMap targetKey sourceKind))
  end.

(** The value a flattened target field holds now. *)
Definition live (root : value) (fi : fieldInfo) : value :=
  match fieldLoc fi with
  | Some p => match get_path root p with Some v => v | None => fieldVal fi end
  | None => fieldVal fi
  end.

Definition flattenTarget (a : assigner) (canSet : bool) (targetVal : value)
  : M (value * list (string * fieldInfo)) :=
  match flattenStruct a canSet targetVal with
  | Some r => ret r
  | None => out_of_fuel
  end.

Definition addKey (k : string) (l : list string) : list string :=
  if existsb (String.eqb k) l then l else l ++ [k].

Definition deleteKey (k : string) (l : list string) : list string :=
  filter (fun x => negb (String.eqb x k)) l.

Fixpoint addMetaUnusedAll (sourceKey : metaKey) (parentKind : reflect.Kind)
  (names : list string) : M unit :=
  match names with
  | [] => ret tt
  | k :: r =>
      addMetaUnused (newChild sourceKey parentKind k) ;;;
      addMetaUnusedAll sourceKey parentKind r
  end.

(** The state of the loop of [assignStructFromMap]: the target struct, the
    key slot (shared by the iterations in Rev2), the unused map keys and
    the errors. *)
Definition fromMapState : Type :=
  (value * value * list string * list errmsg)%type.

Definition assignStructFromMapBody (a : assigner)
  (targetKey sourceKey : metaKey) (sourceVal : value) (sourceTypeKey : type)
  (nf : string * fieldInfo) (st : fromMapState) : M fromMapState :=
  let targetField := snd nf in
  let '(root, mapKey, unusedMapKeys, errors) := st in
  let name := Some (VString (actualName targetField)) in
  '(k, err) <-
     match rev a with
     | Rev1 =>
         weakAssign a false (VPtr sourceTypeKey (Some (Zero sourceTypeKey)))
           name
     | Rev2 => weakAssign a true mapKey name
     end ;;
  let mapKey := match rev a with Rev1 => mapKey | Rev2 => k end in
  match err with
  | Some e => ret (root, mapKey, unusedMapKeys, appendErrors errors e)
  | None =>
      let targetFieldKey :=
        newChild targetKey reflect.Struct (displayName targetField) in
      match match rev a with
            | Rev1 => Indirect (Some k)
            | Rev2 => Some k
            end with
      | None => panic
      | Some key =>
          match MapIndex sourceVal key with
          | None =>
              addMetaUnset targetFieldKey ;;;
              ret (root, mapKey, unusedMapKeys, errors)
          | Some value =>
              let sourceFieldKey :=
                newChild sourceKey reflect.Map (actualName targetField) in
              skip <- shouldSkipKey a targetFieldKey sourceFieldKey ;;
              if skip then ret (root, mapKey, unusedMapKeys, errors)
              else if negb (fieldCanSet targetField) then
                addMetaUnset targetFieldKey ;;;
                ret (root, mapKey, unusedMapKeys, errors)
              else
                let unusedMapKeys :=
                  deleteKey (actualName targetField) unusedMapKeys in
                '(x, err) <- e_assign E a true (live root targetField)
                               targetFieldKey (pass a value) sourceFieldKey ;;
                ret (set_at root (fieldLoc targetField) x, mapKey,
                     unusedMapKeys, addError errors err)
          end
      end
  end.

Definition map_keys (m : value) : list value :=
  match m with
  | VMap _ _ (Some l) => map fst l
  | _ => []
  end.

Definition assignStructFromMap (a : assigner) (canSet : bool)
  (targetVal : value) (targetKey : metaKey) (sourceVal : value)
  (sourceKey : metaKey) : M result :=
  match typeOf sourceVal with
  | TMap sourceTypeKey _ =>
      let kind := type_kind sourceTypeKey in
      if negb (reflect.kind_eqb kind reflect.String)
         && negb (reflect.kind_eqb kind reflect.Interface)
      then fail targetVal (ErrorNew (MsgKeyType targetKey kind))
      else
        let unusedMapKeys :=
          fold_left (fun acc k => addKey (ValueString k) acc)
            (RangeOrder rt (map_keys sourceVal)) [] in
        '(root, targetFields) <- flattenTarget a canSet targetVal ;;
        '(root, _, unusedMapKeys, errors) <-
           forEach (assignStructFromMapBody a targetKey sourceKey sourceVal
                      sourceTypeKey)
             (RangeOrder rt targetFields)
             (root, Zero sourceTypeKey, unusedMapKeys, []) ;;
        addMetaUnusedAll sourceKey reflect.Map (RangeOrder rt unusedMapKeys) ;;;
        ret (root, errorsResult errors)
  | _ => panic
  end.

Fixpoint lookupField (fields : list (string * fieldInfo)) (n : string)
  : option fieldInfo :=
  match fields with
  | [] => None
  | (k, fi) :: r => if String.eqb k n then Some fi else lookupField r n
  end.

Definition deleteField (n : string) (fields : list (string * fieldInfo))
  : list (string * fieldInfo) :=
  filter (fun p => negb (String.eqb (fst p) n)) fields.

(** The state of the loop of [assignStructFromStruct]: the target struct,
    the source fields not consumed yet and the errors. *)
Definition fromStructState : Type :=
  (value * list (string * fieldInfo) * list errmsg)%type.

Definition assignStructFromStructBody (a : assigner)
  (targetKey sourceKey : metaKey) (nf : string * fieldInfo)
  (st : fromStructState) : M fromStructState :=
  let '(tfieldName, targetField) := nf in
  let '(root, sourceFields, errors) := st in
  let targetFieldKey :=
    newChild targetKey reflect.Struct (displayName targetField) in
  match lookupField sourceFields tfieldName with
  | None =>
      addMetaUnset targetFieldKey ;;;
      ret (root, sourceFields, errors)
  | Some sourceField =>
      let sourceFieldKey :=
        newChild sourceKey reflect.Struct (displayName sourceField) in
      skip <- shouldSkipKey a targetFieldKey sourceFieldKey ;;
      if skip then ret (root, sourceFields, errors)
      else if negb (fieldCanSet targetField) then
        addMetaUnset targetFieldKey ;;;
        ret (root, sourceFields, errors)
      else
        let sourceFields := deleteField tfieldName sourceFields in
        '(x, err) <- e_assign E a true (live root targetField)
                       targetFieldKey (pass a (fieldVal sourceField))
                       sourceFieldKey ;;
        ret (set_at root (fieldLoc targetField) x, sourceFields,
             addError errors err)
  end.

Definition assignStructFromStruct (a : assigner) (canSet : bool)
  (targetVal : value) (targetKey : metaKey) (sourceVal : value)
  (sourceKey : metaKey) : M result :=
  '(root, targetFields) <- flattenTarget a canSet targetVal ;;
  sourceFields <- flattenSource a sourceVal ;;
  '(root, sourceFields, errors) <-
     forEach (assignStructFromStructBody a targetKey sourceKey)
       (RangeOrder rt targetFields) (root, sourceFields, []) ;;
  addMetaUnusedAll sourceKey reflect.Struct
    (RangeOrder rt (map fst sourceFields)) ;;;
  ret (root, errorsResult errors).

Definition assignStruct (a : assigner) (canSet : bool) (targetVal : value)
  (targetKey : metaKey) (source : option value) (sourceKey : metaKey)
  : M result :=
  let sourceVal := Indirect source in
  match sourceVal with
  | Some sv =>
      match value_kind sv with
      | reflect.Map =>
          assignStructFromMap a canSet targetVal targetKey sv sourceKey
      | reflect.Struct =>
          assignStructFromStruct a canSet targetVal targetKey sv sourceKey
      | k => fail targetVal (ErrorNew (MsgExpectedMap targetKey k))
      end
  | None => fail targetVal (ErrorNew (MsgExpectedMap targetKey reflect.Invalid))
  end.

(** The switch of [assign] on the kind of the target: the handler's result
    and whether the caller is to record the key; [None] for the default
    case. *)
Definition dispatch (a : assigner) (canSet : bool) (targetVal : value)
  (targetKey : metaKey) (source : option value) (sourceKey : metaKey)
  : option (M (bool * result)) :=
  let plain (h : handler) : option (M (bool * result)) :=
    Some (r <- h a canSet targetVal targetKey source sourceKey ;; ret (true, r)) in
  let targetKind :=
    match rev a with
    | Rev1 => getKind targetVal
    | Rev2 =>
        let k := value_kind targetVal in
        if isInt k then reflect.Int
        else if isUint k || reflect.kind_eqb k reflect.Uintptr then reflect.Uint
        else if isFloat k then reflect.Float32
        else k
    end in
  match targetKind with
  | reflect.Bool => plain assignBool
  | reflect.Interface => plain assignBasic
  | reflect.String => plain assignString
  | reflect.Int => plain assignInt
  | reflect.Uint => plain assignUint
  | reflect.Float32 => plain assignFloat
  | reflect.Struct => plain assignStruct
  | reflect.Map => plain assignMap
  | reflect.Pointer =>
      Some (assignPtr a canSet targetVal targetKey source sourceKey)
  | reflect.Slice => plain assignSlice
  | reflect.Array => plain assignArray
  | reflect.Func => plain assignFunc
  | _ => None
  end.

(** [assign]: decode [source] into the slot holding [targetVal]. *)
Definition assign : handler :=
  fun a canSet targetVal targetKey source sourceKey =>
  skip <- shouldSkipKey a targetKey sourceKey ;;
  if skip then ret (targetVal, None)
  else
    (* a typed nil pointer counts as no source *)
    let source :=
      match source with
      | Some (VPtr _ None) => None
      | _ => source
      end in
    match source with
    | None => ret (targetVal, None)
    | Some sourceVal =>
        if SkipSameValues (config a)
           && DeepEqual rt (Interface_ targetVal) (Interface_ sourceVal)
        then
          addMetaUnused sourceKey ;;;
          addMetaUnset targetKey ;;;
          ret (targetVal, None)
        else
          let source :=
            match rev a with
            | Rev1 => source
            | Rev2 => match sourceVal with VIface x => x | _ => source end
            end in
          match dispatch a canSet targetVal targetKey source sourceKey with
          | None =>
              fail targetVal
                (ErrorNew (MsgUnsupportedType targetKey (value_kind targetVal)))
          | Some h =>
              '(addKey, (t, err)) <- h ;;
              (if addKey && match rev a with
                            | Rev1 => true
                            | Rev2 => is_none err
                            end
               then addMetaKey targetKey
               else ret tt) ;;;
              ret (t, err)
          end
    end.

End Handlers.

(** The engine unfolded [fuel] levels deep. *)
Fixpoint eng (fuel : nat) : engine :=
  match fuel with
  | O => {| e_assign := fun _ _ _ _ _ _ => out_of_fuel;
            e_assignSlice := fun _ _ _ _ _ _ => out_of_fuel;
            e_assignArray := fun _ _ _ _ _ _ => out_of_fuel;
            e_assignMapFromStruct := fun _ _ _ _ _ _ => out_of_fuel |}
  | S n => {| e_assign := assign (eng n);
              e_assignSlice := assignSlice (eng n);
              e_assignArray := assignArray (eng n);
              e_assignMapFromStruct := assignMapFromStruct (eng n) |}
  end.

(** [withConfig]: the overrides applied to a copy of the configuration. *)
Definition withConfig (a : assigner)
  (configs : list (AssignConfig -> AssignConfig)) : assigner :=
  let config := fold_left (fun c fn => fn c) configs (config a) in
  newAssigner (rev a) config.

(** [(a *assigner) Assign]: the value [target] holds afterwards, the error
    and the metadata sink. *)
Definition Assign (fuel : nat) (a : assigner) (target source : option value)
  (configs : list (AssignConfig -> AssignConfig))
  : outcome (option value * option error * Sink) :=
  match target with
  | Some (VPtr e p) =>
      match p with
      | None =>
          Done (target, Some (ErrorNew MsgTargetNotAddressable),
                Metadata_ (config a))
      | Some targetVal =>
          let as_ := match configs with
                     | [] => a
                     | _ => withConfig a configs
                     end in
          match e_assign (eng fuel) as_ true targetVal "" source ""
                  (Metadata_ (config as_)) with
          | Done ((t, err), s) => Done (Some (VPtr e (Some t)), err, s)
          | Panic => Panic
          | OutOfFuel => OutOfFuel
          end
      end
  | _ =>
      Done (target, Some (ErrorNew MsgTargetNotPointer), Metadata_ (config a))
  end.

End Engine.

(** ** A run-time to evaluate the engine with

    Decimal integers, truncating float conversions that wrap in two's
    complement, structural equality for DeepEqual, and maps enumerated in
    the order of their association lists. *)

Definition lowerFirst (s : string) : string :=
  match s with
  | EmptyString => EmptyString
  | String.String c r =>
      let n := nat_of_ascii c in
      String.String (if (65 <=? n)%nat && (n <=? 90)%nat
                     then ascii_of_nat (n + 32) else c) r
  end.

Definition parseDecimal (s : string) (bits : Z) (signed : bool)
  : Z + string :=
  match NilZero.int_of_string s with
  | Some d =>
      let z := Z.of_int d in
      let lo := if signed then - 2 ^ (bits - 1) else 0 in
      let hi := if signed then 2 ^ (bits - 1) else 2 ^ bits in
      if (lo <=? z) && (z <? hi) then inl z else inr "value out of range"
  | None => inr "invalid syntax"
  end.

Definition truncFloat (f : spec_float) : Z :=
  match f with
  | S754_finite s m e =>
      let n := if 0 <=? e then Z.pos m * 2 ^ e else Z.pos m / 2 ^ (- e) in
      if s then - n else n
  | S754_zero _ => 0
  | _ => 2 ^ 63
  end.

Definition sprintValue (x : option value) : string :=
  match x with
  | Some (VString s) => s
  | Some (VNumber s) => s
  | Some (VInt _ i) => FormatInt i
  | Some (VUint _ u) => FormatInt u
  | Some (VBool true) => "true"
  | Some (VBool false) => "false"
  | None => "<nil>"
  | _ => "?"
  end.

Definition typeString (t : type) : string :=
  match t with
  | TAny => "interface {}"
  | TString => "string"
  | TBool => "bool"
  | _ => "T"
  end.

Definition deepEqual (x y : option value) : bool :=
  match x, y with
  | None, None => true
  | Some u, Some v => value_eqb u v
  | _, _ => false
  end.

Definition sampleRuntime : GoRuntime :=
  {| toLowerCamel := lowerFirst;
     ParseInt := fun s _ bits => parseDecimal s bits true;
     ParseUint := fun s _ bits => parseDecimal s bits false;
     ParseFloat := fun _ _ => inr "invalid syntax";
     FormatFloat := fun _ => "";
     FloatToInt64 := fun f => wrapS 64 (truncFloat f);
     FloatToUint64 := fun f => wrapU 64 (truncFloat f);
     IntToFloat := fun z => binary_normalize 53 1024 z 0 false;
     RoundFloat32 := fun f => f;
     Sprint := sprintValue;
     TypeString := typeString;
     DeepEqual := deepEqual;
     RangeOrder := fun _ l => l;
     RangeOrder_perm := fun _ l => Permutation_refl l |}.

(** * Vocabulary of the properties *)

Unset Implicit Arguments.

(** ** Recording in the metadata *)

(** The sink after [addMetaUnused sk] and [addMetaUnset tk]. *)
Definition recordSkip (tk sk : metaKey) (s : Sink) : Sink :=
  match s with
  | Some m => Some {| Keys := Keys m; Unused := Unused m ++ [sk];
                      Unset := Unset m ++ [tk] |}
  | None => None
  end.

(** The sink after [addMetaKey tk]. *)
Definition recordKey (tk : metaKey) (s : Sink) : Sink :=
  match s with
  | Some m => if IsEmpty tk then s
              else Some {| Keys := Keys m ++ [tk]; Unused := Unused m;
                           Unset := Unset m |}
  | None => None
  end.

(** The source as the nil test of [assignPtr] sees it: the rewrite has
    unwrapped an interface by then. *)
Definition unwrapped (a : assigner) (source : option value) : option value :=
  match rev a with
  | Rev1 => source
  | Rev2 => match source with Some (VIface x) => x | _ => source end
  end.

(** ** The children of a record, mapping or sequence *)

(** What happened to one child of a record, mapping or sequence. *)
Inductive childOutcome : Type :=
| ChildSkipped                    (* skip path, no source entry, or not settable *)
| ChildKeyFailed (e : error)      (* its key could not be converted *)
| ChildStepped (y : value) (err : option error).
                                  (* [assign] ran on it and returned [y], [err] *)

(** The messages a child adds to the errors of its parent. *)
Definition childMessages (o : childOutcome) : list errmsg :=
  match o with
  | ChildSkipped => []
  | ChildKeyFailed e => messages e
  | ChildStepped _ (Some e) => messages e
  | ChildStepped _ None => []
  end.


Section StepRelations.

Variable rt : GoRuntime.
Variable E : engine.
Variable a : assigner.
Variables targetKey sourceKey : metaKey.



(** One round of the loop of [assignMapFromMap]. *)
Definition mapStep (kT eT : type) (sourceVal : value) (srcKey : value)
  (st : list (value * value) * list errmsg) (o : childOutcome)
  (st1 : list (value * value) * list errmsg) : Prop :=
  let kStr := Sprint rt (Interface_ srcKey) in
  match o with
  | ChildSkipped => st1 = st
  | ChildKeyFailed e =>
      (exists k s s',
          weakAssign rt E a true (Zero kT) (pass a srcKey) s
          = Done ((k, Some e), s'))
      /\ st1 = (fst st, snd st ++ childMessages o)
  | ChildStepped y err =>
      exists currentKey sourceElem,
        MapIndex sourceVal srcKey = Some sourceElem
        /\ (exists s s',
               weakAssign rt E a true (Zero kT) (pass a srcKey) s
               = Done ((currentKey, None), s'))
        /\ (exists s s',
               e_assign E a true (Zero eT)
                 (newChild targetKey reflect.Map kStr) (pass a sourceElem)
                 (newChild sourceKey reflect.Map kStr) s
               = Done ((y, err), s'))
        /\ st1 = (match err with
                  | None => assoc_set (fst st) currentKey y
                  | Some _ => fst st
                  end, snd st ++ childMessages o)
  end.

(** One round of the loop of [assignStructFromMap]; the key slot and the
    unused keys of the state are left aside. *)
Definition fromMapStep (sourceVal : value) (nf : string * fieldInfo)
  (st : fromMapState) (o : childOutcome) (st1 : fromMapState) : Prop :=
  let root := fst (fst (fst st)) in
  let root1 := fst (fst (fst st1)) in
  let targetField := snd nf in
  snd st1 = snd st ++ childMessages o
  /\ match o with
     | ChildSkipped => root1 = root
     | ChildKeyFailed e => root1 = root
     | ChildStepped y err =>
         exists value s s',
           e_assign E a true (live root targetField)
             (newChild targetKey reflect.Struct (displayName targetField))
             (pass a value)
             (newChild sourceKey reflect.Map (actualName targetField)) s
           = Done ((y, err), s')
           /\ root1 = set_at root (fieldLoc targetField) y
     end.

(** One round of the loop of [assignStructFromStruct]. *)
Definition fromStructStep (nf : string * fieldInfo) (st : fromStructState)
  (o : childOutcome) (st1 : fromStructState) : Prop :=
  let root := fst (fst st) in
  let root1 := fst (fst st1) in
  let targetField := snd nf in
  snd st1 = snd st ++ childMessages o
  /\ match o with
     | ChildSkipped => root1 = root
     | ChildKeyFailed e => False
     | ChildStepped y err =>
         exists sourceField s s',
           lookupField (snd (fst st)) (fst nf) = Some sourceField
           /\ e_assign E a true (live root targetField)
                (newChild targetKey reflect.Struct (displayName targetField))
                (pass a (fieldVal sourceField))
                (newChild sourceKey reflect.Struct (displayName sourceField)) s
              = Done ((y, err), s')
           /\ root1 = set_at root (fieldLoc targetField) y
     end.

End StepRelations.

(** The children of a sequence source. *)
Definition sequenceOf (source : option value) (src : list value) : Prop :=
  (exists e, Indirect source = Some (VArray e src))
  \/ (exists e, Indirect source = Some (VSlice e (Some src))).


(** ** Handlers that return *)

(** [m] returns: it neither panics nor runs out of fuel. *)
Definition returns {A : Type} (m : M A) : Prop :=
  forall s, exists r s', m s = Done (r, s').

(** The recursive calls of the handlers return. *)
Definition recursionReturns (E : engine) : Prop :=
  forall a canSet t tk src sk, returns (e_assign E a canSet t tk src sk).

(** ** The flattener *)

(** The field passes the three filters at the head of the loop body: it is
    exported, its tag does not skip it, and it is not omitted as empty. *)
Definition kept (a : assigner) (fd : StructField) (v : value) : bool :=
  IsExported fd
  && negb (snd (parseTag a fd))
  && negb (snd (fst (parseTag a fd)) && IsZero v).

(** The value of the field once the pointer of an embedded pointer to a
    struct has been followed. *)
Definition peel (fd : StructField) (v : value) : value :=
  if Anonymous fd then
    match v with
    | VPtr (TStruct n fs) None => Zero (TStruct n fs)
    | VPtr (TStruct _ _) (Some x) => x
    | _ => v
    end
  else v.

(** The field is embedded and stands for a struct, whose fields are
    flattened in its place. *)
Definition squashed (fd : StructField) (v : value) : bool :=
  Anonymous fd && reflect.kind_eqb (value_kind (peel fd v)) reflect.Struct.

(** The location, the settability and the struct after the loop body has
    looked at field [i] of [it], and the entry it captures. *)
Definition slotOf (it : structItem) (i : nat) (fd : StructField) (v : value)
  : option path :=
  let fLoc := extend (sLoc it) [SField i] in
  if Anonymous fd then
    match v with
    | VPtr (TStruct _ _) None =>
        if sCanSet it then extend fLoc [SDeref] else None
    | VPtr (TStruct _ _) (Some _) => extend fLoc [SDeref]
    | _ => fLoc
    end
  else fLoc.

Definition canSetOf (it : structItem) (fd : StructField) (v : value) : bool :=
  if Anonymous fd then
    match v with
    | VPtr (TStruct _ _) _ => true
    | _ => sCanSet it
    end
  else sCanSet it.

Definition initOf (it : structItem) (i : nat) (fd : StructField) (v : value)
  (root : value) : value :=
  if Anonymous fd then
    match v with
    | VPtr (TStruct n fs) None =>
        if sCanSet it
        then set_at root (extend (sLoc it) [SField i])
               (VPtr (TStruct n fs) (Some (Zero (TStruct n fs))))
        else root
    | _ => root
    end
  else root.

Definition entryOf (a : assigner) (it : structItem) (i : nat)
  (fd : StructField) (v : value) : fieldInfo :=
  {| field := fd; fieldVal := peel fd v; fieldLoc := slotOf it i fd v;
     fieldCanSet := canSetOf it fd v; displayName := Name fd;
     actualName := fst (fst (parseTag a fd));
     omitempty := snd (fst (parseTag a fd)) |}.

(** A pointer to a struct type holds a struct, in the struct and in the
    structs embedded in it: what the type system of Go guarantees for the
    values the flattener follows. *)
Fixpoint typed (v : value) : bool :=
  match v with
  | VStruct _ fs => forallb (fun p => typed (snd p)) fs
  | VPtr (TStruct _ _) (Some x) =>
      reflect.kind_eqb (value_kind x) reflect.Struct && typed x
  | _ => true
  end.

(** The invariant of the loop of the flattener: [R] holds of the struct,
    [J] of the structs in the queue and [F] of the fields captured. *)
Definition flatInv (J : structItem -> Prop) (F : string * fieldInfo -> Prop)
  (R : value -> Prop) (st : flatState) : Prop :=
  R (fst (fst st)) /\ Forall J (snd (fst st)) /\ Forall F (snd st).

(** What holds of a flattened field. *)
Definition entryFacts (a : assigner) (nf : string * fieldInfo) : Prop :=
  let fi := snd nf in
  fst nf = Name (field fi)
  /\ displayName fi = Name (field fi)
  /\ IsExported (field fi) = true
  /\ parseTag a (field fi) = (actualName fi, omitempty fi, false)
  /\ squashed (field fi) (fieldVal fi) = false
  /\ (omitempty fi = true -> IsZero (fieldVal fi) = false).

(** The structs that the fields [fs] of [it], counted from [i], add to the
    queue. *)
Fixpoint childItems (a : assigner) (it : structItem)
  (fs : list (StructField * value)) (i : nat) : list structItem :=
  match fs with
  | [] => []
  | (fd, v) :: r =>
      (if kept a fd v && squashed fd v
       then [mkItem (peel fd v) (slotOf it i fd v) (canSetOf it fd v)]
       else [])
      ++ childItems a it r (S i)
  end.

(** The weight of the queue, which the fuel of the loop bounds. *)
Definition queueWeight (structs : list structItem) : nat :=
  list_sum (map (fun it => vweight (sVal it)) structs).

(** The struct while the fields of the struct itself are looked at: the
    fields from [i0] on are as they were, and the nil embedded pointer at
    [i], once passed, is set. *)
Definition firstPass (name : string) (fs : list (StructField * value))
  (i : nat) (fd : StructField) (e : type) (i0 : nat) (root : value) : Prop :=
  exists cur,
    root = VStruct name cur
    /\ (forall k, (i0 <= k)%nat -> nth_error cur k = nth_error fs k)
    /\ ((i < i0)%nat ->
        nth_error cur i = Some (fd, VPtr e (Some (Zero e)))).

(** ** Unexported fields *)

(** The embedded field [fd] holding [y] stands for the struct [ys], found
    at the path [q] below the field. *)
Inductive holds : StructField -> value -> path -> value -> Prop :=
| holds_struct fd n fs :
    Anonymous fd = true ->
    holds fd (VStruct n fs) [] (VStruct n fs)
| holds_ptr fd tn tfs n fs :
    Anonymous fd = true ->
    holds fd (VPtr (TStruct tn tfs) (Some (VStruct n fs))) [SDeref]
      (VStruct n fs).

(** [keeps v w]: the struct [w] has the fields of the struct [v], its
    unexported fields hold what they hold in [v], and so do, in turn, the
    unexported fields of the structs embedded in [v]. *)
Inductive keeps : value -> value -> Prop :=
| keeps_same v : keeps v v
| keeps_struct n fs fs' :
    List.length fs' = List.length fs ->
    (forall k fd y, nth_error fs k = Some (fd, y) ->
       exists y',
         nth_error fs' k = Some (fd, y')
         /\ (IsExported fd = false -> y' = y)
         /\ (forall q ys, holds fd y q ys ->
               exists ys', get_path y' q = Some ys' /\ keeps ys ys')) ->
    keeps (VStruct n fs) (VStruct n fs').

(** The locations of a struct that lie in or below an exported field which
    is not an embedded struct, in the struct itself or in a struct embedded
    in it through exported fields. *)
Inductive publicLoc : value -> path -> Prop :=
| publicLoc_here n fs k fd y r :
    nth_error fs k = Some (fd, y) -> IsExported fd = true ->
    (forall q ys, ~ holds fd y q ys) ->
    publicLoc (VStruct n fs) (SField k :: r)
| publicLoc_below n fs k fd y q ys r :
    nth_error fs k = Some (fd, y) -> IsExported fd = true ->
    holds fd y q ys -> publicLoc ys r ->
    publicLoc (VStruct n fs) (SField k :: q ++ r).

(** The queue holds structs whose public locations are public locations
    of the struct being flattened; a flattened field lies at one. *)
Definition publicItem (val : value) (it : structItem) : Prop :=
  forall p, sLoc it = Some p ->
            forall r, publicLoc (sVal it) r -> publicLoc val (p ++ r).

Definition publicEntry (val : value) (nf : string * fieldInfo) : Prop :=
  IsExported (field (snd nf)) = true
  /\ forall p, fieldLoc (snd nf) = Some p -> publicLoc val p.

(** The key [q] is what the name of the flattened field [fi] converts to
    in a map with keys of type [kT]. *)
Definition emits (rt : GoRuntime) (E : engine) (a : assigner) (kT : type)
  (fi : fieldInfo) (q : value) : Prop :=
  exists s0 s1 kerr,
    weakAssign rt E a true (Zero kT) (Some (VString (actualName fi))) s0
    = Done ((q, kerr), s1).

(** ** Statements of the specification that the code does not satisfy *)




(** The claim as it stands: the exported, untagged fields of every
    embedded struct have their names in the flattened set. *)
Definition embedded_fields_promoted : Prop :=
  forall (a : assigner) (canSet : bool) (name : string)
         (fs : list (StructField * value)) (root : value)
         (fields : list (string * fieldInfo)) (i : nat) (fd : StructField)
         (n' : string) (fs' : list (StructField * value)) (j : nat)
         (fd' : StructField) (v' : value),
    flattenStruct a canSet (VStruct name fs) = Some (root, fields) ->
    nth_error fs i = Some (fd, VStruct n' fs') ->
    Anonymous fd = true -> Tag fd = [] ->
    nth_error fs' j = Some (fd', v') ->
    IsExported fd' = true -> Anonymous fd' = false -> Tag fd' = [] ->
    fields_has fields (Name fd') = true.

(** ** Sample inputs *)

(** T{Vstring: "keep", Vptr: &"set"} and a map with one element. *)
Definition nilDemoTarget : value :=
  VStruct "T" [(mkField "Vstring" "" [] false, VString "keep");
               (mkField "Vptr" "" [] false, VPtr TString (Some (VString "set")))].

Definition nilDemoSource (x : option value) (k : string) : value :=
  VMap TString TAny (Some [(VString k, VIface x)]).

(** Configurations with a metadata sink, with and without a skip path. *)
Definition skipDemoConfig : AssignConfig :=
  {| WeaklyTypedInput := false; TagName := "json";
     IncludeIgnoreFields := false; Converter := lowerFirst;
     Metadata_ := Some (mkMetadata [] [] []);
     SkipKeys := ["Vbar"]; SkipSameValues := false |}.

Definition keysDemoConfig : AssignConfig :=
  {| WeaklyTypedInput := false; TagName := "json";
     IncludeIgnoreFields := false; Converter := lowerFirst;
     Metadata_ := Some (mkMetadata [] [] []);
     SkipKeys := []; SkipSameValues := false |}.


(** map[string]string{"b": "bar"} and the entries of
    map[string]any{"a": "foo"} *)
Definition mergeDemoTarget : value :=
  VMap TString TString (Some [(VString "b", VString "bar")]).


(** An exported field without a tag. *)
Definition plainField (n : string) : StructField :=
  {| Name := n; PkgPath := ""; Tag := []; Anonymous := false |}.

(** type Base struct { ID int; Name string }
    type T struct { Name string; Base; Age int `json:"age,omitempty"` } *)
Definition flatDemo : list (StructField * value) :=
  [(plainField "Name", VString "top");
   ({| Name := "Base"; PkgPath := ""; Tag := []; Anonymous := true |},
    VStruct "Base" [(plainField "ID", VInt KInt 7);
                    (plainField "Name", VString "inner")]);
   ({| Name := "Age"; PkgPath := ""; Tag := [("json", "age,omitempty")];
       Anonymous := false |}, VInt KInt 0)].

(** T{Name: "old", secret: "hidden"} and
    map[string]any{"name": "new", "secret": "leak"} *)
Definition privDemo : list (StructField * value) :=
  [(plainField "Name", VString "old");
   ({| Name := "secret"; PkgPath := "main"; Tag := []; Anonymous := false |},
    VString "hidden")].

Definition privSource : value :=
  VMap TString TAny (Some [(VString "name", VIface (Some (VString "new")));
                           (VString "secret", VIface (Some (VString "leak")))]).

(** ** Scalars, paths and metadata lists *)

(** The connector [genFullKey] puts between a parent path and a child name:
    brackets under a map, an array or a slice, a dot elsewhere. *)
Definition childSuffix (parentKind : reflect.Kind) (name : string) : string :=
  match parentKind with
  | reflect.Map | reflect.Array | reflect.Slice => "[" ++ name ++ "]"
  | _ => "." ++ name
  end.

(** A piece of a tag holds no comma. *)
Fixpoint commaFree (p : string) : bool :=
  match p with
  | EmptyString => true
  | String.String c r => negb (Ascii.eqb c ","%char) && commaFree r
  end.

(** The float a target of kind [kf] holds after [SetFloat f]. *)
Definition floatAs (rt : GoRuntime) (kf : FloatKind) (f : spec_float)
  : spec_float :=
  match kf with
  | KFloat32 => RoundFloat32 rt f
  | KFloat64 => f
  end.

(** The handlers of the scalar kinds, as [assign] calls them. *)
Inductive scalarHandler (rt : GoRuntime) : handler -> Prop :=
| scalar_bool : scalarHandler rt assignBool
| scalar_string : scalarHandler rt (assignString rt)
| scalar_int : scalarHandler rt (assignInt rt)
| scalar_uint : scalarHandler rt (assignUint rt)
| scalar_float : scalarHandler rt (assignFloat rt)
| scalar_func : scalarHandler rt assignFunc.

(** A configuration that skips the sources equal to their target. *)
Definition sameDemoConfig : AssignConfig :=
  {| WeaklyTypedInput := false; TagName := "json";
     IncludeIgnoreFields := false; Converter := lowerFirst;
     Metadata_ := Some (mkMetadata [] [] []);
     SkipKeys := []; SkipSameValues := true |}.

(** [copies rt r old new]: [new] is a scalar of the type of [old] that the
    target can hold as it is. *)
Inductive copies (rt : GoRuntime) (r : revision) : value -> value -> Prop :=
| copies_bool (b0 b : bool) : copies rt r (VBool b0) (VBool b)
| copies_string (s0 s : string) : copies rt r (VString s0) (VString s)
| copies_int (k : IntKind) (i0 i : Z) :
    - 2 ^ (int_bits k - 1) <= i < 2 ^ (int_bits k - 1) ->
    copies rt r (VInt k i0) (VInt k i)
| copies_uint (k : UintKind) (u0 u : Z) :
    k <> KUintptr -> 0 <= u < 2 ^ uint_bits k ->
    copies rt r (VUint k u0) (VUint k u)
| copies_float (k : FloatKind) (f0 f : spec_float) :
    (r = Rev2 -> float_nan_or_inf f = false) -> floatAs rt k f = f ->
    copies rt r (VFloat k f0) (VFloat k f).

(** The engine [E] with another function in the place of the recursive
    [assignMapFromStruct]. *)
Definition withNested (E : engine)
  (h : assigner -> bool -> value -> metaKey -> value -> metaKey -> M result)
  : engine :=
  {| e_assign := e_assign E; e_assignSlice := e_assignSlice E;
     e_assignArray := e_assignArray E; e_assignMapFromStruct := h |}.

(** [grows s s']: the sink [s'] holds what [s] held, with entries added at
    the end of its three lists; without a sink there is none afterwards. *)
Definition grows (s s' : Sink) : Prop :=
  match s, s' with
  | None, None => True
  | Some m, Some m' =>
      (exists l, Keys m' = Keys m ++ l)
      /\ (exists l, Unused m' = Unused m ++ l)
      /\ (exists l, Unset m' = Unset m ++ l)
  | _, _ => False
  end.

(** [m] only appends to the metadata. *)
Definition appendOnly {A : Type} (m : M A) : Prop :=
  forall s r s', m s = Done (r, s') -> grows s s'.

(** The recursive calls only append to the metadata. *)
Definition engineAppendOnly (E : engine) : Prop :=
  (forall a c t tk src sk, appendOnly (e_assign E a c t tk src sk))
  /\ (forall a c t tk src sk, appendOnly (e_assignSlice E a c t tk src sk))
  /\ (forall a c t tk src sk, appendOnly (e_assignArray E a c t tk src sk))
  /\ (forall a c t tk sv sk, appendOnly (e_assignMapFromStruct E a c t tk sv sk)).

(** T{Name: "old", Age: 3}, map[string]any{"name": "new", "extra": 1} and
    S{Name: "new", Extra: 1} *)
Definition partDemoTarget : value :=
  VStruct "T" [(plainField "Name", VString "old");
               (plainField "Age", VInt KInt 3)].

Definition partDemoEntries : list (value * value) :=
  [(VString "name", VIface (Some (VString "new")));
   (VString "extra", VIface (Some (VInt KInt 1)))].

Definition partDemoStruct : value :=
  VStruct "S" [(plainField "Name", VString "new");
               (plainField "Extra", VInt KInt 1)].

(** No skip path is configured. *)
Definition noSkips (a : assigner) : Prop :=
  SkipKeys (config a) = [] /\ skipKeysCache a = [].

(** The dynamic value of a map element. *)
Definition dynamic (el : value) : value :=
  match el with
  | VIface (Some x) => x
  | _ => el
  end.

(** The field after a map was decoded into the struct: a kept field whose
    name is a key of the map holds the element under that key. *)
Definition decodedField (a : assigner) (entries : list (value * value))
  (p : StructField * value) : StructField * value :=
  if kept a (fst p) (snd p) then
    match assoc entries (VString (fst (fst (parseTag a (fst p))))) with
    | Some el => (fst p, dynamic el)
    | None => p
    end
  else p.

(** The flattened fields of a struct without embedded fields: its kept
    fields, in the order of their declaration. *)
Fixpoint plainEntries (a : assigner) (it : structItem)
  (fs : list (StructField * value)) (i : nat) : list (string * fieldInfo) :=
  match fs with
  | [] => []
  | (fd, v) :: r =>
      (if kept a fd v then [(Name fd, entryOf a it i fd v)] else [])
      ++ plainEntries a it r (S i)
  end.

(** * Properties *)

(** ** Auxiliary facts *)

Lemma kind_eqb_eq (a b : reflect.Kind) : reflect.kind_eqb a b = true <-> a = b.
Proof.
  unfold reflect.kind_eqb; rewrite Z.eqb_eq; split; [|intros ->; reflexivity].
  destruct a, b; simpl; intros H; try reflexivity; discriminate H.
Qed.

Lemma value_eqb_eq (a b : value) : value_eqb a b = true <-> a = b.
Proof.
  unfold value_eqb; destruct (value_eq_dec a b); split; intros H;
    try reflexivity; try assumption; try discriminate; contradiction.
Qed.

Lemma value_eqb_refl (a : value) : value_eqb a a = true.
Proof. apply value_eqb_eq; reflexivity. Qed.

Lemma value_eqb_neq (a b : value) : value_eqb a b = false <-> a <> b.
Proof.
  unfold value_eqb; destruct (value_eq_dec a b); split; intros H;
    try reflexivity; try assumption; try discriminate; contradiction.
Qed.

Lemma type_eqb_refl (t : type) : type_eqb t t = true.
Proof. unfold type_eqb; destruct (type_eq_dec t t); congruence. Qed.

Lemma wrapU_64_bits (ku : UintKind) (x : Z) :
  wrapU (uint_bits ku) (wrapU 64 x) = wrapU (uint_bits ku) x.
Proof.
  unfold wrapU. apply Z.mod_mod_divide.
  destruct ku; simpl;
      [ exists 1 | exists (2 ^ 56) | exists (2 ^ 48) | exists (2 ^ 32)
      | exists 1 | exists 1 ]; reflexivity.
Qed.


(** A handler that ends in [Done] went through [Done] at each bind. *)
Lemma bind_Done {A B : Type} (m : M A) (f : A -> M B) (s : Sink) (r : B * Sink) :
  bind m f s = Done r ->
  exists a s1, m s = Done (a, s1) /\ f a s1 = Done r.
Proof.
  unfold bind; destruct (m s) as [[a s1]| |]; intros H; try discriminate.
  exists a, s1; split; [reflexivity | assumption].
Qed.

Lemma bind_Done_eq {A B : Type} {m : M A} (f : A -> M B) {s s1 : Sink} {a : A} :
  m s = Done (a, s1) -> bind m f s = f a s1.
Proof. unfold bind; intros ->; reflexivity. Qed.

(** The invariant rule of [forEach]. *)
Lemma forEach_invariant {X St : Type} (body : X -> St -> M St)
  (I : St -> Sink -> Prop) (xs : list X) :
  (forall x st s st' s', In x xs -> I st s ->
     body x st s = Done (st', s') -> I st' s') ->
  forall st s st' s',
    I st s -> forEach body xs st s = Done (st', s') -> I st' s'.
Proof.
  induction xs as [|x r IH]; intros Hstep st s st' s' HI Hrun; simpl in Hrun.
  - unfold ret in Hrun; inversion Hrun; subst; assumption.
  - apply bind_Done in Hrun as (st1 & s1 & Hb & Hrest).
    apply (IH (fun y a b c d Hy => Hstep y a b c d (or_intror Hy)) st1 s1);
      [|assumption].
    apply (Hstep x st s); [left; reflexivity | assumption | assumption].
Qed.

(** *** Lists and paths *)

Lemma set_nth_length {A : Type} (l : list A) (i : nat) (x : A) :
  List.length (set_nth l i x) = List.length l.
Proof.
  revert i; induction l as [|y r IH]; intros [|i]; simpl; try reflexivity.
  rewrite IH; reflexivity.
Qed.

Lemma nth_error_set_nth_eq {A : Type} (l : list A) (i : nat) (x y : A) :
  nth_error l i = Some y -> nth_error (set_nth l i x) i = Some x.
Proof.
  revert i. induction l as [|z r IH]; intros [|i] H; try discriminate H.
  - reflexivity.
  - simpl. apply IH. exact H.
Qed.

Lemma nth_error_set_nth_neq {A : Type} (l : list A) (i j : nat) (x : A) :
  i <> j -> nth_error (set_nth l i x) j = nth_error l j.
Proof.
  revert i j. induction l as [|z r IH]; intros [|i] [|j] H; try reflexivity.
  - contradiction H; reflexivity.
  - simpl. apply IH. intros ->. apply H. reflexivity.
Qed.

Lemma get_path_app v p q :
  get_path v (p ++ q)
  = match get_path v p with Some w => get_path w q | None => None end.
Proof.
  revert v. induction p as [|[i|] r IH]; intros v; [reflexivity| |].
  - simpl. destruct v; try reflexivity.
    destruct (nth_error fs i) as [[f x]|]; [apply IH | reflexivity].
  - simpl. destruct v; try reflexivity. destruct p; [apply IH | reflexivity].
Qed.

Lemma set_path_field n fs k r x w :
  set_path (VStruct n fs) (SField k :: r) x = Some w ->
  exists f y y', nth_error fs k = Some (f, y) /\ set_path y r x = Some y'
                 /\ w = VStruct n (set_nth fs k (f, y')).
Proof.
  simpl. destruct (nth_error fs k) as [[f y]|]; [|discriminate].
  destruct (set_path y r x) as [y'|] eqn:Hy; [|discriminate].
  intros H; inversion H; subst. exists f, y, y'.
  split; [reflexivity|]. split; [exact Hy | reflexivity].
Qed.

(** ** The top-level entry point *)

(** C8. [Assign] returns an error at once, with the target and the
    metadata untouched, when the target is not a pointer or is a nil
    pointer (whose dereference is not addressable); on a pointer to a value
    it runs the recursive [assign] on the dereferenced, settable slot, with
    empty key paths, under the configuration with the overrides applied. *)
Theorem Assign_validates_target :
  forall (rt : GoRuntime) (fuel : nat) (a : assigner)
         (target source : option value)
         (configs : list (AssignConfig -> AssignConfig)),
    ((forall e p, target <> Some (VPtr e p)) ->
     Assign rt fuel a target source configs
     = Done (target, Some (ErrorNew MsgTargetNotPointer), Metadata_ (config a)))
    /\ (forall e, target = Some (VPtr e None) ->
        Assign rt fuel a target source configs
        = Done (target, Some (ErrorNew MsgTargetNotAddressable),
                Metadata_ (config a)))
    /\ (forall e targetVal, target = Some (VPtr e (Some targetVal)) ->
        let as_ := match configs with [] => a | _ => withConfig a configs end in
        Assign rt (S fuel) a target source configs
        = match assign rt (eng rt fuel) as_ true targetVal "" source ""
                  (Metadata_ (config as_)) with
          | Done ((t, err), s) => Done (Some (VPtr e (Some t)), err, s)
          | Panic => Panic
          | OutOfFuel => OutOfFuel
          end).
Proof.
  intros rt fuel a target source configs. split; [|split].
  - intros Hnp. unfold Assign.
    destruct target as [[]|]; try reflexivity.
    exfalso; eapply Hnp; reflexivity.
  - intros e ->. reflexivity.
  - intros e targetVal ->. reflexivity.
Qed.

Lemma Assign_validates_target_witness :
  Assign sampleRuntime 1 (defaultAssigner sampleRuntime Rev2)
    (Some (VString "not a pointer")) (Some (VString "x")) []
  = Done (Some (VString "not a pointer"), Some (ErrorNew MsgTargetNotPointer),
          None)
  /\ Assign sampleRuntime 1 (defaultAssigner sampleRuntime Rev2)
       (Some (VPtr TString None)) (Some (VString "x")) []
     = Done (Some (VPtr TString None), Some (ErrorNew MsgTargetNotAddressable),
             None)
  /\ Assign sampleRuntime 1 (defaultAssigner sampleRuntime Rev2)
       (Some (VPtr TString (Some (VString "old")))) (Some (VString "x")) []
     = Done (Some (VPtr TString (Some (VString "x"))), None, None).
Proof.
  split; [|split].
  - apply (proj1 (Assign_validates_target sampleRuntime 1
                    (defaultAssigner sampleRuntime Rev2)
                    (Some (VString "not a pointer")) (Some (VString "x")) [])).
    intros e p H; discriminate H.
  - apply (proj1 (proj2 (Assign_validates_target sampleRuntime 1
                           (defaultAssigner sampleRuntime Rev2)
                           (Some (VPtr TString None)) (Some (VString "x")) []))
             TString).
    reflexivity.
  - rewrite (proj2 (proj2 (Assign_validates_target sampleRuntime 0
                           (defaultAssigner sampleRuntime Rev2)
                           (Some (VPtr TString (Some (VString "old"))))
                           (Some (VString "x")) []))
               TString (VString "old") eq_refl).
    reflexivity.
Defined.

(** ** Unsigned targets *)

Lemma sourceKind_int (a : assigner) (ki : IntKind) (i : Z) :
  kindIsInt a (sourceKindOf a (Some (VInt ki i))) = true.
Proof. unfold kindIsInt, sourceKindOf; destruct (rev a), ki; reflexivity. Qed.

Lemma sourceKind_float (a : assigner) (kf : FloatKind) (f : spec_float) :
  kindIsInt a (sourceKindOf a (Some (VFloat kf f))) = false
  /\ kindIsUint a (sourceKindOf a (Some (VFloat kf f))) = false
  /\ kindIsFloat a (sourceKindOf a (Some (VFloat kf f))) = true.
Proof.
  unfold kindIsInt, kindIsUint, kindIsFloat, sourceKindOf;
    destruct (rev a), kf; repeat split; reflexivity.
Qed.



(** ** Absent sources *)

Lemma shouldSkipKey_sink (a : assigner) (tk sk : metaKey) (s : Sink) :
  exists b s', shouldSkipKey a tk sk s = Done (b, s').
Proof.
  unfold shouldSkipKey.
  destruct (String.eqb tk "" || String.eqb sk "")%bool; [eexists _, _; reflexivity|].
  destruct (rev a).
  - destruct (existsb _ _); [|eexists _, _; reflexivity].
    unfold addMetaUnused, addMetaUnset, bind, modify, ret.
    destruct (IsEmpty sk), (IsEmpty tk), s; eexists _, _; reflexivity.
  - destruct (existsb _ _); [eexists _, _; reflexivity|].
    destruct (existsb _ _); eexists _, _; reflexivity.
Qed.

(** On an absent source, a nil [any] or a typed nil pointer, [assign]
    returns nil and leaves the target as it is, in both revisions. *)
Lemma assign_absent_source (rt : GoRuntime) (E : engine) (a : assigner)
  (canSet : bool) (targetVal : value) (targetKey sourceKey : metaKey)
  (source : option value) (s : Sink) :
  source = None \/ (exists e, source = Some (VPtr e None)) ->
  exists s', assign rt E a canSet targetVal targetKey source sourceKey s
             = Done ((targetVal, None), s').
Proof.
  intros Habs. unfold assign.
  destruct (shouldSkipKey_sink a targetKey sourceKey s) as (b & s' & Hs).
  rewrite (bind_Done_eq _ Hs).
  destruct b; [exists s'; reflexivity|].
  destruct Habs as [->|[e ->]]; exists s'; reflexivity.
Qed.

(** C1, at the inputs on which the rewrite departs from it.  A map element
    reaches [assign] of the rewrite as a Value of kind Interface, and the
    test for an absent source comes before that interface is unwrapped: a
    nil element makes the decoding of a string field panic, and a typed nil
    pointer in the element erases a pointer field that was set.  The first
    revision leaves both fields as they were. *)
Theorem assign_nil_map_element_by_revision :
  Assign sampleRuntime 4 (defaultAssigner sampleRuntime Rev2)
    (Some (VPtr (typeOf nilDemoTarget) (Some nilDemoTarget)))
    (Some (nilDemoSource None "vstring")) []
  = Panic
  /\ Assign sampleRuntime 4 (defaultAssigner sampleRuntime Rev2)
       (Some (VPtr (typeOf nilDemoTarget) (Some nilDemoTarget)))
       (Some (nilDemoSource (Some (VPtr TString None)) "vptr")) []
     = Done (Some (VPtr (typeOf nilDemoTarget)
                     (Some (VStruct "T"
                              [(mkField "Vstring" "" [] false, VString "keep");
                               (mkField "Vptr" "" [] false, VPtr TString None)]))),
             None, None)
  /\ Assign sampleRuntime 4 (defaultAssigner sampleRuntime Rev1)
       (Some (VPtr (typeOf nilDemoTarget) (Some nilDemoTarget)))
       (Some (nilDemoSource None "vstring")) []
     = Done (Some (VPtr (typeOf nilDemoTarget) (Some nilDemoTarget)), None, None)
  /\ Assign sampleRuntime 4 (defaultAssigner sampleRuntime Rev1)
       (Some (VPtr (typeOf nilDemoTarget) (Some nilDemoTarget)))
       (Some (nilDemoSource (Some (VPtr TString None)) "vptr")) []
     = Done (Some (VPtr (typeOf nilDemoTarget) (Some nilDemoTarget)), None, None).
Proof. repeat split; vm_compute; reflexivity. Qed.

(** ** Skip paths *)

Lemma existsb_eqb_In (k : string) (l : list string) :
  existsb (String.eqb k) l = true <-> In k l.
Proof.
  rewrite existsb_exists; split.
  - intros (x & Hin & Heq). apply String.eqb_eq in Heq; subst; assumption.
  - intros Hin; exists k; split; [assumption | apply String.eqb_refl].
Qed.

(** In the first revision a step whose target or source path is a
    configured skip path writes nothing, returns nil and records the source
    path as unused and the target path as unset. *)
Lemma assign_skip_path_rev1 (rt : GoRuntime) (E : engine) (a : assigner)
  (canSet : bool) (targetVal : value) (tk sk : metaKey)
  (source : option value) (s : Sink) :
  rev a = Rev1 -> tk <> "" -> sk <> "" ->
  In tk (SkipKeys (config a)) \/ In sk (SkipKeys (config a)) ->
  assign rt E a canSet targetVal tk source sk s
  = Done ((targetVal, None), recordSkip tk sk s).
Proof.
  intros Hrev Htk Hsk Hin. unfold assign, shouldSkipKey.
  apply String.eqb_neq in Htk, Hsk. rewrite Htk, Hsk, Hrev. cbn [orb].
  assert (Hex : existsb (fun keyToSkip => (tk =? keyToSkip) || (sk =? keyToSkip))%string%bool
                  (SkipKeys (config a)) = true).
  { apply existsb_exists. destruct Hin as [H|H]; [exists tk | exists sk];
      (split; [assumption|]); rewrite String.eqb_refl;
      [reflexivity | apply orb_true_r]. }
  rewrite Hex. unfold addMetaUnused, addMetaUnset, IsEmpty.
  rewrite Htk, Hsk. unfold bind, modify, ret, recordSkip.
  destruct s; reflexivity.
Qed.

(** In the rewrite the same step writes nothing and returns nil, and
    leaves the metadata as it was. *)
Lemma assign_skip_path_rev2 (rt : GoRuntime) (E : engine) (a : assigner)
  (canSet : bool) (targetVal : value) (tk sk : metaKey)
  (source : option value) (s : Sink) :
  rev a = Rev2 -> tk <> "" -> sk <> "" ->
  In tk (skipKeysCache a) \/ In sk (skipKeysCache a) ->
  assign rt E a canSet targetVal tk source sk s = Done ((targetVal, None), s).
Proof.
  intros Hrev Htk Hsk Hin. unfold assign, shouldSkipKey.
  apply String.eqb_neq in Htk, Hsk. rewrite Htk, Hsk, Hrev. cbn [orb].
  destruct (existsb (String.eqb tk) (skipKeysCache a)) eqn:Ht; [reflexivity|].
  destruct Hin as [H|H].
  - apply existsb_eqb_In in H. congruence.
  - apply existsb_eqb_In in H. rewrite H. reflexivity.
Qed.

(** C7, evaluated in both revisions for the skip path "Vbar", the target
    path "Vbar" and the source path "vbar": neither revision writes and
    both return nil; the first revision records the source path as unused
    and the target path as unset, the rewrite records nothing. *)
Theorem assign_skip_path_by_revision :
  assign sampleRuntime (eng sampleRuntime 0) (newAssigner Rev1 skipDemoConfig)
    true (VString "old") "Vbar" (Some (VString "new")) "vbar"
    (Metadata_ skipDemoConfig)
  = Done ((VString "old", None),
          Some {| Keys := []; Unused := ["vbar"]; Unset := ["Vbar"] |})
  /\ assign sampleRuntime (eng sampleRuntime 0) (newAssigner Rev2 skipDemoConfig)
       true (VString "old") "Vbar" (Some (VString "new")) "vbar"
       (Metadata_ skipDemoConfig)
     = Done ((VString "old", None),
             Some {| Keys := []; Unused := []; Unset := [] |}).
Proof.
  split.
  - rewrite assign_skip_path_rev1; try reflexivity; try discriminate.
    left; left; reflexivity.
  - rewrite assign_skip_path_rev2; try reflexivity; try discriminate.
    left; left; reflexivity.
Qed.

(** ** Recording the target path *)

Lemma addMetaKey_run (tk : metaKey) (s : Sink) :
  addMetaKey tk s = Done (tt, recordKey tk s).
Proof.
  unfold addMetaKey, recordKey, modify, ret.
  destruct (IsEmpty tk), s; reflexivity.
Qed.







(** ** The flattener *)

Lemma flattenField_eq (a : assigner) (it : structItem) (i : nat)
  (fd : StructField) (v : value) (root : value) (structs : list structItem)
  (fields : list (string * fieldInfo)) :
  flattenField a it i (fd, v) (root, structs, fields)
  = if negb (kept a fd v) then (root, structs, fields)
    else if squashed fd v
         then (initOf it i fd v root,
               structs ++ [mkItem (peel fd v) (slotOf it i fd v)
                             (canSetOf it fd v)],
               fields)
         else if fields_has fields (Name fd) then (root, structs, fields)
              else (root, structs, fields ++ [(Name fd, entryOf a it i fd v)]).
Proof.
  unfold flattenField, entryOf, kept, squashed, peel, slotOf, canSetOf, initOf.
  destruct (IsExported fd); [|reflexivity].
  destruct (parseTag a fd) as [[an oe] sk]. cbn [fst snd andb negb].
  destruct sk; [reflexivity|]. cbn [negb andb].
  destruct (oe && IsZero v); [reflexivity|]. cbn [negb].
  destruct (Anonymous fd); cbn [andb]; [|reflexivity].
  destruct v; try reflexivity.
  destruct e; try reflexivity.
  destruct p; [reflexivity|].
  destruct (sCanSet it); reflexivity.
Qed.

Lemma typed_Zero : forall t : type, typed (Zero t) = true.
Proof.
  fix IH 1. intros t.
  destruct t as [ |k|k|k| | |n e|e|k e|e| |name fs|k name]; try reflexivity.
  { destruct e; reflexivity. }
  simpl. induction fs as [|[fd t] r IHr]; [reflexivity|].
  simpl. rewrite IH, IHr. reflexivity.
Qed.

Lemma typed_field (v : value) (i : nat) (fd : StructField) (x : value) :
  typed v = true -> nth_error (struct_fields v) i = Some (fd, x) ->
  typed x = true.
Proof.
  intros Ht Hn. destruct v; simpl in Hn; try (destruct i; discriminate Hn).
  simpl in Ht. rewrite forallb_forall in Ht.
  apply (Ht (fd, x)). eapply nth_error_In; exact Hn.
Qed.

Lemma typed_peel (fd : StructField) (v : value) :
  typed v = true -> typed (peel fd v) = true.
Proof.
  intros Ht. unfold peel. destruct (Anonymous fd); [|exact Ht].
  destruct v; try exact Ht. destruct e; try exact Ht.
  destruct p as [x|]; [|apply typed_Zero].
  simpl in Ht. apply andb_true_iff in Ht. apply Ht.
Qed.

(** On typed values an entry holds the field as it was read. *)
Lemma typed_entry (it : structItem) (i : nat) (fd : StructField) (v : value) :
  typed v = true -> squashed fd v = false ->
  peel fd v = v
  /\ slotOf it i fd v = extend (sLoc it) [SField i]
  /\ canSetOf it fd v = sCanSet it.
Proof.
  unfold squashed, peel, slotOf, canSetOf. intros Ht Hs.
  destruct (Anonymous fd); [|auto]. cbn [andb] in Hs.
  destruct v; auto. destruct e; auto.
  destruct p as [x|].
  - simpl in Ht. apply andb_true_iff in Ht. destruct Ht as [Hk _].
    rewrite Hk in Hs. discriminate Hs.
  - simpl in Hs. discriminate Hs.
Qed.

Section FlattenInvariant.

Variable a : assigner.
Variable J : structItem -> Prop.
Variable F : string * fieldInfo -> Prop.
Variable R : value -> Prop.

Hypothesis squash_ok : forall it i fd v,
  J it -> nth_error (struct_fields (sVal it)) i = Some (fd, v) ->
  kept a fd v = true -> squashed fd v = true ->
  J (mkItem (peel fd v) (slotOf it i fd v) (canSetOf it fd v)).

Hypothesis entry_ok : forall it i fd v,
  J it -> nth_error (struct_fields (sVal it)) i = Some (fd, v) ->
  kept a fd v = true -> squashed fd v = false ->
  F (Name fd, entryOf a it i fd v).

Hypothesis init_ok : forall it i fd v root,
  J it -> nth_error (struct_fields (sVal it)) i = Some (fd, v) ->
  kept a fd v = true -> squashed fd v = true ->
  R root -> R (initOf it i fd v root).

Lemma flattenField_inv it i fd v st :
  J it -> nth_error (struct_fields (sVal it)) i = Some (fd, v) ->
  flatInv J F R st -> flatInv J F R (flattenField a it i (fd, v) st).
Proof.
  intros HJ Hn. destruct st as [[root structs] fields].
  intros (HR & HS & HF). rewrite flattenField_eq.
  destruct (kept a fd v) eqn:Hk; cbn [negb]; [|repeat split; assumption].
  destruct (squashed fd v) eqn:Hs.
  - repeat split; cbn [fst snd].
    + apply init_ok; assumption.
    + apply Forall_app. split; [assumption|].
      constructor; [|constructor]. apply squash_ok; assumption.
    + assumption.
  - destruct (fields_has fields (Name fd)); [repeat split; assumption|].
    repeat split; cbn [fst snd]; try assumption.
    apply Forall_app. split; [assumption|].
    constructor; [|constructor]. apply entry_ok; assumption.
Qed.

Lemma flattenFields_inv it fs i st :
  J it ->
  (forall k fdv, nth_error fs k = Some fdv ->
                 nth_error (struct_fields (sVal it)) (i + k) = Some fdv) ->
  flatInv J F R st -> flatInv J F R (flattenFields a it fs i st).
Proof.
  intros HJ. revert i st. induction fs as [|[fd v] r IH]; intros i st Hn Hst.
  - exact Hst.
  - simpl. apply IH.
    + intros k fdv Hk. replace (S i + k)%nat with (i + S k)%nat by lia.
      apply Hn. exact Hk.
    + apply flattenField_inv; [exact HJ | | exact Hst].
      replace i with (i + 0)%nat by lia. apply Hn. reflexivity.
Qed.

Lemma flattenLoop_inv fuel st root fields :
  flatInv J F R st -> flattenLoop fuel a st = Some (root, fields) ->
  R root /\ Forall F fields.
Proof.
  revert st. induction fuel as [|n IH]; intros [[r0 structs] fs0] Hst H.
  - destruct structs; [|discriminate H]. simpl in H. inversion H; subst.
    destruct Hst as (HR & _ & HF). split; assumption.
  - destruct structs as [|it rest].
    + simpl in H. inversion H; subst.
      destruct Hst as (HR & _ & HF). split; assumption.
    + simpl in H. apply IH in H; [exact H|].
      destruct Hst as (HR & HS & HF). inversion HS; subst.
      apply flattenFields_inv; [assumption | | repeat split; assumption].
      intros k fdv Hk. exact Hk.
Qed.

Lemma flattenStruct_inv canSet val root fields :
  J (mkItem val (Some []) canSet) -> R val ->
  flattenStruct a canSet val = Some (root, fields) ->
  R root /\ Forall F fields.
Proof.
  intros HJ HR H. eapply flattenLoop_inv; [|exact H].
  repeat split; cbn [fst snd]; [exact HR | | constructor].
  constructor; [exact HJ | constructor].
Qed.

End FlattenInvariant.

Lemma kept_true (a : assigner) (fd : StructField) (v : value) :
  kept a fd v = true ->
  IsExported fd = true
  /\ parseTag a fd = (fst (fst (parseTag a fd)), snd (fst (parseTag a fd)), false)
  /\ (snd (fst (parseTag a fd)) = true -> IsZero v = false).
Proof.
  unfold kept. destruct (parseTag a fd) as [[an oe] sk]. cbn [fst snd].
  intros H. apply andb_true_iff in H. destruct H as [H H3].
  apply andb_true_iff in H. destruct H as [H1 H2].
  split; [exact H1|]. split.
  - destruct sk; [discriminate H2 | reflexivity].
  - intros ->. destruct (IsZero v); [discriminate H3 | reflexivity].
Qed.

Lemma flattenStruct_entries (a : assigner) (canSet : bool) (val root : value)
  (fields : list (string * fieldInfo)) :
  typed val = true ->
  flattenStruct a canSet val = Some (root, fields) ->
  Forall (entryFacts a) fields.
Proof.
  intros Ht H.
  apply (flattenStruct_inv a (fun it => typed (sVal it) = true)
           (entryFacts a) (fun _ => True)) in H.
  - apply H.
  - intros it i fd v HJ Hn Hk Hs. cbn [sVal].
    apply typed_peel. eapply typed_field; eassumption.
  - intros it i fd v HJ Hn Hk Hs.
    assert (Hv : typed v = true) by (eapply typed_field; eassumption).
    destruct (typed_entry it i fd v Hv Hs) as (Hp & _ & _).
    destruct (kept_true a fd v Hk) as (He & Hp2 & Hz).
    unfold entryFacts, entryOf. cbn [fst snd field fieldVal displayName
                                      actualName omitempty].
    rewrite Hp. repeat split; assumption.
  - trivial.
  - exact Ht.
  - exact I.
Qed.

(** *** The order in which fields are captured *)

Lemma fields_has_app (fields more : list (string * fieldInfo)) (n : string) :
  fields_has (fields ++ more) n = fields_has fields n || fields_has more n.
Proof. unfold fields_has. apply existsb_app. Qed.

Lemma fields_has_lookup (fields : list (string * fieldInfo)) (n : string) :
  fields_has fields n = true <-> lookupField fields n <> None.
Proof.
  induction fields as [|[k fi] r IH]; simpl.
  - split; [discriminate | intros H; contradiction H; reflexivity].
  - destruct (String.eqb k n); simpl.
    + split; [discriminate | reflexivity].
    + exact IH.
Qed.

Lemma lookupField_app_l (fields more : list (string * fieldInfo)) (n : string)
  (fi : fieldInfo) :
  lookupField fields n = Some fi -> lookupField (fields ++ more) n = Some fi.
Proof.
  induction fields as [|[k x] r IH]; simpl; [discriminate|].
  destruct (String.eqb k n); [trivial | exact IH].
Qed.

Lemma lookupField_app_new (fields : list (string * fieldInfo)) (n : string)
  (fi : fieldInfo) :
  fields_has fields n = false -> lookupField (fields ++ [(n, fi)]) n = Some fi.
Proof.
  induction fields as [|[k x] r IH]; simpl.
  - rewrite String.eqb_refl. reflexivity.
  - destruct (String.eqb k n); simpl; [discriminate | exact IH].
Qed.

Lemma fields_has_In (fields : list (string * fieldInfo)) (n : string) :
  fields_has fields n = true <-> In n (map fst fields).
Proof.
  unfold fields_has. rewrite existsb_exists. split.
  - intros ([k fi] & Hin & Hk). apply String.eqb_eq in Hk. simpl in Hk. subst k.
    apply in_map_iff. exists (n, fi). split; [reflexivity | exact Hin].
  - intros Hin. apply in_map_iff in Hin. destruct Hin as ([k fi] & Hk & Hin).
    simpl in Hk. subst k. exists (n, fi). split; [exact Hin|].
    apply String.eqb_refl.
Qed.

Section FlattenOrder.

Variable a : assigner.

Lemma flattenField_queue it i fd v st :
  snd (fst (flattenField a it i (fd, v) st))
  = snd (fst st) ++ childItems a it [(fd, v)] i.
Proof.
  destruct st as [[root structs] fields]. rewrite flattenField_eq. simpl.
  destruct (kept a fd v); cbn [negb andb]; [|symmetry; apply app_nil_r].
  destruct (squashed fd v); [reflexivity|].
  destruct (fields_has fields (Name fd)); symmetry; apply app_nil_r.
Qed.

Lemma flattenFields_queue it fs i st :
  snd (fst (flattenFields a it fs i st))
  = snd (fst st) ++ childItems a it fs i.
Proof.
  revert i st. induction fs as [|[fd v] r IH]; intros i st.
  - simpl. symmetry; apply app_nil_r.
  - cbn [flattenFields]. rewrite IH, flattenField_queue.
    cbn [childItems]. rewrite app_nil_r, app_assoc. reflexivity.
Qed.

Lemma flattenField_lookup it i fd v st n fi :
  lookupField (snd st) n = Some fi ->
  lookupField (snd (flattenField a it i (fd, v) st)) n = Some fi.
Proof.
  destruct st as [[root structs] fields]. rewrite flattenField_eq. cbn [snd].
  intros H.
  destruct (kept a fd v); cbn [negb snd]; [|exact H].
  destruct (squashed fd v); [exact H|].
  destruct (fields_has fields (Name fd)); cbn [snd]; [exact H|].
  apply lookupField_app_l. exact H.
Qed.

Lemma flattenFields_lookup it fs i st n fi :
  lookupField (snd st) n = Some fi ->
  lookupField (snd (flattenFields a it fs i st)) n = Some fi.
Proof.
  revert i st. induction fs as [|[fd v] r IH]; intros i st H; [exact H|].
  cbn [flattenFields]. apply IH. apply flattenField_lookup. exact H.
Qed.

Lemma flattenLoop_lookup fuel st root fields n fi :
  flattenLoop fuel a st = Some (root, fields) ->
  lookupField (snd st) n = Some fi -> lookupField fields n = Some fi.
Proof.
  revert st. induction fuel as [|k IH]; intros [[r0 structs] fs0] H Hl.
  - destruct structs; [|discriminate H]. simpl in H. inversion H; subst.
    exact Hl.
  - destruct structs as [|it rest].
    + simpl in H. inversion H; subst. exact Hl.
    + simpl in H. eapply IH; [exact H|].
      apply flattenFields_lookup. exact Hl.
Qed.

Lemma flattenLoop_has fuel st root fields n :
  flattenLoop fuel a st = Some (root, fields) ->
  fields_has (snd st) n = true -> fields_has fields n = true.
Proof.
  intros H Hh. apply fields_has_lookup in Hh.
  destruct (lookupField (snd st) n) as [fi|] eqn:Hl;
    [|contradiction Hh; reflexivity].
  apply fields_has_lookup.
  rewrite (flattenLoop_lookup _ _ _ _ _ _ H Hl). discriminate.
Qed.

Lemma flattenField_names it i fd v st n :
  fields_has (snd (flattenField a it i (fd, v) st)) n = true ->
  fields_has (snd st) n = true \/ n = Name fd.
Proof.
  destruct st as [[root structs] fields]. rewrite flattenField_eq. cbn [snd].
  destruct (kept a fd v); cbn [negb snd]; [|auto].
  destruct (squashed fd v); [auto|].
  destruct (fields_has fields (Name fd)) eqn:Hh; cbn [snd]; [auto|].
  rewrite fields_has_app. intros H. apply orb_true_iff in H.
  destruct H as [H|H]; [left; exact H|].
  right. unfold fields_has in H. simpl in H. rewrite orb_false_r in H.
  apply String.eqb_eq in H. symmetry; exact H.
Qed.

Lemma flattenFields_names it fs i st n :
  fields_has (snd (flattenFields a it fs i st)) n = true ->
  fields_has (snd st) n = true
  \/ exists k fd v, nth_error fs k = Some (fd, v) /\ n = Name fd.
Proof.
  revert i st. induction fs as [|[fd v] r IH]; intros i st H; [left; exact H|].
  cbn [flattenFields] in H. apply IH in H.
  destruct H as [H|(k & fd0 & v0 & Hk & Hn)].
  - apply flattenField_names in H. destruct H as [H|H]; [left; exact H|].
    right. exists 0%nat, fd, v. split; [reflexivity | exact H].
  - right. exists (S k), fd0, v0. split; assumption.
Qed.

Lemma flattenField_nodup it i fd v st :
  NoDup (map fst (snd st)) ->
  NoDup (map fst (snd (flattenField a it i (fd, v) st))).
Proof.
  destruct st as [[root structs] fields]. rewrite flattenField_eq. cbn [snd].
  intros H.
  destruct (kept a fd v); cbn [negb snd]; [|exact H].
  destruct (squashed fd v); [exact H|].
  destruct (fields_has fields (Name fd)) eqn:Hh; cbn [snd]; [exact H|].
  rewrite map_app. simpl.
  apply NoDup_app; [exact H | constructor; [intros []|constructor] |].
  intros x Hx [Hy|[]]. subst x.
  apply fields_has_In in Hx. rewrite Hx in Hh. discriminate Hh.
Qed.

Lemma flattenFields_nodup it fs i st :
  NoDup (map fst (snd st)) ->
  NoDup (map fst (snd (flattenFields a it fs i st))).
Proof.
  revert i st. induction fs as [|[fd v] r IH]; intros i st H; [exact H|].
  cbn [flattenFields]. apply IH. apply flattenField_nodup. exact H.
Qed.

Lemma flattenLoop_nodup fuel st root fields :
  flattenLoop fuel a st = Some (root, fields) ->
  NoDup (map fst (snd st)) -> NoDup (map fst fields).
Proof.
  revert st. induction fuel as [|k IH]; intros [[r0 structs] fs0] H Hl.
  - destruct structs; [|discriminate H]. simpl in H. inversion H; subst.
    exact Hl.
  - destruct structs as [|it rest].
    + simpl in H. inversion H; subst. exact Hl.
    + simpl in H. eapply IH; [exact H|].
      apply flattenFields_nodup. exact Hl.
Qed.

(** A field that is kept and not squashed is captured under its name when
    no field before it in its struct, and no field captured earlier, has
    that name. *)
Lemma flattenFields_first it fs i st j fd v :
  nth_error fs j = Some (fd, v) ->
  kept a fd v = true -> squashed fd v = false ->
  fields_has (snd st) (Name fd) = false ->
  (forall k fd0 v0, (k < j)%nat -> nth_error fs k = Some (fd0, v0) ->
                    Name fd0 <> Name fd) ->
  lookupField (snd (flattenFields a it fs i st)) (Name fd)
  = Some (entryOf a it (i + j) fd v).
Proof.
  revert i st j. induction fs as [|[fd0 v0] r IH]; intros i st j Hn Hk Hs Hh Hfirst.
  - destruct j; discriminate Hn.
  - destruct j as [|j].
    + simpl in Hn. inversion Hn; subst fd0 v0. cbn [flattenFields].
      apply flattenFields_lookup.
      destruct st as [[root structs] fields]. rewrite flattenField_eq.
      rewrite Hk, Hs. cbn [negb snd] in *. rewrite Hh. cbn [snd].
      replace (i + 0)%nat with i by lia.
      apply lookupField_app_new. exact Hh.
    + simpl in Hn. cbn [flattenFields].
      replace (i + S j)%nat with (S i + j)%nat by lia.
      apply IH; try assumption.
      * destruct (fields_has (snd (flattenField a it i (fd0, v0) st)) (Name fd))
          eqn:Hh'; [|reflexivity].
        apply flattenField_names in Hh'. destruct Hh' as [Hh'|Hh'].
        -- rewrite Hh' in Hh. discriminate Hh.
        -- exfalso. apply (Hfirst 0%nat fd0 v0); [lia | reflexivity |].
           symmetry; exact Hh'.
      * intros k fd1 v1 Hlt Hk1. apply (Hfirst (S k) fd1 v1); [lia | exact Hk1].
Qed.

(** A field that is kept and not squashed has its name in the set. *)
Lemma flattenFields_captured it fs i st j fd v :
  nth_error fs j = Some (fd, v) ->
  kept a fd v = true -> squashed fd v = false ->
  fields_has (snd (flattenFields a it fs i st)) (Name fd) = true.
Proof.
  revert i st j. induction fs as [|[fd0 v0] r IH]; intros i st j Hn Hk Hs.
  - destruct j; discriminate Hn.
  - destruct j as [|j].
    + simpl in Hn. inversion Hn; subst fd0 v0. cbn [flattenFields].
      assert (H : fields_has (snd (flattenField a it i (fd, v) st)) (Name fd)
                  = true).
      { destruct st as [[root structs] fields]. rewrite flattenField_eq.
        rewrite Hk, Hs. cbn [negb].
        destruct (fields_has fields (Name fd)) eqn:Hh; cbn [snd]; [exact Hh|].
        rewrite fields_has_app. apply orb_true_iff. right.
        unfold fields_has. simpl. rewrite String.eqb_refl. reflexivity. }
      apply fields_has_lookup in H.
      destruct (lookupField (snd (flattenField a it i (fd, v) st)) (Name fd))
        as [fi|] eqn:Hl; [|contradiction H; reflexivity].
      apply fields_has_lookup.
      rewrite (flattenFields_lookup it r (S i) _ _ _ Hl). discriminate.
    + simpl in Hn. cbn [flattenFields]. eapply IH; eassumption.
Qed.

Lemma flattenLoop_captured fuel st root fields it j fd v :
  flattenLoop fuel a st = Some (root, fields) ->
  In it (snd (fst st)) ->
  nth_error (struct_fields (sVal it)) j = Some (fd, v) ->
  kept a fd v = true -> squashed fd v = false ->
  fields_has fields (Name fd) = true.
Proof.
  revert st. induction fuel as [|k IH]; intros [[r0 structs] fs0] H Hin Hn Hk Hs.
  - destruct structs; [contradiction Hin | discriminate H].
  - destruct structs as [|it0 rest]; [contradiction Hin|].
    simpl in H. destruct Hin as [->|Hin].
    + eapply flattenLoop_has; [exact H|].
      eapply flattenFields_captured; eassumption.
    + eapply IH; [exact H | | exact Hn | exact Hk | exact Hs].
      rewrite flattenFields_queue. apply in_or_app. left. exact Hin.
Qed.

Lemma flattenLoop_first fuel pre it post root0 fields0 root fields j fd v :
  flattenLoop fuel a (root0, pre ++ it :: post, fields0) = Some (root, fields) ->
  nth_error (struct_fields (sVal it)) j = Some (fd, v) ->
  kept a fd v = true -> squashed fd v = false ->
  fields_has fields0 (Name fd) = false ->
  (forall it0 k fd0 v0, In it0 pre ->
      nth_error (struct_fields (sVal it0)) k = Some (fd0, v0) ->
      Name fd0 <> Name fd) ->
  (forall k fd0 v0, (k < j)%nat ->
      nth_error (struct_fields (sVal it)) k = Some (fd0, v0) ->
      Name fd0 <> Name fd) ->
  lookupField fields (Name fd) = Some (entryOf a it j fd v).
Proof.
  revert fuel post root0 fields0.
  induction pre as [|it0 pre IH]; intros fuel post root0 fields0 H Hn Hk Hs Hh Hpre Hfirst.
  - destruct fuel as [|fuel]; [discriminate H|].
    cbn [app flattenLoop] in H.
    eapply flattenLoop_lookup; [exact H|].
    apply (flattenFields_first it _ 0%nat (root0, post, fields0) j fd v);
      assumption.
  - destruct fuel as [|fuel]; [discriminate H|].
    cbn [app flattenLoop] in H.
    destruct (flattenFields a it0 (struct_fields (sVal it0)) 0
                (root0, pre ++ it :: post, fields0))
      as [[root1 structs1] fields1] eqn:E.
    assert (Hq : structs1
                 = pre ++ it :: (post ++ childItems a it0
                                          (struct_fields (sVal it0)) 0)).
    { pose proof (flattenFields_queue it0 (struct_fields (sVal it0)) 0%nat
                    (root0, pre ++ it :: post, fields0)) as Hq.
      rewrite E in Hq. cbn [fst snd] in Hq. rewrite Hq.
      rewrite <- app_assoc. reflexivity. }
    subst structs1.
    eapply IH; [exact H | exact Hn | exact Hk | exact Hs | | | exact Hfirst].
    + destruct (fields_has fields1 (Name fd)) eqn:Hh1; [|reflexivity].
      pose proof (flattenFields_names it0 (struct_fields (sVal it0)) 0%nat
                    (root0, pre ++ it :: post, fields0) (Name fd)) as Hnames.
      rewrite E in Hnames. cbn [snd] in Hnames.
      destruct (Hnames Hh1) as [Hx|(k & fd0 & v0 & Hk0 & Hname)].
      * rewrite Hx in Hh. discriminate Hh.
      * exfalso. apply (Hpre it0 k fd0 v0); [left; reflexivity | exact Hk0|].
        symmetry; exact Hname.
    + intros it1 k fd0 v0 Hin. apply Hpre. right. exact Hin.
Qed.

Lemma childItems_In it fs i it0 :
  In it0 (childItems a it fs i) ->
  exists k fd v,
    nth_error fs k = Some (fd, v) /\ kept a fd v = true
    /\ squashed fd v = true /\ sVal it0 = peel fd v.
Proof.
  revert i. induction fs as [|[fd v] r IH]; intros i Hin; [contradiction Hin|].
  cbn [childItems] in Hin. apply in_app_or in Hin. destruct Hin as [Hin|Hin].
  - destruct (kept a fd v) eqn:Hk; [|contradiction Hin].
    destruct (squashed fd v) eqn:Hs; [|contradiction Hin].
    destruct Hin as [<-|[]]. exists 0%nat, fd, v. repeat split; assumption.
  - destruct (IH _ Hin) as (k & fd0 & v0 & Hk & H).
    exists (S k), fd0, v0. split; [exact Hk | exact H].
Qed.

Lemma childItems_split it fs i j fd v :
  nth_error fs j = Some (fd, v) ->
  kept a fd v = true -> squashed fd v = true ->
  childItems a it fs i
  = childItems a it (firstn j fs) i
    ++ mkItem (peel fd v) (slotOf it (i + j) fd v) (canSetOf it fd v)
    :: childItems a it (skipn (S j) fs) (S (i + j)).
Proof.
  revert i j. induction fs as [|[fd0 v0] r IH]; intros i j Hn Hk Hs.
  - destruct j; discriminate Hn.
  - destruct j as [|j].
    + simpl in Hn. inversion Hn; subst fd0 v0.
      cbn [childItems firstn skipn app]. rewrite Hk, Hs. cbn [andb app].
      replace (i + 0)%nat with i by lia. reflexivity.
    + simpl in Hn. cbn [childItems firstn skipn].
      rewrite (IH (S i) j Hn Hk Hs). rewrite <- app_assoc.
      replace (S i + j)%nat with (i + S j)%nat by lia. reflexivity.
Qed.

End FlattenOrder.

(** *** The flattener returns *)

Lemma vweight_Zero : forall t : type, vweight (Zero t) = tweight t.
Proof.
  fix IH 1. intros t.
  destruct t as [ |k|k|k| | |n e|e|k e|e| |name fs|k name]; try reflexivity.
  simpl. f_equal. induction fs as [|[fd t] r IHr]; [reflexivity|].
  simpl. rewrite IH, IHr. reflexivity.
Qed.

Lemma struct_kind_weight (v : value) :
  reflect.kind_eqb (value_kind v) reflect.Struct = true ->
  (1 <= vweight v)%nat.
Proof.
  destruct v; try discriminate; try (destruct k; discriminate);
    simpl; intros _; lia.
Qed.

Lemma vweight_peel (fd : StructField) (v : value) :
  (vweight (peel fd v) <= vweight v)%nat.
Proof.
  unfold peel. destruct (Anonymous fd); [|lia].
  destruct v; try lia. destruct e; try lia.
  destruct p as [x|]; [simpl; lia|].
  rewrite vweight_Zero. simpl. lia.
Qed.

Lemma queueWeight_app (l1 l2 : list structItem) :
  queueWeight (l1 ++ l2) = (queueWeight l1 + queueWeight l2)%nat.
Proof. unfold queueWeight. rewrite map_app, list_sum_app. reflexivity. Qed.

Lemma childItems_weight (a : assigner) (it : structItem)
  (fs : list (StructField * value)) (i : nat) :
  (queueWeight (childItems a it fs i)
   <= list_sum (map (fun p => vweight (snd p)) fs))%nat.
Proof.
  revert i. induction fs as [|[fd v] r IH]; intros i;
    [unfold queueWeight; simpl; lia|].
  cbn [childItems]. rewrite queueWeight_app. specialize (IH (S i)).
  cbn [map snd]. unfold list_sum in *. cbn [fold_right].
  assert ((queueWeight
             (if kept a fd v && squashed fd v
              then [mkItem (peel fd v) (slotOf it i fd v) (canSetOf it fd v)]
              else []) <= vweight v)%nat).
  { destruct (kept a fd v && squashed fd v); unfold queueWeight; simpl;
      [pose proof (vweight_peel fd v)|]; lia. }
  lia.
Qed.

Lemma childItems_kind (a : assigner) (it : structItem)
  (fs : list (StructField * value)) (i : nat) :
  Forall (fun c => reflect.kind_eqb (value_kind (sVal c)) reflect.Struct = true)
    (childItems a it fs i).
Proof.
  revert i. induction fs as [|[fd v] r IH]; intros i; [constructor|].
  cbn [childItems]. apply Forall_app. split; [|apply IH].
  destruct (kept a fd v); cbn [andb]; [|constructor].
  destruct (squashed fd v) eqn:Hs; [|constructor].
  constructor; [|constructor]. cbn [sVal].
  unfold squashed in Hs. apply andb_true_iff in Hs. apply Hs.
Qed.

Lemma struct_weight (v : value) :
  reflect.kind_eqb (value_kind v) reflect.Struct = true ->
  vweight v = S (list_sum (map (fun p => vweight (snd p)) (struct_fields v))).
Proof.
  destruct v; try discriminate; try (destruct k; discriminate);
    intros _; reflexivity.
Qed.

Lemma flattenLoop_total (a : assigner) (fuel : nat) (st : flatState) :
  Forall (fun c => reflect.kind_eqb (value_kind (sVal c)) reflect.Struct = true)
    (snd (fst st)) ->
  (queueWeight (snd (fst st)) <= fuel)%nat ->
  flattenLoop fuel a st <> None.
Proof.
  revert st. induction fuel as [|n IH]; intros [[root structs] fields] Hk Hw;
    cbn [fst snd] in *.
  - destruct structs as [|it rest]; [discriminate|].
    inversion Hk; subst. apply struct_kind_weight in H1.
    assert (Hit : queueWeight (it :: rest)
                  = (vweight (sVal it) + queueWeight rest)%nat)
      by reflexivity.
    lia.
  - destruct structs as [|it rest]; [discriminate|].
    cbn [flattenLoop]. inversion Hk; subst. apply IH.
    + rewrite flattenFields_queue. cbn [fst snd].
      apply Forall_app. split; [assumption | apply childItems_kind].
    + rewrite flattenFields_queue. cbn [fst snd].
      rewrite queueWeight_app.
      pose proof (childItems_weight a it (struct_fields (sVal it)) 0) as Hc.
      assert (Hit : queueWeight (it :: rest)
                    = (vweight (sVal it) + queueWeight rest)%nat)
        by reflexivity.
      rewrite Hit, (struct_weight _ H1) in Hw. lia.
Qed.

Lemma flattenStruct_total (a : assigner) (canSet : bool) (val : value) :
  reflect.kind_eqb (value_kind val) reflect.Struct = true ->
  exists root fields, flattenStruct a canSet val = Some (root, fields).
Proof.
  intros Hk. unfold flattenStruct.
  destruct (flattenLoop (vweight val) a
              (val, [mkItem val (Some []) canSet], [])) as [[root fields]|] eqn:E.
  - exists root, fields. reflexivity.
  - exfalso. revert E. apply flattenLoop_total; cbn [fst snd].
    + constructor; [exact Hk | constructor].
    + unfold queueWeight. simpl. lia.
Qed.

(** *** The flattened set *)

Lemma flattenStruct_first_pass (a : assigner) (canSet : bool) (name : string)
  (fs : list (StructField * value)) (root : value)
  (fields : list (string * fieldInfo)) :
  flattenStruct a canSet (VStruct name fs) = Some (root, fields) ->
  exists fuel,
    flattenLoop fuel a
      (flattenFields a (mkItem (VStruct name fs) (Some []) canSet) fs 0
         (VStruct name fs, [], []))
    = Some (root, fields).
Proof.
  unfold flattenStruct. cbn [vweight flattenLoop sVal struct_fields].
  intros H. eexists. exact H.
Qed.

(** *** Nil embedded pointers *)

Lemma flattenField_root (a : assigner) it i fd v st :
  fst (fst (flattenField a it i (fd, v) st))
  = if kept a fd v && squashed fd v then initOf it i fd v (fst (fst st))
    else fst (fst st).
Proof.
  destruct st as [[root structs] fields]. rewrite flattenField_eq. cbn [fst].
  destruct (kept a fd v); cbn [negb andb]; [|reflexivity].
  destruct (squashed fd v); [reflexivity|].
  destruct (fields_has fields (Name fd)); reflexivity.
Qed.

Lemma set_at_field n fs k f y x :
  nth_error fs k = Some (f, y) ->
  set_at (VStruct n fs) (Some [SField k]) x = VStruct n (set_nth fs k (f, x)).
Proof. intros H. unfold set_at. simpl. rewrite H. reflexivity. Qed.

Lemma initOf_firstPass (a : assigner) name fs i fd n tfs canSet i0 fd0 v0 root :
  let it0 := mkItem (VStruct name fs) (Some []) canSet in
  nth_error fs i = Some (fd, VPtr (TStruct n tfs) None) ->
  Anonymous fd = true -> canSet = true ->
  nth_error fs i0 = Some (fd0, v0) ->
  kept a fd0 v0 && squashed fd0 v0 = true ->
  firstPass name fs i fd (TStruct n tfs) i0 root ->
  firstPass name fs i fd (TStruct n tfs) (S i0) (initOf it0 i0 fd0 v0 root).
Proof.
  intros it0 Hi Ha Hc Hn Hks (cur & -> & Hrest & Hdone).
  assert (Hkeep : firstPass name fs i fd (TStruct n tfs) (S i0)
                    (VStruct name cur) \/ (i0 = i)).
  { destruct (Nat.eq_dec i0 i) as [->|Hne]; [right; reflexivity|].
    left. exists cur. split; [reflexivity|]. split.
    - intros k Hk. apply Hrest. lia.
    - intros Hlt. apply Hdone. lia. }
  unfold initOf.
  destruct (Anonymous fd0) eqn:Ha0; [|destruct Hkeep as [H| ->]; [exact H|]].
  2:{ rewrite Hi in Hn. inversion Hn; subst fd0. congruence. }
  destruct v0 as [| | | | | | | | |e0 x0| | |];
    try (destruct Hkeep as [H| ->]; [exact H|];
         rewrite Hi in Hn; discriminate Hn).
  destruct e0 as [ | | | | | | | | | | |tn0 tfs0| ];
    try (destruct Hkeep as [H| ->]; [exact H|];
         rewrite Hi in Hn; discriminate Hn).
  destruct x0 as [x0|].
  { destruct Hkeep as [H| ->]; [exact H|]. rewrite Hi in Hn. discriminate Hn. }
  cbn [it0 sCanSet sLoc extend app]. rewrite Hc.
  assert (Hcur : nth_error cur i0 = Some (fd0, VPtr (TStruct tn0 tfs0) None))
    by (rewrite Hrest by lia; exact Hn).
  rewrite (set_at_field name cur i0 fd0 _ _ Hcur).
  eexists. split; [reflexivity|]. split.
  - intros k Hk. rewrite nth_error_set_nth_neq by lia. apply Hrest. lia.
  - intros Hlt. destruct (Nat.eq_dec i0 i) as [->|Hne].
    + rewrite Hi in Hn. inversion Hn; subst fd0 tn0 tfs0.
      eapply nth_error_set_nth_eq. exact Hcur.
    + rewrite nth_error_set_nth_neq by assumption. apply Hdone. lia.
Qed.

Lemma nil_pointer_squashed (fd : StructField) (n : string)
  (tfs : list (StructField * type)) :
  Anonymous fd = true -> squashed fd (VPtr (TStruct n tfs) None) = true.
Proof. intros Ha. unfold squashed, peel. rewrite Ha. reflexivity. Qed.

Lemma flattenFields_firstPass (a : assigner) name fs i fd n tfs canSet :
  let it0 := mkItem (VStruct name fs) (Some []) canSet in
  nth_error fs i = Some (fd, VPtr (TStruct n tfs) None) ->
  kept a fd (VPtr (TStruct n tfs) None) = true ->
  Anonymous fd = true -> canSet = true ->
  forall rest i0 st,
    (forall k fdv, nth_error rest k = Some fdv ->
                   nth_error fs (i0 + k) = Some fdv) ->
    firstPass name fs i fd (TStruct n tfs) i0 (fst (fst st)) ->
    firstPass name fs i fd (TStruct n tfs) (i0 + List.length rest)
      (fst (fst (flattenFields a it0 rest i0 st))).
Proof.
  intros it0 Hi Hkept Ha Hc rest.
  induction rest as [|[fd0 v0] r IH]; intros i0 st Hsub HP.
  - simpl. replace (i0 + 0)%nat with i0 by lia. exact HP.
  - cbn [flattenFields List.length].
    replace (i0 + S (List.length r))%nat with (S i0 + List.length r)%nat by lia.
    apply IH.
    + intros k fdv Hk. replace (S i0 + k)%nat with (i0 + S k)%nat by lia.
      apply Hsub. exact Hk.
    + rewrite flattenField_root.
      assert (Hn : nth_error fs i0 = Some (fd0, v0)).
      { replace i0 with (i0 + 0)%nat by lia. apply Hsub. reflexivity. }
      destruct (kept a fd0 v0 && squashed fd0 v0) eqn:Hks.
      * eapply initOf_firstPass; eassumption.
      * destruct HP as (cur & Hroot & Hrest & Hdone).
        exists cur. split; [exact Hroot|]. split.
        -- intros k Hk. apply Hrest. lia.
        -- intros Hlt. destruct (Nat.eq_dec i0 i) as [->|Hne]; [|apply Hdone; lia].
           exfalso. rewrite Hi in Hn. inversion Hn; subst fd0 v0.
           rewrite Hkept, (nil_pointer_squashed fd n tfs Ha) in Hks.
           discriminate Hks.
Qed.

(** Once set, the pointer stays set: the later rounds write below the
    fields of the struct, never at them. *)
Lemma set_at_below (root : value) (i : nat) (s0 : step) (r : path) (x : value)
  (e : type) :
  r <> [] ->
  (exists y, get_path root [SField i] = Some (VPtr e (Some y))) ->
  exists y, get_path (set_at root (Some (s0 :: r)) x) [SField i]
            = Some (VPtr e (Some y)).
Proof.
  intros Hr (y & Hy). unfold set_at.
  destruct (set_path root (s0 :: r) x) as [w|] eqn:Hset;
    [|exists y; exact Hy].
  destruct root as [| | | | | | | | | | |n fs|]; try discriminate Hy.
  destruct s0 as [k|]; [|discriminate Hset].
  destruct (set_path_field _ _ _ _ _ _ Hset) as (f & y0 & y0' & Hn & Hs & ->).
  simpl in Hy |- *. destruct (Nat.eq_dec k i) as [->|Hne].
  - rewrite (nth_error_set_nth_eq fs i (f, y0') (f, y0) Hn).
    rewrite Hn in Hy. inversion Hy; subst y0.
    destruct r as [|[m|] r']; [contradiction Hr; reflexivity | discriminate Hs|].
    simpl in Hs. destruct (set_path y r' x) as [y'|]; [|discriminate Hs].
    inversion Hs; subst. exists y'. reflexivity.
  - rewrite nth_error_set_nth_neq by assumption. exists y. exact Hy.
Qed.

Lemma slotOf_below (it : structItem) (i : nat) (fd : StructField) (v : value)
  (p : path) :
  slotOf it i fd v = Some p -> p <> [].
Proof.
  unfold slotOf. intros H Hp. subst p.
  assert (Hx : forall l q, extend l q = Some [] -> q = []).
  { intros [l|] q Hq; [|discriminate Hq]. simpl in Hq. injection Hq as Hq'.
    apply app_eq_nil in Hq'. apply Hq'. }
  destruct (Anonymous fd);
    [|apply Hx in H; discriminate H].
  destruct v; try (apply Hx in H; discriminate H).
  destruct e; try (apply Hx in H; discriminate H).
  destruct p; [|destruct (sCanSet it); [|discriminate H]];
    apply Hx in H; discriminate H.
Qed.

Lemma childItems_loc (a : assigner) it fs i c :
  In c (childItems a it fs i) ->
  exists k fd v, sLoc c = slotOf it k fd v.
Proof.
  revert i. induction fs as [|[fd v] r IH]; intros i Hin; [contradiction Hin|].
  cbn [childItems] in Hin. apply in_app_or in Hin. destruct Hin as [Hin|Hin].
  - destruct (kept a fd v && squashed fd v); [|contradiction Hin].
    destruct Hin as [<-|[]]. exists i, fd, v. reflexivity.
  - apply (IH _ Hin).
Qed.

(** A nil embedded pointer to a struct, in a struct that can be set, is
    a pointer to a struct once the struct has been flattened. *)
Lemma flattenStruct_initialised (a : assigner) (name : string)
  (fs : list (StructField * value)) (i : nat) (fd : StructField) (n : string)
  (tfs : list (StructField * type)) (root : value)
  (fields : list (string * fieldInfo)) :
  nth_error fs i = Some (fd, VPtr (TStruct n tfs) None) ->
  kept a fd (VPtr (TStruct n tfs) None) = true ->
  Anonymous fd = true ->
  flattenStruct a true (VStruct name fs) = Some (root, fields) ->
  exists x, get_path root [SField i] = Some (VPtr (TStruct n tfs) (Some x)).
Proof.
  intros Hi Hk Ha H.
  destruct (flattenStruct_first_pass _ _ _ _ _ _ H) as (fuel & Hloop).
  set (it0 := mkItem (VStruct name fs) (Some []) true) in *.
  set (st1 := flattenFields a it0 fs 0 (VStruct name fs, [], [])) in *.
  assert (H1 : exists x, get_path (fst (fst st1)) [SField i]
                         = Some (VPtr (TStruct n tfs) (Some x))).
  { pose proof (flattenFields_firstPass a name fs i fd n tfs true Hi Hk Ha
                  eq_refl fs 0%nat (VStruct name fs, [], [])) as HP.
    destruct HP as (cur & Hroot & _ & Hdone).
    - intros k fdv Hkk. exact Hkk.
    - exists fs. split; [reflexivity|]. split; [reflexivity|]. intros X; inversion X.
    - fold it0 in Hroot. fold st1 in Hroot. rewrite Hroot.
      exists (Zero (TStruct n tfs)). simpl. rewrite Hdone; [reflexivity|].
      simpl. apply nth_error_Some. rewrite Hi. discriminate. }
  apply (flattenLoop_inv a
           (fun it => forall p, sLoc it = Some p -> p <> [])
           (fun _ => True)
           (fun root => exists x, get_path root [SField i]
                                  = Some (VPtr (TStruct n tfs) (Some x))))
    in Hloop.
  - apply Hloop.
  - intros it m fd0 v0 HJ Hn Hk0 Hs p Hp. cbn [sLoc] in Hp.
    apply (slotOf_below _ _ _ _ _ Hp).
  - trivial.
  - intros it m fd0 v0 root0 HJ Hn Hk0 Hs HR. unfold initOf.
    destruct (Anonymous fd0); [|exact HR].
    destruct v0 as [| | | | | | | | |e0 x0| | |]; try exact HR.
    destruct e0 as [ | | | | | | | | | | |tn0 tfs0| ]; try exact HR.
    destruct x0 as [x0|]; [exact HR|].
    destruct (sCanSet it); [|exact HR].
    destruct (sLoc it) as [p|] eqn:Hl; [|exact HR].
    cbn [extend]. destruct p as [|s0 r]; [exfalso; apply (HJ [] eq_refl); reflexivity|].
    cbn [app]. apply set_at_below; [|exact HR].
    destruct r; discriminate.
  - split; [exact H1|]. split.
    + apply Forall_forall. intros c Hc p Hp.
      unfold st1 in Hc. rewrite flattenFields_queue in Hc. cbn [fst snd app] in Hc.
      destruct (childItems_loc a it0 fs 0 c Hc) as (k & fd0 & v0 & Hloc).
      rewrite Hloc in Hp. apply (slotOf_below _ _ _ _ _ Hp).
    + apply Forall_forall. intros; exact I.
Qed.

(** C4, amended. Flattening a struct returns, and: a field that is
    unexported, skipped by its tag, or marked omitempty and zero is left
    out entirely, embedded or not; an embedded field that is kept and holds
    a struct or a pointer to a struct (a nil pointer is initialised with a
    new zero struct when the struct can be set, and is a pointer to a
    struct in the result) is not an entry of the
    flattened set, and the fields of its struct are flattened in its place;
    the set has one entry for a name, and the field seen first is the one
    kept: a field of the struct itself is the entry of its name, and a
    promoted field is the entry of its name unless a field of the struct
    itself, of an embedded struct declared earlier, or an earlier field of
    the same struct has that name; an entry marked omitempty is not zero. *)
Theorem flattenStruct_fields :
  forall (a : assigner) (canSet : bool) (name : string)
         (fs : list (StructField * value)),
    typed (VStruct name fs) = true ->
    (* a field that is unexported, skipped by its tag, or marked omitempty
       and zero, is left out entirely, whether embedded or not *)
    (forall it i fd v st,
        kept a fd v = false -> flattenField a it i (fd, v) st = st)
    (* a nil embedded pointer to a struct is initialised, when the struct
       can be set, and the new struct joins the queue *)
    /\ (forall it i fd n tfs root structs fields,
           kept a fd (VPtr (TStruct n tfs) None) = true ->
           Anonymous fd = true -> sCanSet it = true ->
           flattenField a it i (fd, VPtr (TStruct n tfs) None)
             (root, structs, fields)
           = (set_at root (extend (sLoc it) [SField i])
                (VPtr (TStruct n tfs) (Some (Zero (TStruct n tfs)))),
              structs ++ [mkItem (Zero (TStruct n tfs))
                            (extend (sLoc it) [SField i; SDeref]) true],
              fields))
    /\ exists root fields,
        flattenStruct a canSet (VStruct name fs) = Some (root, fields)
        (* one entry for a declared name *)
        /\ NoDup (map fst fields)
        (* an entry is a field that is kept, is not an embedded struct or
           pointer to a struct, and is not zero when marked omitempty *)
        /\ Forall (entryFacts a) fields
        (* a field of the struct itself is the one captured under its
           name *)
        /\ (forall i fd v,
               nth_error fs i = Some (fd, v) ->
               kept a fd v = true -> squashed fd v = false ->
               (forall k fd0 v0, (k < i)%nat ->
                   nth_error fs k = Some (fd0, v0) -> Name fd0 <> Name fd) ->
               exists fi,
                 lookupField fields (Name fd) = Some fi
                 /\ field fi = fd /\ fieldVal fi = v
                 /\ fieldLoc fi = Some [SField i])
        (* the fields of an embedded struct are promoted: each has its name
           in the set, and is the field captured under that name unless a
           field of the struct itself, of an embedded struct declared
           earlier, or declared earlier in the same struct has the name *)
        /\ (forall i fd v j fd' v',
               nth_error fs i = Some (fd, v) ->
               kept a fd v = true -> squashed fd v = true ->
               nth_error (struct_fields (peel fd v)) j = Some (fd', v') ->
               kept a fd' v' = true -> squashed fd' v' = false ->
               fields_has fields (Name fd') = true
               /\ ((forall k fd0 v0,
                       nth_error fs k = Some (fd0, v0) ->
                       Name fd0 <> Name fd') ->
                   (forall k fd0 v0 m fd1 v1, (k < i)%nat ->
                       nth_error fs k = Some (fd0, v0) ->
                       squashed fd0 v0 = true ->
                       nth_error (struct_fields (peel fd0 v0)) m
                       = Some (fd1, v1) ->
                       Name fd1 <> Name fd') ->
                   (forall m fd1 v1, (m < j)%nat ->
                       nth_error (struct_fields (peel fd v)) m
                       = Some (fd1, v1) ->
                       Name fd1 <> Name fd') ->
                   exists fi,
                     lookupField fields (Name fd') = Some fi
                     /\ field fi = fd' /\ fieldVal fi = v'))
        (* a nil embedded pointer to a struct is set in the result *)
        /\ (canSet = true ->
            forall i fd n tfs,
              nth_error fs i = Some (fd, VPtr (TStruct n tfs) None) ->
              kept a fd (VPtr (TStruct n tfs) None) = true ->
              Anonymous fd = true ->
              exists x,
                get_path root [SField i]
                = Some (VPtr (TStruct n tfs) (Some x))).
Proof.
  intros a canSet name fs Ht. split; [|split].
  - intros it i fd v [[root structs] fields] Hk.
    rewrite flattenField_eq, Hk. reflexivity.
  - intros it i fd n tfs root structs fields Hk Ha Hc.
    rewrite flattenField_eq, Hk. cbn [negb].
    unfold squashed, peel, initOf, slotOf, canSetOf. rewrite Ha, Hc.
    cbn [andb value_kind typeOf Zero type_kind reflect.kind_eqb].
    destruct (sLoc it); cbn [extend]; rewrite <- ?app_assoc; reflexivity.
  - destruct (flattenStruct_total a canSet (VStruct name fs) eq_refl)
      as (root & fields & H).
    exists root, fields. split; [exact H|].
    destruct (flattenStruct_first_pass _ _ _ _ _ _ H) as (fuel & Hloop).
    set (it0 := mkItem (VStruct name fs) (Some []) canSet) in *.
    split; [|split; [|split; [|split]]].
    + eapply flattenLoop_nodup; [exact Hloop|].
      apply flattenFields_nodup. constructor.
    + eapply flattenStruct_entries; eassumption.
    + intros i fd v Hn Hk Hs Hfirst.
      assert (Hv : typed v = true)
        by (apply (typed_field (VStruct name fs) i fd v Ht Hn)).
      destruct (typed_entry it0 i fd v Hv Hs) as (Hp & Hl & _).
      exists (entryOf a it0 i fd v). split; [|split; [|split]].
      * eapply flattenLoop_lookup; [exact Hloop|].
        apply (flattenFields_first a it0 fs 0%nat _ i fd v Hn Hk Hs);
          [reflexivity | exact Hfirst].
      * reflexivity.
      * exact Hp.
      * cbn [entryOf fieldLoc]. rewrite Hl. reflexivity.
    + intros i fd v j fd' v' Hn Hk Hs Hn' Hk' Hs'.
      set (it := mkItem (peel fd v) (slotOf it0 (0 + i) fd v)
                   (canSetOf it0 fd v)).
      destruct (flattenFields a it0 fs 0 (VStruct name fs, [], []))
        as [[root1 structs1] fields1] eqn:E.
      assert (Hq : structs1
                   = childItems a it0 (firstn i fs) 0
                     ++ it :: childItems a it0 (skipn (S i) fs) (S (0 + i))).
      { pose proof (flattenFields_queue a it0 fs 0%nat
                      (VStruct name fs, [], [])) as Hq.
        rewrite E in Hq. cbn [fst snd app] in Hq. rewrite Hq.
        apply childItems_split; assumption. }
      subst structs1. split.
      * eapply (flattenLoop_captured a fuel _ root fields it j fd' v');
          [exact Hloop | | exact Hn' | exact Hk' | exact Hs'].
        cbn [fst snd]. apply in_or_app. right. left. reflexivity.
      * intros Htop Hearlier Hsame.
        assert (Hv : typed v = true)
          by (apply (typed_field (VStruct name fs) i fd v Ht Hn)).
        assert (Hv' : typed v' = true)
          by (apply (typed_field (peel fd v) j fd' v'
                       (typed_peel fd v Hv) Hn')).
        destruct (typed_entry it j fd' v' Hv' Hs') as (Hp & _ & _).
        exists (entryOf a it j fd' v'). split; [|split].
        -- eapply (flattenLoop_first a fuel _ it _ root1 fields1 root fields
                     j fd' v'); [exact Hloop | exact Hn' | exact Hk'
                                | exact Hs' | | | exact Hsame].
           ++ destruct (fields_has fields1 (Name fd')) eqn:Hh; [|reflexivity].
              pose proof (flattenFields_names a it0 fs 0%nat
                            (VStruct name fs, [], []) (Name fd')) as Hnames.
              rewrite E in Hnames. cbn [snd] in Hnames.
              destruct (Hnames Hh) as [Hx|(k & fd0 & v0 & Hk0 & Hname)];
                [discriminate Hx|].
              exfalso. apply (Htop k fd0 v0 Hk0). symmetry; exact Hname.
           ++ intros c k fd0 v0 Hin Hc.
              destruct (childItems_In a it0 _ _ _ Hin)
                as (m & fd1 & v1 & Hm & _ & Hs1 & Hval).
              rewrite nth_error_firstn in Hm.
              destruct (Nat.ltb m i) eqn:Hlt; [|discriminate Hm].
              apply Nat.ltb_lt in Hlt. rewrite Hval in Hc.
              apply (Hearlier m fd1 v1 k fd0 v0 Hlt Hm Hs1 Hc).
        -- reflexivity.
        -- exact Hp.
    + intros Hc i fd n tfs Hn Hk Ha. subst canSet.
      eapply flattenStruct_initialised; eassumption.
Qed.

(** Flattening [T] gives the fields [Name] (of [T] itself, not of [Base])
    and [ID]. *)
Lemma flattenStruct_fields_witness :
  exists root fields,
    flattenStruct (defaultAssigner sampleRuntime Rev1) true
      (VStruct "T" flatDemo) = Some (root, fields)
    /\ NoDup (map fst fields)
    /\ (exists fi, lookupField fields "Name" = Some fi
                   /\ fieldVal fi = VString "top")
    /\ fields_has fields "ID" = true.
Proof.
  destruct (flattenStruct_fields (defaultAssigner sampleRuntime Rev1) true
              "T" flatDemo eq_refl)
    as (_ & _ & root & fields & H & Hnd & _ & Htop & Hemb & _).
  exists root, fields. split; [exact H|]. split; [exact Hnd|]. split.
  - destruct (Htop 0%nat (plainField "Name") (VString "top")
                eq_refl eq_refl eq_refl) as (fi & Hl & _ & Hv & _).
    + intros k fd0 v0 Hlt. inversion Hlt.
    + exists fi. split; [exact Hl | exact Hv].
  - apply (Hemb 1%nat
             {| Name := "Base"; PkgPath := ""; Tag := []; Anonymous := true |}
             (VStruct "Base" [(plainField "ID", VInt KInt 7);
                              (plainField "Name", VString "inner")])
             0%nat (plainField "ID") (VInt KInt 7)
             eq_refl eq_refl eq_refl eq_refl eq_refl eq_refl).
Defined.

(** C4 fails as stated: with
      type base struct { ID int }
      type T struct { base }
    the embedded field is unexported, the flattener passes over it, and
    [ID] is not promoted. *)
Lemma unexported_embedded_not_promoted : ~ embedded_fields_promoted.
Proof.
  intros H.
  specialize (H (defaultAssigner sampleRuntime Rev1) true "T"
                [({| Name := "base"; PkgPath := "main"; Tag := [];
                     Anonymous := true |},
                  VStruct "base" [(plainField "ID", VInt KInt 1)])]
                (VStruct "T"
                   [({| Name := "base"; PkgPath := "main"; Tag := [];
                        Anonymous := true |},
                     VStruct "base" [(plainField "ID", VInt KInt 1)])])
                [] 0%nat
                {| Name := "base"; PkgPath := "main"; Tag := [];
                   Anonymous := true |}
                "base" [(plainField "ID", VInt KInt 1)] 0%nat
                (plainField "ID") (VInt KInt 1)
                eq_refl eq_refl eq_refl eq_refl eq_refl eq_refl eq_refl
                eq_refl).
  discriminate H.
Qed.

(** ** Handlers that return *)

Lemma returns_ret {A : Type} (x : A) : returns (ret x).
Proof. intros s. exists x, s. reflexivity. Qed.

Lemma returns_bind {A B : Type} (m : M A) (f : A -> M B) :
  returns m -> (forall x, returns (f x)) -> returns (bind m f).
Proof.
  intros Hm Hf s. destruct (Hm s) as (x & s1 & H1).
  destruct (Hf x s1) as (y & s2 & H2).
  exists y, s2. unfold bind. rewrite H1. exact H2.
Qed.

Lemma returns_forEach {X St : Type} (body : X -> St -> M St) (xs : list X) :
  (forall x st, In x xs -> returns (body x st)) ->
  forall st, returns (forEach body xs st).
Proof.
  induction xs as [|x r IH]; intros Hb st; simpl.
  - apply returns_ret.
  - apply returns_bind; [apply Hb; left; reflexivity|].
    intros st1. apply IH. intros y st2 Hy. apply Hb. right. exact Hy.
Qed.

Lemma returns_shouldSkipKey (a : assigner) (tk sk : metaKey) :
  returns (shouldSkipKey a tk sk).
Proof. intros s. apply shouldSkipKey_sink. Qed.

Lemma returns_modify (f : Metadata -> Metadata) : returns (modify f).
Proof. intros [m|]; eexists _, _; reflexivity. Qed.


Lemma returns_addMetaUnused (sk : metaKey) : returns (addMetaUnused sk).
Proof.
  unfold addMetaUnused. destruct (IsEmpty sk);
    [apply returns_ret | apply returns_modify].
Qed.


Lemma returns_addMetaUnusedAll (sk : metaKey) (k : reflect.Kind)
  (names : list string) :
  returns (addMetaUnusedAll sk k names).
Proof.
  induction names as [|n r IH]; simpl; [apply returns_ret|].
  apply returns_bind; [apply returns_addMetaUnused | intros _; exact IH].
Qed.

Lemma returns_Set (x : value) : returns (Set_ true x).
Proof. apply returns_ret. Qed.



Section Returns.

Variable rt : GoRuntime.
Variable E : engine.
Variable a : assigner.
Variables tk sk : metaKey.
Hypothesis HE : recursionReturns E.

Lemma assignSlice_returns e tl source :
  isArraySlice (Kind_ (Indirect source)) = true ->
  returns (assignSlice E a true (VSlice e tl) tk source sk).
Proof.
  intros Hk. unfold assignSlice. rewrite Hk. cbn [negb]. cbv zeta.
  destruct (Indirect source) as [sv|]; [|discriminate Hk].
  assert (Hloop : forall src st,
             returns (l_errors <- forEach (assignSliceBody E a
                                    (type_elem (typeOf (VSlice e tl))) tk sk)
                                   (indexed src) st ;;
                      (let '(l, errors) := l_errors in
                       t <- Set_ true
                              (VSlice (type_elem (typeOf (VSlice e tl)))
                                 (Some l)) ;;
                       ret (t, errorsResult errors)))).
  { intros src st. apply returns_bind.
    - apply returns_forEach. intros [i x] [tl0 errs] _.
      unfold assignSliceBody. apply returns_bind;
        [apply returns_shouldSkipKey|].
      intros [|]; [apply returns_ret|].
      apply returns_bind; [apply HE|]. intros [y err]. apply returns_ret.
    - intros [l errors]. apply returns_bind; [apply returns_Set|].
      intros t. apply returns_ret. }
  destruct sv; try discriminate Hk; try (destruct k; discriminate Hk);
    try apply Hloop.
  destruct l; [apply Hloop | apply returns_ret].
Qed.






End Returns.

(** ** Slice targets *)

Lemma grow_length (e : type) (l : list value) (i : nat) :
  List.length (grow e l i) = Nat.max (List.length l) (S i).
Proof. unfold grow. rewrite length_app, repeat_length. lia. Qed.

Lemma assignSliceBody_length (E : engine) (a : assigner) (e : type)
  (tk sk : metaKey) (i : nat) (x : value) (tl : list value)
  (errs : list errmsg) (s : Sink) (tl' : list value) (errs' : list errmsg)
  (s' : Sink) :
  assignSliceBody E a e tk sk (i, x) (tl, errs) s = Done ((tl', errs'), s') ->
  List.length tl' = Nat.max (List.length tl) (S i).
Proof.
  unfold assignSliceBody. intros H.
  apply bind_Done in H as (skip & s1 & _ & H).
  destruct skip.
  - unfold ret in H; inversion H; subst. apply grow_length.
  - apply bind_Done in H as ([y err] & s2 & _ & H).
    unfold ret in H; inversion H; subst.
    rewrite set_nth_length. apply grow_length.
Qed.

Lemma assignSliceLoop_length (E : engine) (a : assigner) (e : type)
  (tk sk : metaKey) (src : list value) :
  forall (i : nat) (tl : list value) (errs : list errmsg) (s : Sink)
         (tl' : list value) (errs' : list errmsg) (s' : Sink),
    (i <= List.length tl)%nat ->
    forEach (assignSliceBody E a e tk sk)
      (combine (seq i (List.length src)) src) (tl, errs) s
    = Done ((tl', errs'), s') ->
    List.length tl' = Nat.max (List.length tl) (i + List.length src).
Proof.
  induction src as [|x r IH]; intros i tl errs s tl' errs' s' Hi H; simpl in H.
  - unfold ret in H; inversion H; subst. simpl. lia.
  - apply bind_Done in H as ([tl1 errs1] & s1 & Hb & H).
    apply assignSliceBody_length in Hb.
    apply IH in H; [|lia]. rewrite H, Hb. simpl. lia.
Qed.

(** C9. Into a slice target: a nil source slice is a no-op (nil returned,
    target and metadata as they were); for a source array or non-nil slice,
    whenever the handler returns, with or without errors, the target is a
    non-nil slice of exactly the length of the source: allocated at that
    length if the target was nil, cut to it if the target was longer, grown
    to it if the target was shorter, so no element beyond the source's
    length is left.  The handler returns on a settable target whenever the
    recursive calls on the elements return. *)
Theorem assignSlice_length :
  forall (E : engine) (a : assigner) (canSet : bool) (e : type)
         (tl : option (list value)) (tk sk : metaKey)
         (source : option value) (s : Sink),
    (forall e', Indirect source = Some (VSlice e' None) ->
       assignSlice E a canSet (VSlice e tl) tk source sk s
       = Done ((VSlice e tl, None), s))
    /\ (forall e' src,
          Indirect source = Some (VArray e' src)
          \/ Indirect source = Some (VSlice e' (Some src)) ->
          forall t' err s',
            assignSlice E a canSet (VSlice e tl) tk source sk s
            = Done ((t', err), s') ->
            exists l', t' = VSlice e (Some l')
                       /\ List.length l' = List.length src)
    /\ (recursionReturns E ->
        isArraySlice (Kind_ (Indirect source)) = true ->
        returns (assignSlice E a true (VSlice e tl) tk source sk)).
Proof.
  intros E a canSet e tl tk sk source s. split; [|split].
  3:{ intros HE Hk. apply assignSlice_returns; assumption. }
  - intros e' Hsrc. unfold assignSlice. rewrite Hsrc. reflexivity.
  - intros e' src Hsrc t' err s' H.
    unfold assignSlice in H.
    assert (Hk : isArraySlice (Kind_ (Indirect source)) = true)
      by (destruct Hsrc as [-> | ->]; reflexivity).
    rewrite Hk in H. cbn [negb] in H. cbv zeta in H.
    assert (Hrun :
      exists l errors s1,
        forEach (assignSliceBody E a e tk sk) (indexed src)
          (match tl with
           | None => repeat (Zero e) (List.length src)
           | Some l => if (List.length src <? List.length l)%nat
                       then firstn (List.length src) l else l
           end, []) s = Done ((l, errors), s1)
        /\ Set_ canSet (VSlice e (Some l)) s1 = Done (t', s')).
    { destruct Hsrc as [Hs | Hs]; rewrite Hs in H; cbn in H;
        apply bind_Done in H as ([l errors] & s1 & Hloop & H);
        apply bind_Done in H as (t & s2 & Hset & H);
        unfold ret in H; inversion H; subst;
        exists l, errors, s1; split; assumption. }
    destruct Hrun as (l & errors & s1 & Hloop & Hset).
    exists l. split.
    + unfold Set_ in Hset. destruct canSet; [|discriminate Hset].
      unfold ret in Hset; inversion Hset; reflexivity.
    + apply assignSliceLoop_length in Hloop; [|lia].
      rewrite Hloop. destruct tl as [l0|].
      * destruct (List.length src <? List.length l0)%nat eqn:Hlt.
        -- apply Nat.ltb_lt in Hlt. rewrite length_firstn. lia.
        -- apply Nat.ltb_ge in Hlt. lia.
      * rewrite repeat_length. lia.
Qed.

Lemma assignSlice_length_witness :
  assignSlice (eng sampleRuntime 1) (defaultAssigner sampleRuntime Rev1) true
    (VSlice TString (Some [VString "a"; VString "b"; VString "c"])) "Vs"
    (Some (VSlice TString None)) "vs" None
  = Done ((VSlice TString (Some [VString "a"; VString "b"; VString "c"]), None),
          None)
  /\ exists l',
       VSlice TString (Some [VString "x"]) = VSlice TString (Some l')
       /\ List.length l' = 1%nat.
Proof.
  split.
  - apply (proj1 (assignSlice_length (eng sampleRuntime 1)
                    (defaultAssigner sampleRuntime Rev1) true TString
                    (Some [VString "a"; VString "b"; VString "c"]) "Vs" "vs"
                    (Some (VSlice TString None)) None) TString eq_refl).
  - apply (proj1 (proj2 (assignSlice_length (eng sampleRuntime 1)
                    (defaultAssigner sampleRuntime Rev1) true TString
                    (Some [VString "a"; VString "b"; VString "c"]) "Vs" "vs"
                    (Some (VSlice TString (Some [VString "x"]))) None))
             TString [VString "x"] (or_intror eq_refl)
             (VSlice TString (Some [VString "x"])) None None).
    vm_compute. reflexivity.
Defined.

(** ** Accumulating the errors of the children *)




Lemma addError_messages (errs : list errmsg) (y : value) (err : option error) :
  addError errs err = errs ++ childMessages (ChildStepped y err).
Proof. destruct err; simpl; [reflexivity | rewrite app_nil_r; reflexivity]. Qed.

Lemma errorsResult_None (errs : list errmsg) :
  errorsResult errs = None <-> errs = [].
Proof. destruct errs; simpl; split; intros H; congruence. Qed.

Section Steps.

Variable rt : GoRuntime.
Variable E : engine.
Variable a : assigner.
Variables targetKey sourceKey : metaKey.




Lemma assignStructFromMapBody_step (sourceVal : value) (kT : type)
  (nf : string * fieldInfo) (st : fromMapState) (s : Sink)
  (st1 : fromMapState) (s1 : Sink) :
  assignStructFromMapBody rt E a targetKey sourceKey sourceVal kT nf st s
  = Done (st1, s1) ->
  exists o, fromMapStep E a targetKey sourceKey sourceVal nf st o st1.
Proof.
  destruct st as [[[root mapKey] unused] errs]. unfold assignStructFromMapBody.
  intros H. apply bind_Done in H as ([k kerr] & s2 & Hkey & H).
  destruct kerr as [e|].
  - unfold ret in H; inversion H; subst.
    exists (ChildKeyFailed e). split; reflexivity.
  - destruct (match rev a with Rev1 => Indirect (Some k) | Rev2 => Some k end)
      as [key|]; [|discriminate H].
    destruct (MapIndex sourceVal key) as [value|].
    + apply bind_Done in H as (skip & s3 & _ & H). destruct skip.
      * unfold ret in H; inversion H; subst. exists ChildSkipped.
        split; [simpl; rewrite app_nil_r|]; reflexivity.
      * destruct (negb (fieldCanSet (snd nf))).
        -- apply bind_Done in H as (u & s4 & _ & H).
           unfold ret in H; inversion H; subst. exists ChildSkipped.
           split; [simpl; rewrite app_nil_r|]; reflexivity.
        -- apply bind_Done in H as ([y err] & s4 & Hstep & H).
           unfold ret in H; inversion H; subst.
           exists (ChildStepped y err). split.
           ++ cbn [fst snd]. apply addError_messages.
           ++ exists value. do 2 eexists. split; [exact Hstep | reflexivity].
    + apply bind_Done in H as (u & s3 & _ & H).
      unfold ret in H; inversion H; subst. exists ChildSkipped.
      split; [simpl; rewrite app_nil_r|]; reflexivity.
Qed.

Lemma assignStructFromStructBody_step (nf : string * fieldInfo)
  (st : fromStructState) (s : Sink) (st1 : fromStructState) (s1 : Sink) :
  assignStructFromStructBody E a targetKey sourceKey nf st s = Done (st1, s1) ->
  exists o, fromStructStep E a targetKey sourceKey nf st o st1.
Proof.
  destruct st as [[root sourceFields] errs], nf as [tfieldName targetField].
  unfold assignStructFromStructBody. intros H.
  destruct (lookupField sourceFields tfieldName) as [sourceField|] eqn:Hl.
  - apply bind_Done in H as (skip & s3 & _ & H). destruct skip.
    + unfold ret in H; inversion H; subst. exists ChildSkipped.
      split; [simpl; rewrite app_nil_r|]; reflexivity.
    + destruct (negb (fieldCanSet targetField)).
      * apply bind_Done in H as (u & s4 & _ & H).
        unfold ret in H; inversion H; subst. exists ChildSkipped.
        split; [simpl; rewrite app_nil_r|]; reflexivity.
      * apply bind_Done in H as ([y err] & s4 & Hstep & H).
        unfold ret in H; inversion H; subst.
        exists (ChildStepped y err). split.
        -- cbn [fst snd]. apply addError_messages.
        -- exists sourceField. do 2 eexists.
           split; [exact Hl|]. split; [exact Hstep | reflexivity].
  - apply bind_Done in H as (u & s3 & _ & H).
    unfold ret in H; inversion H; subst. exists ChildSkipped.
    split; [simpl; rewrite app_nil_r|]; reflexivity.
Qed.

End Steps.










(** ** Merging a map into a map *)


Lemma assoc_set_other (m : list (value * value)) (k v q : value) :
  q <> k -> assoc (assoc_set m k v) q = assoc m q.
Proof.
  intros Hq. induction m as [|[k' v'] r IH]; simpl.
  - apply value_eqb_neq in Hq.
    destruct (value_eqb k q) eqn:Hkq; [|reflexivity].
    apply value_eqb_eq in Hkq. subst. rewrite value_eqb_refl in Hq. discriminate.
  - destruct (value_eqb k' k) eqn:Hk; simpl.
    + apply value_eqb_eq in Hk; subst k'.
      assert (Hn : value_eqb k q = false) by (apply value_eqb_neq; congruence).
      rewrite Hn; reflexivity.
    + destruct (value_eqb k' q); [reflexivity | exact IH].
Qed.


Section MapChain.

Variable rt : GoRuntime.
Variable E : engine.
Variable a : assigner.
Variables tk sk : metaKey.
Variables kT eT : type.
Variable sourceVal : value.

Let R := mapStep rt E a tk sk kT eT sourceVal.






End MapChain.





(** ** Unexported fields *)

Lemma holds_fun fd y q ys q' ys' :
  holds fd y q ys -> holds fd y q' ys' -> q' = q /\ ys' = ys.
Proof.
  intros H1 H2. inversion H1; subst; inversion H2; subst; split; reflexivity.
Qed.

Lemma holds_get fd y q ys : holds fd y q ys -> get_path y q = Some ys.
Proof. intros H; inversion H; subst; reflexivity. Qed.

Lemma keeps_inv n fs w :
  keeps (VStruct n fs) w ->
  exists fs',
    w = VStruct n fs'
    /\ List.length fs' = List.length fs
    /\ forall k fd y, nth_error fs k = Some (fd, y) ->
         exists y',
           nth_error fs' k = Some (fd, y')
           /\ (IsExported fd = false -> y' = y)
           /\ (forall q ys, holds fd y q ys ->
                 exists ys', get_path y' q = Some ys' /\ keeps ys ys').
Proof.
  intros H. inversion H; subst.
  - exists fs. split; [reflexivity|]. split; [reflexivity|].
    intros k fd y Hk. exists y. split; [exact Hk|]. split; [reflexivity|].
    intros q ys Hh. exists ys. split; [apply (holds_get _ _ _ _ Hh)|].
    apply keeps_same.
  - exists fs'. split; [reflexivity|]. split; assumption.
Qed.

(** A write at a public location keeps the unexported fields. *)
Lemma keeps_write v p :
  publicLoc v p ->
  forall w x, keeps v w -> keeps v (set_at w (Some p) x).
Proof.
  induction 1 as [n fs k fd y r Hk He Hnh | n fs k fd y q ys r Hk He Hh Hp IH];
    intros w x Hkeep.
  - destruct (keeps_inv _ _ _ Hkeep) as (fs' & -> & Hlen & Hall).
    unfold set_at.
    destruct (set_path (VStruct n fs') (SField k :: r) x) as [w'|] eqn:Hset;
      [|exact Hkeep].
    destruct (set_path_field _ _ _ _ _ _ Hset) as (f & y0 & y0' & Hn & _ & ->).
    destruct (Hall k fd y Hk) as (y' & Hn' & _ & _).
    rewrite Hn' in Hn. inversion Hn; subst f y0.
    apply keeps_struct; [rewrite set_nth_length; exact Hlen|].
    intros k0 fd0 z Hk0. destruct (Nat.eq_dec k k0) as [<-|Hne].
    + rewrite Hk in Hk0. inversion Hk0; subst fd0 z.
      exists y0'. split; [eapply nth_error_set_nth_eq; exact Hn'|]. split.
      * intros Hf. rewrite Hf in He. discriminate He.
      * intros q ys Hq. exfalso. apply (Hnh q ys Hq).
    + rewrite nth_error_set_nth_neq by assumption. apply Hall. exact Hk0.
  - destruct (keeps_inv _ _ _ Hkeep) as (fs' & -> & Hlen & Hall).
    unfold set_at.
    destruct (set_path (VStruct n fs') (SField k :: q ++ r) x) as [w'|] eqn:Hset;
      [|exact Hkeep].
    destruct (set_path_field _ _ _ _ _ _ Hset) as (f & y0 & y0' & Hn & Hs & ->).
    destruct (Hall k fd y Hk) as (y' & Hn' & _ & Hemb).
    rewrite Hn' in Hn. inversion Hn; subst f y0.
    destruct (Hemb q ys Hh) as (ys' & Hget & Hkeeps).
    assert (Hnew : exists z, get_path y0' q = Some z
                             /\ z = set_at ys' (Some r) x).
    { inversion Hh; subst.
      - simpl in Hget. inversion Hget; subst ys'. simpl in Hs.
        exists y0'. split; [reflexivity|]. unfold set_at. rewrite Hs.
        reflexivity.
      - simpl in Hs, Hget. destruct y' as [| | | | | | | | |e' p'| | |];
          try discriminate Hget.
        destruct p' as [z0|]; [|discriminate Hget].
        inversion Hget; subst z0.
        destruct (set_path ys' r x) as [z|] eqn:Hz; [|discriminate Hs].
        inversion Hs; subst y0'. exists z. split; [reflexivity|].
        unfold set_at. rewrite Hz. reflexivity. }
    destruct Hnew as (z & Hgz & Hz).
    apply keeps_struct; [rewrite set_nth_length; exact Hlen|].
    intros k0 fd0 z0 Hk0. destruct (Nat.eq_dec k k0) as [<-|Hne].
    + rewrite Hk in Hk0. inversion Hk0; subst fd0 z0.
      exists y0'. split; [eapply nth_error_set_nth_eq; exact Hn'|]. split.
      * intros Hf. rewrite Hf in He. discriminate He.
      * intros q2 ys2 Hq2. destruct (holds_fun _ _ _ _ _ _ Hh Hq2) as [-> ->].
        exists z. split; [exact Hgz|]. subst z. apply IH. exact Hkeeps.
    + rewrite nth_error_set_nth_neq by assumption. apply Hall. exact Hk0.
Qed.

Lemma kept_exported (a : assigner) (fd : StructField) (v : value) :
  kept a fd v = true -> IsExported fd = true.
Proof.
  unfold kept. intros H. apply andb_true_iff in H. destruct H as [H _].
  apply andb_true_iff in H. apply H.
Qed.

Lemma struct_kind_cases (v : value) :
  reflect.kind_eqb (value_kind v) reflect.Struct = true ->
  (exists n fs, v = VStruct n fs) \/ (exists k n p, v = VOpaque k n p).
Proof.
  destruct v; try discriminate; try (destruct k; discriminate); intros _.
  - left. eauto.
  - right. eauto.
Qed.

Lemma publicLoc_struct v r :
  publicLoc v r -> exists n fs, v = VStruct n fs.
Proof. intros H; inversion H; subst; eauto. Qed.

(** The slot of a field of [it] that is kept: below it, every location is
    public when the field is captured, and the public locations of the
    struct it stands for are public when it is squashed. *)
Lemma slot_public (a : assigner) (val : value) (it : structItem) (i : nat)
  (fd : StructField) (v : value) :
  publicItem val it ->
  nth_error (struct_fields (sVal it)) i = Some (fd, v) ->
  kept a fd v = true ->
  forall p, slotOf it i fd v = Some p ->
    forall r,
      (if squashed fd v then publicLoc (peel fd v) r else True) ->
      publicLoc val (p ++ r).
Proof.
  intros HJ Hn Hk p Hp r Hr.
  pose proof (kept_exported a fd v Hk) as He.
  destruct (sVal it) as [| | | | | | | | | | |n fs|] eqn:Hv;
    try (destruct i; discriminate Hn).
  simpl in Hn.
  assert (Hsub : forall q0 p0, sLoc it = Some p0 ->
                   publicLoc (VStruct n fs) (SField i :: q0) ->
                   publicLoc val (p0 ++ SField i :: q0)).
  { intros q0 p0 Hl Hpl. apply (HJ p0 Hl). rewrite Hv. exact Hpl. }
  unfold slotOf, squashed, peel in *.
  destruct (Anonymous fd) eqn:Ha.
  - cbn [andb] in Hr.
    assert (Hplain :
              (forall tn tfs x, v <> VPtr (TStruct tn tfs) x) ->
              extend (sLoc it) [SField i] = Some p ->
              (if reflect.kind_eqb (value_kind v) reflect.Struct
               then publicLoc v r else True) ->
              publicLoc val (p ++ r)).
    { intros Hnp Hp' Hr'. destruct (sLoc it) as [p0|] eqn:Hl;
        [|discriminate Hp']. inversion Hp'; subst p.
      rewrite <- app_assoc. cbn [app]. apply Hsub; [reflexivity|].
      destruct (reflect.kind_eqb (value_kind v) reflect.Struct) eqn:Hkind.
      - destruct (publicLoc_struct _ _ Hr') as (n' & fs' & ->).
        apply (publicLoc_below n fs i fd (VStruct n' fs') [] (VStruct n' fs') r);
          try assumption. constructor. exact Ha.
      - apply (publicLoc_here n fs i fd v r); try assumption.
        intros q ys Hh. inversion Hh; subst.
        + discriminate Hkind.
        + eapply Hnp. reflexivity. }
    destruct v as [| | | | | | | | |e x| | |];
      try (apply Hplain; [intros tn tfs x0 Hx; discriminate Hx
                         | exact Hp | exact Hr]).
    destruct e as [ | | | | | | | | | | |tn tfs| ];
      try (apply Hplain; [intros tn0 tfs0 x0 Hx; discriminate Hx
                         | exact Hp | exact Hr]).
    destruct x as [x|].
    + destruct (sLoc it) as [p0|] eqn:Hl; [|discriminate Hp].
      cbn [extend] in Hp. inversion Hp; subst p.
      repeat rewrite <- app_assoc. cbn [app]. apply Hsub; [reflexivity|].
      destruct (reflect.kind_eqb (value_kind x) reflect.Struct) eqn:Hkind.
      * destruct (publicLoc_struct _ _ Hr) as (n' & fs' & ->).
        eapply (publicLoc_below n fs i fd _ [SDeref] (VStruct n' fs') r);
          [exact Hn | exact He | constructor; exact Ha | exact Hr].
      * eapply (publicLoc_here n fs i fd _ (SDeref :: r));
          [exact Hn | exact He |].
        intros q ys Hh. inversion Hh; subst. discriminate Hkind.
    + destruct (sCanSet it); [|discriminate Hp].
      destruct (sLoc it) as [p0|] eqn:Hl; [|discriminate Hp].
      cbn [extend] in Hp. inversion Hp; subst p.
      repeat rewrite <- app_assoc. cbn [app]. apply Hsub; [reflexivity|].
      eapply (publicLoc_here n fs i fd _ (SDeref :: r));
        [exact Hn | exact He |].
      intros q ys Hh. inversion Hh.
  - destruct (sLoc it) as [p0|] eqn:Hl; [|discriminate Hp].
    cbn [extend] in Hp. inversion Hp; subst p.
    rewrite <- app_assoc. cbn [app]. apply Hsub; [reflexivity|].
    apply (publicLoc_here n fs i fd v r); try assumption.
    intros q ys Hh. inversion Hh; subst; rewrite Ha in *; discriminate.
Qed.

Lemma flattenStruct_keeps (a : assigner) (canSet : bool) (val root : value)
  (fields : list (string * fieldInfo)) :
  flattenStruct a canSet val = Some (root, fields) ->
  keeps val root /\ Forall (publicEntry val) fields.
Proof.
  intros H.
  apply (flattenStruct_inv a (publicItem val) (publicEntry val) (keeps val))
    in H; [exact H | | | | | apply keeps_same].
  - intros it i fd v HJ Hn Hk Hs p Hp r Hr. cbn [sLoc sVal] in *.
    apply (slot_public a val it i fd v HJ Hn Hk p Hp r).
    rewrite Hs. exact Hr.
  - intros it i fd v HJ Hn Hk Hs. split.
    + apply (kept_exported a fd v Hk).
    + intros p Hp. cbn [snd entryOf fieldLoc] in Hp.
      rewrite <- (app_nil_r p).
      apply (slot_public a val it i fd v HJ Hn Hk p Hp []).
      rewrite Hs. exact I.
  - intros it i fd v root0 HJ Hn Hk Hs HR. unfold initOf.
    destruct (Anonymous fd) eqn:Ha; [|exact HR].
    destruct v as [| | | | | | | | |e x| | |]; try exact HR.
    destruct e as [ | | | | | | | | | | |tn tfs| ]; try exact HR.
    destruct x as [x|]; [exact HR|].
    destruct (sCanSet it) eqn:Hc; [|exact HR].
    destruct (sLoc it) as [p0|] eqn:Hl; [|exact HR].
    cbn [extend]. apply keeps_write; [|exact HR].
    destruct (sVal it) as [| | | | | | | | | | |n fs|] eqn:Hv;
      try (destruct i; discriminate Hn).
    simpl in Hn. apply (HJ p0 Hl). rewrite Hv.
    eapply (publicLoc_here n fs i fd _ []);
      [exact Hn | apply (kept_exported a fd _ Hk) |].
    intros q ys Hh. inversion Hh.
  - intros p Hp r Hr. cbn [sLoc sVal] in *. inversion Hp; subst p. exact Hr.
Qed.

Lemma keeps_private n fs w i fd v :
  keeps (VStruct n fs) w ->
  nth_error fs i = Some (fd, v) -> IsExported fd = false ->
  get_path w [SField i] = Some v.
Proof.
  intros Hk Hn He. destruct (keeps_inv _ _ _ Hk) as (fs' & -> & _ & Hall).
  destruct (Hall i fd v Hn) as (y' & Hn' & Hpriv & _).
  simpl. rewrite Hn', (Hpriv He). reflexivity.
Qed.

Lemma keeps_embedded n fs w i fd y q ys :
  keeps (VStruct n fs) w ->
  nth_error fs i = Some (fd, y) -> holds fd y q ys ->
  exists ys', get_path w (SField i :: q) = Some ys' /\ keeps ys ys'.
Proof.
  intros Hk Hn Hh. destruct (keeps_inv _ _ _ Hk) as (fs' & -> & _ & Hall).
  destruct (Hall i fd y Hn) as (y' & Hn' & _ & Hemb).
  destruct (Hemb q ys Hh) as (ys' & Hg & Hk').
  exists ys'. split; [|exact Hk']. simpl. rewrite Hn'. exact Hg.
Qed.

Section StructTargets.

Variable rt : GoRuntime.
Variable E : engine.
Variable a : assigner.
Variables tk sk : metaKey.

Lemma fromMapStep_root sourceVal nf st o st1 :
  fromMapStep E a tk sk sourceVal nf st o st1 ->
  fst (fst (fst st1)) = fst (fst (fst st))
  \/ exists y, fst (fst (fst st1))
               = set_at (fst (fst (fst st))) (fieldLoc (snd nf)) y.
Proof.
  intros [_ H]. destruct o as [|e|y err].
  - left; exact H.
  - left; exact H.
  - destruct H as (value & s & s' & _ & H). right. exists y. exact H.
Qed.

Lemma fromStructStep_root nf st o st1 :
  fromStructStep E a tk sk nf st o st1 ->
  fst (fst st1) = fst (fst st)
  \/ exists y, fst (fst st1) = set_at (fst (fst st)) (fieldLoc (snd nf)) y.
Proof.
  intros [_ H]. destruct o as [|e|y err].
  - left; exact H.
  - contradiction H.
  - destruct H as (sf & s & s' & _ & _ & H). right. exists y. exact H.
Qed.

Lemma set_at_keeps val root nf y fields :
  keeps val root -> Forall (publicEntry val) fields -> In nf fields ->
  keeps val (set_at root (fieldLoc (snd nf)) y).
Proof.
  intros Hk HF Hin. rewrite Forall_forall in HF.
  destruct (HF nf Hin) as [_ Hp].
  destruct (fieldLoc (snd nf)) as [p|] eqn:Hl; [|exact Hk].
  apply keeps_write; [apply Hp; reflexivity | exact Hk].
Qed.

Lemma assignStructFromMap_keeps canSet val sourceVal s t' err s' :
  assignStructFromMap rt E a canSet val tk sourceVal sk s
  = Done ((t', err), s') ->
  keeps val t'.
Proof.
  unfold assignStructFromMap. intros H.
  destruct (typeOf sourceVal) as [| | | | | | | |kT eT| | | |];
    try discriminate H.
  destruct (negb (reflect.kind_eqb (type_kind kT) reflect.String)
            && negb (reflect.kind_eqb (type_kind kT) reflect.Interface)).
  { unfold fail, ret in H. inversion H; subst. apply keeps_same. }
  apply bind_Done in H as ([root fields] & s1 & Hflat & H).
  apply bind_Done in H as ([[[root1 mk] unused] errors] & s2 & Hloop & H).
  apply bind_Done in H as (u & s3 & _ & H).
  unfold ret in H; inversion H; subst.
  unfold flattenTarget in Hflat.
  destruct (flattenStruct a canSet val) as [[r0 f0]|] eqn:Hf;
    [|discriminate Hflat].
  unfold ret in Hflat; inversion Hflat; subst.
  destruct (flattenStruct_keeps _ _ _ _ _ Hf) as [Hk HF].
  assert (Hstep : forall nf (st : fromMapState) s0 st1 s1',
             In nf (RangeOrder rt fields) ->
             keeps val (fst (fst (fst st))) ->
             assignStructFromMapBody rt E a tk sk sourceVal kT nf st s0
             = Done (st1, s1') ->
             keeps val (fst (fst (fst st1)))).
  { intros nf st s0 st1 s1' Hin HI Hbody.
    destruct (assignStructFromMapBody_step rt E a tk sk _ _ _ _ _ _ _ Hbody)
      as (o & Hstep).
    destruct (fromMapStep_root _ _ _ _ _ Hstep) as [->|(y & ->)]; [exact HI|].
    apply (set_at_keeps val _ nf y fields HI HF).
    eapply Permutation_in; [apply Permutation_sym, RangeOrder_perm | exact Hin]. }
  refine (forEach_invariant _
            (fun (st : fromMapState) (_ : Sink) =>
               keeps val (fst (fst (fst st))))
            _ Hstep _ _ _ _ _ Hloop).
  exact Hk.
Qed.

Lemma assignStructFromStruct_keeps canSet val sourceVal s t' err s' :
  assignStructFromStruct rt E a canSet val tk sourceVal sk s
  = Done ((t', err), s') ->
  keeps val t'.
Proof.
  unfold assignStructFromStruct. intros H.
  apply bind_Done in H as ([root fields] & s1 & Hflat & H).
  apply bind_Done in H as (sourceFields & s2 & _ & H).
  apply bind_Done in H as ([[root1 sf] errors] & s3 & Hloop & H).
  apply bind_Done in H as (u & s4 & _ & H).
  unfold ret in H; inversion H; subst.
  unfold flattenTarget in Hflat.
  destruct (flattenStruct a canSet val) as [[r0 f0]|] eqn:Hf;
    [|discriminate Hflat].
  unfold ret in Hflat; inversion Hflat; subst.
  destruct (flattenStruct_keeps _ _ _ _ _ Hf) as [Hk HF].
  assert (Hstep : forall nf (st : fromStructState) s0 st1 s1',
             In nf (RangeOrder rt fields) ->
             keeps val (fst (fst st)) ->
             assignStructFromStructBody E a tk sk nf st s0 = Done (st1, s1') ->
             keeps val (fst (fst st1))).
  { intros nf st s0 st1 s1' Hin HI Hbody.
    destruct (assignStructFromStructBody_step E a tk sk _ _ _ _ _ Hbody)
      as (o & Hstep).
    destruct (fromStructStep_root _ _ _ _ Hstep) as [->|(y & ->)]; [exact HI|].
    apply (set_at_keeps val _ nf y fields HI HF).
    eapply Permutation_in; [apply Permutation_sym, RangeOrder_perm | exact Hin]. }
  refine (forEach_invariant _
            (fun (st : fromStructState) (_ : Sink) => keeps val (fst (fst st)))
            _ Hstep _ _ _ _ _ Hloop).
  exact Hk.
Qed.

End StructTargets.

(** *** A struct decoded into a map *)

Lemma assignMapFromStructLoop_keys (rt : GoRuntime) (E : engine) (a : assigner)
  (kT eT : type) (tk sk : metaKey) (fields : list (string * fieldInfo)) :
  forall (entries : list (value * value)) (s : Sink)
         (entries' : list (value * value)) (err : option error) (s' : Sink),
    assignMapFromStructLoop rt E a kT eT tk sk fields entries s
    = Done ((entries', err), s') ->
    forall q, assoc entries' q <> assoc entries q ->
              exists nf, In nf fields /\ emits rt E a kT (snd nf) q.
Proof.
  induction fields as [|[n fi] rest IH]; intros entries s entries' err s' H q Hq.
  - simpl in H. unfold ret in H. inversion H; subst. contradiction Hq; reflexivity.
  - assert (Hnext : forall ent s0,
               assignMapFromStructLoop rt E a kT eT tk sk rest ent s0
               = Done ((entries', err), s') ->
               assoc ent q = assoc entries q ->
               exists nf, In nf ((n, fi) :: rest) /\ emits rt E a kT (snd nf) q).
    { intros ent s0 Hrun Heq. rewrite <- Heq in Hq.
      destruct (IH _ _ _ _ _ Hrun q Hq) as (nf & Hin & Hem).
      exists nf. split; [right; exact Hin | exact Hem]. }
    assert (Hset : forall keyVal kerr x s0 s1 s2,
               weakAssign rt E a true (Zero kT)
                 (Some (VString (actualName fi))) s0
               = Done ((keyVal, kerr), s1) ->
               assignMapFromStructLoop rt E a kT eT tk sk rest
                 (assoc_set entries keyVal x) s2
               = Done ((entries', err), s') ->
               exists nf, In nf ((n, fi) :: rest) /\ emits rt E a kT (snd nf) q).
    { intros keyVal kerr x s0 s1 s2 Hkey Hrun.
      destruct (value_eq_dec q keyVal) as [->|Hne].
      - exists (n, fi). split; [left; reflexivity|].
        exists s0, s1, kerr. exact Hkey.
      - apply (Hnext _ _ Hrun). apply assoc_set_other. exact Hne. }
    assert (Hstop : forall ent e0 s0,
               ret (ent, e0) s0 = Done ((entries', err), s') ->
               ent = entries ->
               exists nf, In nf ((n, fi) :: rest) /\ emits rt E a kT (snd nf) q).
    { intros ent e0 s0 Hr ->. unfold ret in Hr. inversion Hr; subst.
      contradiction Hq; reflexivity. }
    cbn [assignMapFromStructLoop] in H.
    destruct (negb (AssignableTo (typeOf (fieldVal fi)) eT));
      [eapply Hstop; [exact H | reflexivity]|].
    apply bind_Done in H as (skip & s1 & _ & H).
    destruct skip; [eapply Hnext; [exact H | reflexivity]|].
    apply bind_Done in H as ([keyVal kerr] & s2 & Hkey & H).
    assert (Hbody :
              (if reflect.kind_eqb (value_kind (fieldVal fi)) reflect.Struct
               then
                 if AssignableTo (typeOf (fieldVal fi)) eT
                 then
                   addMetaKey (newChild tk reflect.Map (actualName fi)) ;;;
                   assignMapFromStructLoop rt E a kT eT tk sk rest
                     (assoc_set entries keyVal
                        (store eT (Interface_ (fieldVal fi))))
                 else
                   if negb (AssignableTo
                              (typeOf (VMap TString TAny (Some []))) eT)
                   then
                     addMetaUnused
                       (newChild sk reflect.Struct (displayName fi)) ;;;
                     assignMapFromStructLoop rt E a kT eT tk sk rest entries
                   else
                     ' (child, err0) <-
                       e_assignMapFromStruct E a false
                         (VMap TString TAny (Some []))
                         (newChild tk reflect.Map (actualName fi))
                         (fieldVal fi)
                         (newChild sk reflect.Struct (displayName fi)) ;;
                     match err0 with
                     | Some e => ret (entries, Some e)
                     | None =>
                         addMetaKey
                           (newChild tk reflect.Map (actualName fi)) ;;;
                         assignMapFromStructLoop rt E a kT eT tk sk rest
                           (assoc_set entries keyVal (store eT (Some child)))
                     end
               else
                 if omitempty fi && isEmptyValue (fieldVal fi)
                 then
                   addMetaUnused
                     (newChild sk reflect.Struct (displayName fi)) ;;;
                   assignMapFromStructLoop rt E a kT eT tk sk rest entries
                 else
                   addMetaKey (newChild tk reflect.Map (actualName fi)) ;;;
                   assignMapFromStructLoop rt E a kT eT tk sk rest
                     (assoc_set entries keyVal
                        (store eT (Interface_ (fieldVal fi))))) s2
              = Done ((entries', err), s') ->
              exists nf, In nf ((n, fi) :: rest)
                         /\ emits rt E a kT (snd nf) q).
    { clear H. intros H.
      destruct (reflect.kind_eqb (value_kind (fieldVal fi)) reflect.Struct).
      - destruct (AssignableTo (typeOf (fieldVal fi)) eT).
        + apply bind_Done in H as (u & s3 & _ & H).
          eapply Hset; [exact Hkey | exact H].
        + destruct (negb (AssignableTo (typeOf (VMap TString TAny (Some []))) eT)).
          * apply bind_Done in H as (u & s3 & _ & H).
            eapply Hnext; [exact H | reflexivity].
          * apply bind_Done in H as ([child err0] & s3 & _ & H).
            destruct err0 as [e|];
              [eapply Hstop; [exact H | reflexivity]|].
            apply bind_Done in H as (u & s4 & _ & H).
            eapply Hset; [exact Hkey | exact H].
      - destruct (omitempty fi && isEmptyValue (fieldVal fi)).
        + apply bind_Done in H as (u & s3 & _ & H).
          eapply Hnext; [exact H | reflexivity].
        + apply bind_Done in H as (u & s3 & _ & H).
          eapply Hset; [exact Hkey | exact H]. }
    destruct (rev a); destruct kerr as [e|];
      try (apply Hbody; exact H).
    eapply Hstop; [exact H | reflexivity].
Qed.

(** C10. The flattener passes over an unexported field, so that every
    flattened field is exported.  When a struct is decoded from a map or
    from a struct, whatever the source holds and whatever the decoding of
    the fields returns, the result keeps the unexported fields: those of
    the struct itself and those of the structs embedded in it hold the
    values they held.  When a map is decoded from a struct, every entry of
    the map that is added or changed lies under the key that the name of an
    exported, flattened field converts to. *)
Theorem unexported_fields_untouched :
  forall (rt : GoRuntime) (E : engine) (a : assigner) (canSet : bool)
         (tk sk : metaKey) (s : Sink),
    (* the flattener passes over an unexported field *)
    (forall it i fd v st,
        IsExported fd = false -> flattenField a it i (fd, v) st = st)
    (* the flattened fields are exported *)
    /\ (forall val root fields n fi,
           flattenStruct a canSet val = Some (root, fields) ->
           In (n, fi) fields -> IsExported (field fi) = true)
    (* a struct decoded from a map or from a struct *)
    /\ (forall name fs sourceVal t' err s',
           assignStructFromMap rt E a canSet (VStruct name fs) tk sourceVal sk s
           = Done ((t', err), s')
           \/ assignStructFromStruct rt E a canSet (VStruct name fs) tk
                sourceVal sk s
              = Done ((t', err), s') ->
           keeps (VStruct name fs) t'
           /\ (forall i fd v,
                  nth_error fs i = Some (fd, v) -> IsExported fd = false ->
                  get_path t' [SField i] = Some v)
           /\ (forall i fd y q n2 fs2 j fd2 v2,
                  nth_error fs i = Some (fd, y) ->
                  holds fd y q (VStruct n2 fs2) ->
                  nth_error fs2 j = Some (fd2, v2) ->
                  IsExported fd2 = false ->
                  get_path t' (SField i :: q ++ [SField j]) = Some v2))
    (* a map decoded from a struct *)
    /\ (forall kT eT m sourceVal t' err s',
           assignMapFromStruct rt E a canSet (VMap kT eT m) tk sourceVal sk s
           = Done ((t', err), s') ->
           exists root fields entries',
             flattenStruct a false sourceVal = Some (root, fields)
             /\ t' = VMap kT eT (Some entries')
             /\ forall q,
                 assoc entries' q
                 <> assoc (match m with Some l => l | None => [] end) q ->
                 exists n fi,
                   In (n, fi) fields /\ IsExported (field fi) = true
                   /\ emits rt E a kT fi q).
Proof.
  intros rt E a canSet tk sk s. split; [|split; [|split]].
  - intros it i fd v [[root structs] fields] He.
    rewrite flattenField_eq. unfold kept. rewrite He. reflexivity.
  - intros val root fields n fi H Hin.
    destruct (flattenStruct_keeps _ _ _ _ _ H) as [_ HF].
    rewrite Forall_forall in HF. apply (HF (n, fi) Hin).
  - intros name fs sourceVal t' err s' H.
    assert (Hk : keeps (VStruct name fs) t').
    { destruct H as [H|H].
      - eapply assignStructFromMap_keeps; exact H.
      - eapply assignStructFromStruct_keeps; exact H. }
    split; [exact Hk|]. split.
    + intros i fd v Hn He. eapply keeps_private; eassumption.
    + intros i fd y q n2 fs2 j fd2 v2 Hn Hh Hn2 He.
      destruct (keeps_embedded _ _ _ _ _ _ _ _ Hk Hn Hh) as (ys' & Hg & Hk').
      change (SField i :: q ++ [SField j]) with ((SField i :: q) ++ [SField j]).
      rewrite get_path_app, Hg. eapply keeps_private; eassumption.
  - intros kT eT m sourceVal t' err s' H.
    unfold assignMapFromStruct in H.
    apply bind_Done in H as (entries & s1 & Hent & H).
    apply bind_Done in H as (sourceFields & s2 & Hflat & H).
    apply bind_Done in H as ([entries' err'] & s3 & Hloop & H).
    unfold ret in H; inversion H; subst.
    assert (Hentries : entries = match m with Some l => l | None => [] end).
    { destruct m.
      - unfold ret in Hent; inversion Hent; reflexivity.
      - apply bind_Done in Hent as (t & s4 & _ & Hent).
        unfold ret in Hent; inversion Hent; reflexivity. }
    subst entries. unfold flattenSource in Hflat.
    destruct (flattenStruct a false sourceVal) as [[root fields]|] eqn:Hf;
      [|discriminate Hflat].
    unfold ret in Hflat; inversion Hflat; subst.
    exists root, sourceFields, entries'.
    split; [reflexivity|]. split; [reflexivity|].
    intros q Hq.
    destruct (assignMapFromStructLoop_keys _ _ _ _ _ _ _ _ _ _ _ _ _ Hloop q Hq)
      as ([n fi] & Hin & Hem).
    assert (Hin' : In (n, fi) sourceFields)
      by (eapply Permutation_in;
          [apply Permutation_sym, RangeOrder_perm | exact Hin]).
    exists n, fi. split; [exact Hin'|]. split; [|exact Hem].
    destruct (flattenStruct_keeps _ _ _ _ _ Hf) as [_ HF].
    rewrite Forall_forall in HF. apply (HF (n, fi) Hin').
Qed.

(** Decoding {"name": "new", "secret": "leak"} into
    T{Name: "old", secret: "hidden"} leaves [secret] as it was. *)
Lemma unexported_fields_untouched_witness :
  get_path
    (VStruct "T"
       [(plainField "Name", VString "new");
        ({| Name := "secret"; PkgPath := "main"; Tag := [];
            Anonymous := false |}, VString "hidden")])
    [SField 1] = Some (VString "hidden").
Proof.
  refine (proj1 (proj2
            (proj1 (proj2 (proj2
               (unexported_fields_untouched sampleRuntime (eng sampleRuntime 2)
                  (defaultAssigner sampleRuntime Rev1) true "" "" None)))
               "T" privDemo privSource _ None None (or_introl _)))
            1%nat _ (VString "hidden") eq_refl eq_refl).
  vm_compute. reflexivity.
Defined.

(** ** Paths, tags and skip paths of the configuration *)

Lemma existsb_either_In (tk sk : string) (l : list string) :
  existsb (fun keyToSkip => String.eqb tk keyToSkip || String.eqb sk keyToSkip) l
  = true <-> In tk l \/ In sk l.
Proof.
  rewrite existsb_exists; split.
  - intros (x & Hin & Heq). apply orb_true_iff in Heq as [H|H];
      apply String.eqb_eq in H; subst; [left | right]; assumption.
  - intros [H|H]; [exists tk | exists sk]; (split; [assumption|]);
      rewrite String.eqb_refl; [reflexivity | apply orb_true_r].
Qed.

(** X1. shouldSkipKey always returns, and it answers true exactly when the
    target path and the source path are both non-empty and one of them is
    an entry of SkipKeys; a negative answer leaves the metadata as it was.
    Both revisions, for an assigner made by newAssigner. *)
Theorem shouldSkipKey_decides :
  forall (r : revision) (c : AssignConfig) (tk sk : metaKey) (s : Sink),
  exists (b : bool) (s' : Sink),
    shouldSkipKey (newAssigner r c) tk sk s = Done (b, s')
    /\ (b = true <->
        tk <> "" /\ sk <> "" /\ (In tk (SkipKeys c) \/ In sk (SkipKeys c)))
    /\ (b = false -> s' = s).
Proof.
  intros r c tk sk s. unfold shouldSkipKey.
  destruct (String.eqb tk "") eqn:Ht; [|destruct (String.eqb sk "") eqn:Hs].
  - exists false, s. split; [reflexivity|]. split; [|reflexivity].
    split; [discriminate|]. intros (H & _). apply String.eqb_eq in Ht. contradiction.
  - exists false, s. split; [reflexivity|]. split; [|reflexivity].
    split; [discriminate|]. intros (_ & H & _). apply String.eqb_eq in Hs. contradiction.
  - apply String.eqb_neq in Ht, Hs. cbn [orb].
    destruct r; cbn [rev newAssigner config skipKeysCache].
    + destruct (existsb _ (SkipKeys c)) eqn:He.
      * apply existsb_either_In in He.
        unfold addMetaUnused, addMetaUnset, bind, modify, ret.
        destruct (IsEmpty sk), (IsEmpty tk), s; eexists true, _;
          (split; [reflexivity|]); (split; [|discriminate]);
          split; auto.
      * exists false, s. split; [reflexivity|]. split; [|reflexivity].
        split; [discriminate|]. intros (_ & _ & H).
        apply existsb_either_In in H. congruence.
    + destruct (existsb (String.eqb tk) (SkipKeys c)) eqn:H1.
      * exists true, s. split; [reflexivity|]. split; [|discriminate].
        apply existsb_eqb_In in H1. split; auto.
      * destruct (existsb (String.eqb sk) (SkipKeys c)) eqn:H2.
        -- exists true, s. split; [reflexivity|]. split; [|discriminate].
           apply existsb_eqb_In in H2. split; auto.
        -- exists false, s. split; [reflexivity|]. split; [|reflexivity].
           split; [discriminate|]. intros (_ & _ & [H|H]);
             apply existsb_eqb_In in H; congruence.
Qed.

Lemma prefix_app (p x : string) : String.prefix p (p ++ x) = true.
Proof.
  induction p as [|c p IH]; simpl; [destruct x; reflexivity|].
  destruct (ascii_dec c c); [exact IH | congruence].
Qed.

Lemma prefix_refl (p : string) : String.prefix p p = true.
Proof.
  induction p as [|c p IH]; simpl; [reflexivity|].
  destruct (ascii_dec c c); [exact IH | congruence].
Qed.

Lemma append_nonempty (p x : string) : p <> "" -> (p ++ x)%string <> "".
Proof. destruct p; [congruence | discriminate]. Qed.

(** X2. The path of a child, for a parent kind other than Invalid: the
    name alone under an empty parent path, the parent path alone for an
    empty name, and otherwise the parent path followed by [name] under a
    map, an array or a slice and by .name under any other kind.  The
    parent path is a prefix of the child path, and the child path is empty
    only when the parent path and the name both are. *)
Theorem newChild_path :
  forall (k : metaKey) (parentKind : reflect.Kind) (name : string),
    parentKind <> reflect.Invalid ->
    (k = "" -> newChild k parentKind name = name)
    /\ (name = "" -> newChild k parentKind name = k)
    /\ (k <> "" -> name <> "" ->
        newChild k parentKind name = (k ++ childSuffix parentKind name)%string)
    /\ String.prefix k (newChild k parentKind name) = true
    /\ (newChild k parentKind name = "" <-> k = "" /\ name = "").
Proof.
  intros k parentKind name Hk.
  assert (Hn : negb (reflect.kind_num parentKind =? 0) = true).
  { destruct parentKind; try reflexivity. contradiction Hk; reflexivity. }
  unfold newChild, genFullKey. rewrite Hn.
  destruct (String.eqb k "") eqn:Ek; [apply String.eqb_eq in Ek; subst k|].
  - split; [reflexivity|]. split; [intros ->; reflexivity|].
    split; [congruence|]. split; [destruct name; reflexivity|].
    split; [intros ->; split; reflexivity | intros (_ & H); exact H].
  - apply String.eqb_neq in Ek.
    destruct (String.eqb name "") eqn:En; [apply String.eqb_eq in En; subst name|].
    + split; [congruence|]. split; [reflexivity|].
      split; [congruence|]. split; [apply prefix_refl|].
      split; [congruence | intros (H & _); exact H].
    + apply String.eqb_neq in En.
      assert (Hshape :
        match parentKind with
        | reflect.Map | reflect.Array | reflect.Slice => (k ++ "[" ++ name ++ "]")%string
        | _ => (k ++ "." ++ name)%string
        end = (k ++ childSuffix parentKind name)%string)
        by (destruct parentKind; reflexivity).
      rewrite Hshape.
      split; [congruence|]. split; [congruence|].
      split; [reflexivity|]. split; [apply prefix_app|].
      split; [|intros (H & _); congruence].
      intros H. exfalso. revert H. apply append_nonempty; exact Ek.
Qed.

Lemma newChild_path_witness :
  newChild "Vmap" reflect.Map "key" = "Vmap[key]"
  /\ newChild "Vfoo" reflect.Struct "Vbar" = "Vfoo.Vbar"
  /\ newChild "" reflect.Slice "0" = "0".
Proof.
  split; [|split].
  - apply (proj1 (proj2 (proj2 (newChild_path "Vmap" reflect.Map "key"
                                  ltac:(discriminate)))));
      discriminate.
  - apply (proj1 (proj2 (proj2 (newChild_path "Vfoo" reflect.Struct "Vbar"
                                  ltac:(discriminate)))));
      discriminate.
  - apply (proj1 (newChild_path "" reflect.Slice "0" ltac:(discriminate))).
    reflexivity.
Defined.

Lemma append_empty_r (s : string) : (s ++ "")%string = s.
Proof. induction s as [|c s IH]; simpl; [reflexivity | rewrite IH; reflexivity]. Qed.

Lemma append_assoc (s t u : string) :
  ((s ++ t) ++ u)%string = (s ++ (t ++ u))%string.
Proof. induction s as [|c s IH]; simpl; [reflexivity | rewrite IH; reflexivity]. Qed.

Lemma SplitComma_piece (p rest cur : string) :
  commaFree p = true ->
  SplitComma (p ++ rest) cur = SplitComma rest (cur ++ p).
Proof.
  revert cur. induction p as [|c p IH]; intros cur Hp; simpl.
  - rewrite append_empty_r. reflexivity.
  - simpl in Hp. apply andb_true_iff in Hp as (Hc & Hp).
    apply negb_true_iff in Hc. rewrite Hc. rewrite (IH _ Hp).
    f_equal. rewrite append_assoc. reflexivity.
Qed.

Lemma SplitComma_concat (p : string) (ps : list string) (cur : string) :
  forallb commaFree (p :: ps) = true ->
  SplitComma (String.concat "," (p :: ps)) cur = (cur ++ p)%string :: ps.
Proof.
  revert p cur. induction ps as [|q ps IH]; intros p cur H.
  - simpl in H. rewrite andb_true_r in H.
    replace (String.concat "," [p]) with (p ++ "")%string.
    + rewrite (SplitComma_piece _ _ _ H). reflexivity.
    + simpl. apply append_empty_r.
  - cbn [forallb] in H. apply andb_true_iff in H as (Hp & Hq).
    change (String.concat "," (p :: q :: ps))
      with (p ++ "," ++ String.concat "," (q :: ps))%string.
    rewrite (SplitComma_piece _ _ _ Hp).
    change ("," ++ String.concat "," (q :: ps))%string
      with (String.String ","%char (String.concat "," (q :: ps))).
    cbn [SplitComma]. rewrite Ascii.eqb_refl.
    rewrite (IH q "" Hq). reflexivity.
Qed.

(** X3. parseTag on a tag value made of the comma-separated pieces
    p, ps: the name is the converted field name when p is empty, p itself
    when p is neither empty nor "-", and for "-" the converted field name
    under IncludeIgnoreFields and the empty name with the skip flag
    otherwise; omitempty is set exactly when one of the pieces, the first
    one included, is "omitempty". *)
Theorem parseTag_pieces :
  forall (a : assigner) (fd : StructField) (p : string) (ps : list string),
    TagGet (Tag fd) (TagName (config a)) = String.concat "," (p :: ps) ->
    forallb commaFree (p :: ps) = true ->
    parseTag a fd
    = (if String.eqb p "" then Converter (config a) (Name fd)
       else if String.eqb p "-"
            then (if IncludeIgnoreFields (config a)
                  then Converter (config a) (Name fd) else "")
            else p,
       existsb (String.eqb "omitempty") (p :: ps),
       String.eqb p "-" && negb (IncludeIgnoreFields (config a))).
Proof.
  intros a fd p ps Htag Hfree. unfold parseTag. rewrite Htag.
  rewrite (SplitComma_concat p ps "" Hfree). cbn [append].
  destruct (String.eqb p "") eqn:E1.
  - apply String.eqb_eq in E1; subst p. reflexivity.
  - destruct (String.eqb p "-") eqn:E2; [|reflexivity].
    destruct (IncludeIgnoreFields (config a)); reflexivity.
Qed.

Lemma parseTag_pieces_witness :
  parseTag (defaultAssigner sampleRuntime Rev1)
    (mkField "Vfoo" "" [("json", "omitempty")] false)
  = ("omitempty", true, false)
  /\ parseTag (defaultAssigner sampleRuntime Rev2)
       (mkField "Vfoo" "" [("json", "-,omitempty")] false)
     = ("", true, true)
  /\ parseTag (defaultAssigner sampleRuntime Rev2)
       (mkField "Vfoo" "" [("json", ",omitempty")] false)
     = ("vfoo", true, false).
Proof.
  split; [|split].
  - apply (parseTag_pieces (defaultAssigner sampleRuntime Rev1)
             (mkField "Vfoo" "" [("json", "omitempty")] false) "omitempty" []);
      reflexivity.
  - apply (parseTag_pieces (defaultAssigner sampleRuntime Rev2)
             (mkField "Vfoo" "" [("json", "-,omitempty")] false)
             "-" ["omitempty"]); reflexivity.
  - apply (parseTag_pieces (defaultAssigner sampleRuntime Rev2)
             (mkField "Vfoo" "" [("json", ",omitempty")] false)
             "" ["omitempty"]); reflexivity.
Defined.

(** ** Scalar targets *)

(** [assign] on a present source that is neither skipped nor found equal
    to the target comes down to the handler of the target's kind. *)
Lemma assign_dispatch (rt : GoRuntime) (E : engine) (a : assigner)
  (canSet : bool) (t : value) (tk sk : metaKey) (sv : value) (s : Sink) :
  shouldSkipKey a tk sk s = Done (false, s) ->
  (forall e, sv <> VPtr e None) ->
  (SkipSameValues (config a)
   && DeepEqual rt (Interface_ t) (Interface_ sv))%bool = false ->
  assign rt E a canSet t tk (Some sv) sk s
  = match dispatch rt E a canSet t tk (unwrapped a (Some sv)) sk with
    | None =>
        Done ((t, Some (ErrorNew (MsgUnsupportedType tk (value_kind t)))), s)
    | Some h =>
        bind h (fun x =>
                  match x with
                  | (addKey, (t', err)) =>
                      bind (if addKey && match rev a with
                                         | Rev1 => true
                                         | Rev2 => is_none err
                                         end
                            then addMetaKey tk else ret tt)
                        (fun _ => ret (t', err))
                  end) s
    end.
Proof.
  intros Hskip Hpresent Hsame. unfold assign. rewrite (bind_Done_eq _ Hskip).
  destruct sv; try (destruct p; [|exfalso; eapply Hpresent; reflexivity]);
    cbv iota beta; rewrite Hsame; unfold unwrapped;
    destruct (rev a); destruct (dispatch _ _ _ _ _ _ _ _); reflexivity.
Qed.

Lemma shouldSkipKey_root (a : assigner) (sk : metaKey) (s : Sink) :
  shouldSkipKey a "" sk s = Done (false, s).
Proof. reflexivity. Qed.

(** X13. A target of a kind that assign has no case for (complex64,
    complex128, chan, unsafe.Pointer, and uintptr in the first revision),
    with a source that is present, not skipped and not found equal, gives
    the "unsupported type" error; the target and the metadata stay as they
    were. *)
Theorem assign_unsupported_kind :
  forall (rt : GoRuntime) (E : engine) (a : assigner) (canSet : bool)
         (t : value) (tk sk : metaKey) (sv : value) (s : Sink),
    shouldSkipKey a tk sk s = Done (false, s) ->
    (forall e, sv <> VPtr e None) ->
    (SkipSameValues (config a)
     && DeepEqual rt (Interface_ t) (Interface_ sv))%bool = false ->
    In (value_kind t) [reflect.Complex64; reflect.Complex128; reflect.Chan;
                       reflect.UnsafePointer]
    \/ (rev a = Rev1 /\ value_kind t = reflect.Uintptr) ->
    assign rt E a canSet t tk (Some sv) sk s
    = Done ((t, Some (ErrorNew (MsgUnsupportedType tk (value_kind t)))), s).
Proof.
  intros rt E a canSet t tk sk sv s Hskip Hpresent Hsame Hkind.
  rewrite (assign_dispatch rt E a canSet t tk sk sv s Hskip Hpresent Hsame).
  assert (Hd : dispatch rt E a canSet t tk (unwrapped a (Some sv)) sk = None).
  { unfold dispatch.
    destruct Hkind as [Hin | (Hrev & Hk)].
    - assert (Hg : getKind t = value_kind t).
      { unfold getKind. simpl in Hin.
        destruct Hin as [H|[H|[H|[H|[]]]]]; rewrite <- H; reflexivity. }
      rewrite Hg. simpl in Hin.
      destruct Hin as [H|[H|[H|[H|[]]]]]; rewrite <- H; destruct (rev a); reflexivity.
    - rewrite Hrev. unfold getKind. rewrite Hk. reflexivity. }
  rewrite Hd. reflexivity.
Qed.

Lemma assign_unsupported_kind_witness :
  assign sampleRuntime (eng sampleRuntime 0) (defaultAssigner sampleRuntime Rev2)
    true (VOpaque reflect.Complex128 "complex128" None) "Vc"
    (Some (VInt KInt 1)) "vc" None
  = Done ((VOpaque reflect.Complex128 "complex128" None,
           Some (ErrorNew (MsgUnsupportedType "Vc" reflect.Complex128))), None)
  /\ assign sampleRuntime (eng sampleRuntime 0)
       (defaultAssigner sampleRuntime Rev1)
       true (VUint KUintptr 0) "Vp" (Some (VUint KUint 1)) "vp" None
     = Done ((VUint KUintptr 0,
              Some (ErrorNew (MsgUnsupportedType "Vp" reflect.Uintptr))), None).
Proof.
  split.
  - apply (assign_unsupported_kind sampleRuntime (eng sampleRuntime 0)
             (defaultAssigner sampleRuntime Rev2) true
             (VOpaque reflect.Complex128 "complex128" None) "Vc" "vc"
             (VInt KInt 1) None eq_refl
             (fun e H => ltac:(discriminate H)) eq_refl).
    left. simpl. right; left; reflexivity.
  - apply (assign_unsupported_kind sampleRuntime (eng sampleRuntime 0)
             (defaultAssigner sampleRuntime Rev1) true
             (VUint KUintptr 0) "Vp" "vp"
             (VUint KUint 1) None eq_refl
             (fun e H => ltac:(discriminate H)) eq_refl).
    right. split; reflexivity.
Defined.

(** X14. With SkipSameValues, a present source that is DeepEqual to the
    target is not assigned: assign returns without an error and with the
    target as it was, the source path is reported as unused and the target
    path as unset (when both are non-empty), and Keys stays as it was. *)
Theorem assign_skips_same_value :
  forall (rt : GoRuntime) (E : engine) (a : assigner) (canSet : bool)
         (t : value) (tk sk : metaKey) (sv : value) (s : Sink),
    shouldSkipKey a tk sk s = Done (false, s) ->
    (forall e, sv <> VPtr e None) ->
    SkipSameValues (config a) = true ->
    DeepEqual rt (Interface_ t) (Interface_ sv) = true ->
    exists s',
      assign rt E a canSet t tk (Some sv) sk s = Done ((t, None), s')
      /\ (tk <> "" -> sk <> "" -> s' = recordSkip tk sk s)
      /\ (forall m', s' = Some m' ->
                     exists m, s = Some m /\ Keys m' = Keys m).
Proof.
  intros rt E a canSet t tk sk sv s Hskip Hpresent Hon Heq.
  assert (H : assign rt E a canSet t tk (Some sv) sk s
              = bind (addMetaUnused sk) (fun _ =>
                  bind (addMetaUnset tk) (fun _ => ret (t, None))) s).
  { unfold assign. rewrite (bind_Done_eq _ Hskip).
    destruct sv; try (destruct p; [|exfalso; eapply Hpresent; reflexivity]);
      cbv iota beta; rewrite Hon, Heq; reflexivity. }
  rewrite H. unfold addMetaUnused, addMetaUnset, IsEmpty.
  destruct (String.eqb sk "") eqn:Hsk, (String.eqb tk "") eqn:Htk;
    unfold bind, modify, ret, recordSkip; destruct s as [m|];
    eexists; (split; [reflexivity|]); (split; [intros Ht Hs|]);
    try (apply String.eqb_eq in Hsk; contradiction);
    try (apply String.eqb_eq in Htk; contradiction);
    try reflexivity;
    intros m' Hm'; inversion Hm'; subst; eexists; split; reflexivity.
Qed.

Lemma assign_skips_same_value_witness :
  exists s',
    assign sampleRuntime (eng sampleRuntime 0)
      (newAssigner Rev2 sameDemoConfig) true (VInt KInt 7) "Vint"
      (Some (VInt KInt 7)) "vint" (Some (mkMetadata [] [] []))
    = Done ((VInt KInt 7, None), s')
    /\ ("Vint" <> "" -> "vint" <> "" ->
        s' = recordSkip "Vint" "vint" (Some (mkMetadata [] [] [])))
    /\ (forall m', s' = Some m' ->
                   exists m, Some (mkMetadata [] [] []) = Some m
                             /\ Keys m' = Keys m).
Proof.
  apply (assign_skips_same_value sampleRuntime (eng sampleRuntime 0)
           (newAssigner Rev2 sameDemoConfig) true (VInt KInt 7) "Vint" "vint"
           (VInt KInt 7) (Some (mkMetadata [] [] [])) eq_refl
           (fun e H => ltac:(discriminate H)) eq_refl eq_refl).
Defined.

Ltac split_all :=
  repeat (match goal with
          | H : Done _ = Done _ |- _ => inversion H; subst; clear H
          | H : context [match ?x with _ => _ end] |- _ =>
              destruct x eqn:?; cbv beta iota in *; try discriminate
          | H : context [if ?b then _ else _] |- _ =>
              destruct b eqn:?; cbv beta iota in *; try discriminate
          end).

(** What the scalar handlers do to the sink. *)
Lemma scalar_frame (rt : GoRuntime) (h : handler) :
  scalarHandler rt h ->
  forall (a : assigner) (canSet : bool) (targetVal : value)
         (tk sk : metaKey) (source : option value) (s s' : Sink)
         (t : value) (err : option error),
    h a canSet targetVal tk source sk s = Done ((t, err), s') ->
    s' = s /\ (err <> None -> t = targetVal).
Proof.
  intros Hh a canSet targetVal tk sk source s s' t err H.
  destruct Hh;
    [ unfold assignBool in H | unfold assignString in H
    | unfold assignInt in H | unfold assignUint in H
    | unfold assignFloat, setFloatValue in H | unfold assignFunc in H ];
    unfold ok, fail, SetBool, SetString, SetInt, SetUint, SetFloat, Set_,
      bind, ret, panic in H;
    destruct (Indirect source) as [sourceVal|]; try discriminate H;
    cbv beta iota zeta in H;
    split_all; (split; [reflexivity|]); intros X; try reflexivity;
    exfalso; apply X; reflexivity.
Qed.

(** X4. The handlers of the scalar kinds (assignBool, assignString,
    assignInt, assignUint, assignFloat and assignFunc) leave the metadata as
    it was, and a handler that returns an error leaves the target as it
    was. *)
Theorem scalar_handlers_fail_atomically :
  forall (rt : GoRuntime) (h : handler),
    scalarHandler rt h ->
    forall (a : assigner) (canSet : bool) (targetVal : value)
           (tk sk : metaKey) (source : option value) (s s' : Sink)
           (t : value) (err : option error),
      h a canSet targetVal tk source sk s = Done ((t, err), s') ->
      s' = s /\ (err <> None -> t = targetVal).
Proof. intros rt h Hh. exact (scalar_frame rt h Hh). Qed.

Lemma scalar_handlers_fail_atomically_witness :
  assignString sampleRuntime (defaultAssigner sampleRuntime Rev2) true
    (VString "old") "Vs" (Some (VInt KInt 7)) "vs" (Some (mkMetadata [] [] []))
  = Done ((VString "old",
           Some (unconvertible (defaultAssigner sampleRuntime Rev2)
                   (VString "old") "Vs" (Some (VInt KInt 7)) (VInt KInt 7))),
          Some (mkMetadata [] [] []))
  /\ (Some (mkMetadata [] [] []) = Some (mkMetadata [] [] [])
      /\ (Some (unconvertible (defaultAssigner sampleRuntime Rev2)
                  (VString "old") "Vs" (Some (VInt KInt 7)) (VInt KInt 7))
          <> None -> VString "old" = VString "old")).
Proof.
  split; [reflexivity|].
  apply (scalar_handlers_fail_atomically sampleRuntime
           (assignString sampleRuntime) (scalar_string sampleRuntime)
           (defaultAssigner sampleRuntime Rev2) true (VString "old")
           "Vs" "vs" (Some (VInt KInt 7))).
  reflexivity.
Defined.

Lemma sourceKind_bool (a : assigner) (v : value) :
  reflect.kind_eqb (sourceKindOf a (Some v)) reflect.Bool = true
  <-> value_kind v = reflect.Bool.
Proof.
  rewrite kind_eqb_eq. unfold sourceKindOf, getKind.
  destruct (rev a); [|reflexivity].
  destruct v; try destruct k; cbn; split; intros H; try reflexivity;
    try discriminate H; try exact H.
  all: try (destruct k0; cbn in *; congruence).
Qed.

Lemma sourceKind_string (a : assigner) (v : value) :
  reflect.kind_eqb (sourceKindOf a (Some v)) reflect.String = true
  <-> value_kind v = reflect.String.
Proof.
  rewrite kind_eqb_eq. unfold sourceKindOf, getKind.
  destruct (rev a); [|reflexivity].
  destruct v; try destruct k; cbn; split; intros H; try reflexivity;
    try discriminate H; try exact H.
  all: try (destruct k0; cbn in *; congruence).
Qed.

Lemma sourceKind_uint (a : assigner) (ku : UintKind) (u : Z) :
  ku <> KUintptr ->
  kindIsInt a (sourceKindOf a (Some (VUint ku u))) = false
  /\ kindIsUint a (sourceKindOf a (Some (VUint ku u))) = true.
Proof.
  intros H. unfold kindIsInt, kindIsUint, sourceKindOf.
  destruct (rev a), ku; try (contradiction H; reflexivity); split; reflexivity.
Qed.

Lemma sourceKind_uintptr (a : assigner) (u : Z) :
  kindIsInt a (sourceKindOf a (Some (VUint KUintptr u))) = false
  /\ kindIsUint a (sourceKindOf a (Some (VUint KUintptr u))) = false
  /\ kindIsFloat a (sourceKindOf a (Some (VUint KUintptr u))) = false.
Proof.
  unfold kindIsInt, kindIsUint, kindIsFloat, sourceKindOf.
  destruct (rev a); repeat split; reflexivity.
Qed.

Lemma sourceKind_string_value (a : assigner) (str : string) :
  kindIsInt a (sourceKindOf a (Some (VString str))) = false
  /\ kindIsUint a (sourceKindOf a (Some (VString str))) = false
  /\ kindIsFloat a (sourceKindOf a (Some (VString str))) = false.
Proof.
  unfold kindIsInt, kindIsUint, kindIsFloat, sourceKindOf.
  destruct (rev a); repeat split; reflexivity.
Qed.

Lemma sourceKind_bool_value (a : assigner) (b : bool) :
  kindIsInt a (sourceKindOf a (Some (VBool b))) = false
  /\ kindIsUint a (sourceKindOf a (Some (VBool b))) = false
  /\ kindIsFloat a (sourceKindOf a (Some (VBool b))) = false.
Proof.
  unfold kindIsInt, kindIsUint, kindIsFloat, sourceKindOf.
  destruct (rev a); repeat split; reflexivity.
Qed.

(** X5. assignBool.  A bool source is copied.  In strict mode every
    other source is refused with the target kept.  In weak mode an integer,
    an unsigned integer other than a uintptr and a float give "source is not
    zero"; a string goes through ParseBool, the empty string counts as false
    and any other string that does not parse is an error, reported under
    the target path in the first revision and under the source path in the
    rewrite.  A uintptr source is refused in both modes. *)
Theorem assignBool_conversions :
  forall (a : assigner) (b0 : bool) (tk sk : metaKey)
         (source : option value) (sv : value) (s : Sink),
    Indirect source = Some sv ->
    (forall b, sv = VBool b ->
       assignBool a true (VBool b0) tk source sk s = Done ((VBool b, None), s))
    /\ (weak a = false -> value_kind sv <> reflect.Bool ->
        forall canSet,
          assignBool a canSet (VBool b0) tk source sk s
          = Done ((VBool b0, Some (unconvertible a (VBool b0) tk source sv)), s))
    /\ (weak a = true ->
        (forall ki i, sv = VInt ki i ->
           assignBool a true (VBool b0) tk source sk s
           = Done ((VBool (negb (i =? 0)), None), s))
        /\ (forall ku u, sv = VUint ku u -> ku <> KUintptr ->
            assignBool a true (VBool b0) tk source sk s
            = Done ((VBool (negb (u =? 0)), None), s))
        /\ (forall kf f, sv = VFloat kf f ->
            assignBool a true (VBool b0) tk source sk s
            = Done ((VBool (negb (float_is_zero f)), None), s))
        /\ (forall str, sv = VString str ->
            assignBool a true (VBool b0) tk source sk s
            = match ParseBool str with
              | Some b => Done ((VBool b, None), s)
              | None =>
                  if String.eqb str "" then Done ((VBool false, None), s)
                  else Done ((VBool b0,
                              Some (ErrorNew
                                      (MsgCannotParse
                                         (match rev a with
                                          | Rev1 => tk
                                          | Rev2 => sk
                                          end) "bool" str))), s)
              end)
        /\ (forall u canSet, sv = VUint KUintptr u ->
            assignBool a canSet (VBool b0) tk source sk s
            = Done ((VBool b0, Some (unconvertible a (VBool b0) tk source sv)),
                    s))).
Proof.
  intros a b0 tk sk source sv s Hsrc.
  split; [|split].
  - intros b ->. unfold assignBool. rewrite Hsrc.
    destruct (rev a) eqn:Hr; unfold sourceKindOf; rewrite Hr; reflexivity.
  - intros Hweak Hkind canSet. unfold assignBool. rewrite Hsrc. cbv zeta.
    destruct (reflect.kind_eqb (sourceKindOf a (Some sv)) reflect.Bool) eqn:Hb.
    + apply sourceKind_bool in Hb. contradiction.
    + rewrite Hweak. rewrite !andb_false_r. reflexivity.
  - intros Hweak. split; [|split; [|split; [|split]]].
    + intros ki i ->. unfold assignBool. rewrite Hsrc. cbv zeta.
      rewrite sourceKind_int, Hweak.
      destruct (rev a) eqn:Hr; unfold sourceKindOf; rewrite Hr;
        destruct ki; reflexivity.
    + intros ku u -> Hku. unfold assignBool. rewrite Hsrc. cbv zeta.
      destruct (sourceKind_uint a ku u Hku) as (Hi & Hu).
      rewrite Hi, Hu, Hweak.
      destruct (rev a) eqn:Hr; unfold sourceKindOf; rewrite Hr;
        destruct ku; try reflexivity; contradiction Hku; reflexivity.
    + intros kf f ->. unfold assignBool. rewrite Hsrc. cbv zeta.
      destruct (sourceKind_float a kf f) as (Hi & Hu & Hf).
      rewrite Hi, Hu, Hf, Hweak.
      destruct (rev a) eqn:Hr; unfold sourceKindOf; rewrite Hr;
        destruct kf; reflexivity.
    + intros str ->. unfold assignBool. rewrite Hsrc. cbv zeta.
      destruct (sourceKind_string_value a str) as (Hi & Hu & Hf).
      rewrite Hi, Hu, Hf, Hweak.
      assert (Hs : reflect.kind_eqb (sourceKindOf a (Some (VString str)))
                     reflect.String = true)
        by (apply sourceKind_string; reflexivity).
      assert (Hb : reflect.kind_eqb (sourceKindOf a (Some (VString str)))
                     reflect.Bool = false).
      { destruct (reflect.kind_eqb _ reflect.Bool) eqn:E; [|reflexivity].
        apply sourceKind_bool in E. discriminate E. }
      rewrite Hs, Hb. cbn [andb String_].
      destruct (ParseBool str); [reflexivity|].
      destruct (String.eqb str ""); reflexivity.
    + intros u canSet ->. unfold assignBool. rewrite Hsrc. cbv zeta.
      destruct (sourceKind_uintptr a u) as (Hi & Hu & Hf).
      rewrite Hi, Hu, Hf.
      destruct (rev a) eqn:Hr; unfold sourceKindOf; rewrite Hr; reflexivity.
Qed.

Lemma assignBool_conversions_witness :
  assignBool (weakAssigner sampleRuntime Rev2) true (VBool false) "Vb"
    (Some (VString "maybe")) "vb" None
  = Done ((VBool false, Some (ErrorNew (MsgCannotParse "vb" "bool" "maybe"))),
          None)
  /\ assignBool (weakAssigner sampleRuntime Rev1) true (VBool false) "Vb"
       (Some (VInt KInt8 (-3))) "vb" None
     = Done ((VBool true, None), None)
  /\ assignBool (defaultAssigner sampleRuntime Rev1) true (VBool true) "Vb"
       (Some (VInt KInt 0)) "vb" None
     = Done ((VBool true,
              Some (unconvertible (defaultAssigner sampleRuntime Rev1)
                      (VBool true) "Vb" (Some (VInt KInt 0)) (VInt KInt 0))),
             None).
Proof.
  split; [|split].
  - pose proof (assignBool_conversions (weakAssigner sampleRuntime Rev2) false
                  "Vb" "vb" (Some (VString "maybe")) (VString "maybe") None
                  eq_refl) as (_ & _ & H).
    destruct (H eq_refl) as (_ & _ & _ & Hstr & _).
    exact (Hstr "maybe" eq_refl).
  - pose proof (assignBool_conversions (weakAssigner sampleRuntime Rev1) false
                  "Vb" "vb" (Some (VInt KInt8 (-3))) (VInt KInt8 (-3)) None
                  eq_refl) as (_ & _ & H).
    destruct (H eq_refl) as (Hint & _).
    exact (Hint KInt8 (-3) eq_refl).
  - pose proof (assignBool_conversions (defaultAssigner sampleRuntime Rev1) true
                  "Vb" "vb" (Some (VInt KInt 0)) (VInt KInt 0) None
                  eq_refl) as (_ & H & _).
    apply (H eq_refl). discriminate.
Defined.

Lemma sourceKind_not_bool (a : assigner) (v : value) :
  value_kind v <> reflect.Bool ->
  reflect.kind_eqb (sourceKindOf a (Some v)) reflect.Bool = false.
Proof.
  intros H. destruct (reflect.kind_eqb _ reflect.Bool) eqn:E; [|reflexivity].
  apply sourceKind_bool in E. contradiction.
Qed.

Lemma sourceKind_not_string (a : assigner) (v : value) :
  value_kind v <> reflect.String ->
  reflect.kind_eqb (sourceKindOf a (Some v)) reflect.String = false.
Proof.
  intros H. destruct (reflect.kind_eqb _ reflect.String) eqn:E; [|reflexivity].
  apply sourceKind_string in E. contradiction.
Qed.

Lemma sourceKind_sequence (a : assigner) (v : value) :
  value_kind v = reflect.Slice \/ value_kind v = reflect.Array ->
  sourceKindOf a (Some v) = value_kind v.
Proof.
  intros H. unfold sourceKindOf, getKind. destruct (rev a); [|reflexivity].
  destruct H as [H|H]; rewrite H; reflexivity.
Qed.

(** X6. assignString.  A string or json.Number source is copied.  In
    strict mode every other source is refused with the target kept.  In
    weak mode a bool gives "1" or "0", an integer and an unsigned integer
    other than a uintptr their decimal digits, a float FormatFloat, a slice
    or array of bytes the string of these bytes (the empty string for a nil
    slice); a slice or array of another element type is refused. *)
Theorem assignString_conversions :
  forall (rt : GoRuntime) (a : assigner) (s0 : string) (tk sk : metaKey)
         (source : option value) (sv : value) (s : Sink),
    Indirect source = Some sv ->
    (forall str, sv = VString str \/ sv = VNumber str ->
     assignString rt a true (VString s0) tk source sk s
     = Done ((VString str, None), s))
    /\ (weak a = false -> value_kind sv <> reflect.String ->
        forall canSet,
          assignString rt a canSet (VString s0) tk source sk s
          = Done ((VString s0, Some (unconvertible a (VString s0) tk source sv)),
                  s))
    /\ (weak a = true ->
        (forall b, sv = VBool b ->
           assignString rt a true (VString s0) tk source sk s
           = Done ((VString (if b then "1" else "0"), None), s))
        /\ (forall ki i, sv = VInt ki i ->
            assignString rt a true (VString s0) tk source sk s
            = Done ((VString (FormatInt i), None), s))
        /\ (forall ku u, sv = VUint ku u -> ku <> KUintptr ->
            assignString rt a true (VString s0) tk source sk s
            = Done ((VString (FormatInt u), None), s))
        /\ (forall kf f, sv = VFloat kf f ->
            assignString rt a true (VString s0) tk source sk s
            = Done ((VString (FormatFloat rt f), None), s))
        /\ (forall l, sv = VSlice (TUint KUint8) (Some l)
                      \/ sv = VArray (TUint KUint8) l
                      \/ (sv = VSlice (TUint KUint8) None /\ l = []) ->
            assignString rt a true (VString s0) tk source sk s
            = Done ((VString (bytes_string l), None), s))
        /\ (forall e l canSet, sv = VSlice e l \/ (exists l', sv = VArray e l') ->
            e <> TUint KUint8 ->
            assignString rt a canSet (VString s0) tk source sk s
            = Done ((VString s0,
                     Some (unconvertible a (VString s0) tk source sv)), s))).
Proof.
  intros rt a s0 tk sk source sv s Hsrc.
  split; [|split].
  - intros str Hsv. unfold assignString. rewrite Hsrc. cbv zeta.
    assert (Hk : value_kind sv = reflect.String)
      by (destruct Hsv as [-> | ->]; reflexivity).
    apply (proj2 (sourceKind_string a sv)) in Hk. rewrite Hk.
    destruct Hsv as [-> | ->]; reflexivity.
  - intros Hweak Hk canSet. unfold assignString. rewrite Hsrc. cbv zeta.
    rewrite (sourceKind_not_string a sv Hk), Hweak, !andb_false_r. reflexivity.
  - intros Hweak. split; [|split; [|split; [|split; [|split]]]].
    + intros b ->. unfold assignString. rewrite Hsrc. cbv zeta.
      rewrite sourceKind_not_string by discriminate.
      assert (Hb : reflect.kind_eqb (sourceKindOf a (Some (VBool b))) reflect.Bool
                   = true) by (apply sourceKind_bool; reflexivity).
      rewrite Hb, Hweak. reflexivity.
    + intros ki i ->. unfold assignString. rewrite Hsrc. cbv zeta.
      rewrite sourceKind_not_string by (destruct ki; discriminate).
      rewrite sourceKind_not_bool by (destruct ki; discriminate).
      rewrite sourceKind_int, Hweak. reflexivity.
    + intros ku u -> Hku. unfold assignString. rewrite Hsrc. cbv zeta.
      rewrite sourceKind_not_string by (destruct ku; discriminate).
      rewrite sourceKind_not_bool by (destruct ku; discriminate).
      destruct (sourceKind_uint a ku u Hku) as (Hi & Hu).
      rewrite Hi, Hu, Hweak. reflexivity.
    + intros kf f ->. unfold assignString. rewrite Hsrc. cbv zeta.
      rewrite sourceKind_not_string by (destruct kf; discriminate).
      rewrite sourceKind_not_bool by (destruct kf; discriminate).
      destruct (sourceKind_float a kf f) as (Hi & Hu & Hf).
      rewrite Hi, Hu, Hf, Hweak. reflexivity.
    + intros l [-> | [-> | (-> & ->)]]; unfold assignString; rewrite Hsrc; cbv zeta;
        rewrite sourceKind_not_string by discriminate;
        rewrite sourceKind_not_bool by discriminate;
        rewrite sourceKind_sequence by (simpl; auto);
        unfold kindIsInt, kindIsUint, kindIsFloat; rewrite Hweak;
        destruct (rev a); reflexivity.
    + intros e l canSet Hsv He.
      assert (Hseq : value_kind sv = reflect.Slice \/ value_kind sv = reflect.Array)
        by (destruct Hsv as [-> | (l' & ->)]; simpl; auto).
      unfold assignString; rewrite Hsrc; cbv zeta.
      rewrite sourceKind_not_string
        by (destruct Hseq as [H|H]; rewrite H; discriminate).
      rewrite sourceKind_not_bool
        by (destruct Hseq as [H|H]; rewrite H; discriminate).
      rewrite (sourceKind_sequence a sv Hseq).
      assert (Hte : type_elem (typeOf sv) = e)
        by (destruct Hsv as [-> | (l' & ->)]; reflexivity).
      rewrite Hte.
      unfold kindIsInt, kindIsUint, kindIsFloat; rewrite Hweak.
      destruct Hseq as [H|H]; rewrite H; destruct (rev a); cbn;
        destruct e as [ |k|k|k| | |n e|e|k e|e| |name fs|k name];
        try reflexivity; destruct k; try reflexivity;
        contradiction He; reflexivity.
Qed.

Lemma assignString_conversions_witness :
  assignString sampleRuntime (weakAssigner sampleRuntime Rev2) true
    (VString "old") "Vs" (Some (VPtr (TInt KInt8) (Some (VInt KInt8 (-12))))) "vs"
    None
  = Done ((VString "-12", None), None)
  /\ assignString sampleRuntime (weakAssigner sampleRuntime Rev1) true
       (VString "old") "Vs"
       (Some (VSlice (TUint KUint8) (Some [VUint KUint8 104; VUint KUint8 105])))
       "vs" None
     = Done ((VString "hi", None), None).
Proof.
  split.
  - pose proof (assignString_conversions sampleRuntime
                  (weakAssigner sampleRuntime Rev2) "old" "Vs" "vs"
                  (Some (VPtr (TInt KInt8) (Some (VInt KInt8 (-12)))))
                  (VInt KInt8 (-12)) None eq_refl) as (_ & _ & H).
    destruct (H eq_refl) as (_ & Hint & _).
    apply (Hint KInt8 (-12) eq_refl).
  - pose proof (assignString_conversions sampleRuntime
                  (weakAssigner sampleRuntime Rev1) "old" "Vs" "vs"
                  (Some (VSlice (TUint KUint8)
                           (Some [VUint KUint8 104; VUint KUint8 105])))
                  (VSlice (TUint KUint8)
                     (Some [VUint KUint8 104; VUint KUint8 105]))
                  None eq_refl) as (_ & _ & H).
    destruct (H eq_refl) as (_ & _ & _ & _ & Hbytes & _).
    apply (Hbytes [VUint KUint8 104; VUint KUint8 105]).
    left; reflexivity.
Defined.

Lemma wrapS_in_range (w i : Z) :
  0 < w -> (wrapS w i = i <-> - 2 ^ (w - 1) <= i < 2 ^ (w - 1)).
Proof.
  intros Hw. unfold wrapS.
  assert (Hp : 2 ^ w = 2 * 2 ^ (w - 1)).
  { replace w with (Z.succ (w - 1)) at 1 by lia. rewrite Z.pow_succ_r; lia. }
  assert (Hpos : 0 < 2 ^ (w - 1)) by (apply Z.pow_pos_nonneg; lia).
  pose proof (Z.mod_pos_bound i (2 ^ w) ltac:(lia)) as Hb.
  destruct (i mod 2 ^ w <? 2 ^ (w - 1)) eqn:E.
  - apply Z.ltb_lt in E. split.
    + intros H. rewrite H in *. lia.
    + intros H. destruct (Z_lt_le_dec i 0) as [Hn|Hn].
      * exfalso.
        assert (Hm : i mod 2 ^ w = i + 2 ^ w).
        { symmetry. apply (Z.mod_unique i (2 ^ w) (-1)); lia. }
        lia.
      * apply Z.mod_small. lia.
  - apply Z.ltb_ge in E. split.
    + intros H. lia.
    + intros H. destruct (Z_lt_le_dec i 0) as [Hn|Hn].
      * assert (Hm : i mod 2 ^ w = i + 2 ^ w).
        { symmetry. apply (Z.mod_unique i (2 ^ w) (-1)); lia. }
        lia.
      * exfalso. rewrite Z.mod_small in E by lia. lia.
Qed.

Lemma wrapU_in_range (w u : Z) :
  0 < w -> (wrapU w u = u <-> 0 <= u < 2 ^ w).
Proof.
  intros Hw. unfold wrapU.
  assert (Hpos : 0 < 2 ^ w) by (apply Z.pow_pos_nonneg; lia).
  split.
  - intros H. rewrite <- H. apply Z.mod_pos_bound. exact Hpos.
  - intros H. apply Z.mod_small. exact H.
Qed.

Lemma wrapS_mod (w x y : Z) :
  x mod 2 ^ w = y mod 2 ^ w -> wrapS w x = wrapS w y.
Proof. unfold wrapS. intros ->. reflexivity. Qed.

Lemma wrapS_64_bits (k : IntKind) (x : Z) :
  wrapS (int_bits k) (wrapS 64 x) = wrapS (int_bits k) x.
Proof.
  apply wrapS_mod. unfold wrapS.
  assert (Hd : forall y, (y mod 2 ^ 64) mod 2 ^ int_bits k = y mod 2 ^ int_bits k).
  { intros y. apply Z.mod_mod_divide.
    destruct k; simpl;
      [ exists 1 | exists (2 ^ 56) | exists (2 ^ 48) | exists (2 ^ 32)
      | exists 1 ]; reflexivity. }
  destruct (x mod 2 ^ 64 <? 2 ^ (64 - 1)).
  - apply Hd.
  - rewrite <- (Hd x).
    assert (He : (x mod 2 ^ 64 - 2 ^ 64) mod 2 ^ int_bits k
                 = (x mod 2 ^ 64) mod 2 ^ int_bits k).
    { assert (Hk : exists c, 2 ^ 64 = c * 2 ^ int_bits k).
      { destruct k; simpl;
          [ exists 1 | exists (2 ^ 56) | exists (2 ^ 48) | exists (2 ^ 32)
          | exists 1 ]; reflexivity. }
      destruct Hk as (c & Hc).
      replace (x mod 2 ^ 64 - 2 ^ 64)
        with (x mod 2 ^ 64 + (- c) * 2 ^ int_bits k) by lia.
      apply Z.mod_add.
      assert (0 < 2 ^ int_bits k) by (destruct k; reflexivity). lia. }
    exact He.
Qed.

Lemma int_bits_pos (k : IntKind) : 0 < int_bits k.
Proof. destruct k; reflexivity. Qed.

Lemma uint_bits_pos (k : UintKind) : 0 < uint_bits k.
Proof. destruct k; reflexivity. Qed.

(** X7. An integer source is stored in an integer target cut to the
    width of the target, without a range check and without an error, in
    strict mode too: signed from signed or unsigned, unsigned from unsigned
    or from a non-negative signed source (uintptr sources apart).  The
    stored value is the source exactly when the source is in the range of
    the target's type. *)
Theorem integer_targets_wrap :
  forall (rt : GoRuntime) (a : assigner) (tk sk : metaKey)
         (source : option value) (s : Sink),
    (forall k0 i0 ki i, Indirect source = Some (VInt ki i) ->
       assignInt rt a true (VInt k0 i0) tk source sk s
       = Done ((VInt k0 (wrapS (int_bits k0) i), None), s))
    /\ (forall k0 i0 ku u, Indirect source = Some (VUint ku u) ->
        ku <> KUintptr ->
        assignInt rt a true (VInt k0 i0) tk source sk s
        = Done ((VInt k0 (wrapS (int_bits k0) u), None), s))
    /\ (forall k0 u0 ku u, Indirect source = Some (VUint ku u) ->
        ku <> KUintptr ->
        assignUint rt a true (VUint k0 u0) tk source sk s
        = Done ((VUint k0 (wrapU (uint_bits k0) u), None), s))
    /\ (forall k0 u0 ki i, Indirect source = Some (VInt ki i) -> 0 <= i ->
        assignUint rt a true (VUint k0 u0) tk source sk s
        = Done ((VUint k0 (wrapU (uint_bits k0) i), None), s))
    /\ (forall k i, wrapS (int_bits k) i = i
                    <-> - 2 ^ (int_bits k - 1) <= i < 2 ^ (int_bits k - 1))
    /\ (forall k u, wrapU (uint_bits k) u = u <-> 0 <= u < 2 ^ uint_bits k).
Proof.
  intros rt a tk sk source s.
  split; [|split; [|split; [|split; [|split]]]].
  - intros k0 i0 ki i Hsrc. unfold assignInt. rewrite Hsrc. cbv zeta.
    rewrite sourceKind_int. reflexivity.
  - intros k0 i0 ku u Hsrc Hku. unfold assignInt. rewrite Hsrc. cbv zeta.
    destruct (sourceKind_uint a ku u Hku) as (Hi & Hu). rewrite Hi, Hu.
    cbn [Uint_]. unfold ok, SetInt, Set_, bind, ret.
    rewrite wrapS_64_bits. reflexivity.
  - intros k0 u0 ku u Hsrc Hku. unfold assignUint. rewrite Hsrc. cbv zeta.
    destruct (sourceKind_uint a ku u Hku) as (Hi & Hu). rewrite Hi, Hu.
    reflexivity.
  - intros k0 u0 ki i Hsrc Hpos. unfold assignUint. rewrite Hsrc. cbv zeta.
    rewrite sourceKind_int. cbn [Int_].
    assert (Hlt : (i <? 0) = false) by (apply Z.ltb_ge; exact Hpos).
    rewrite Hlt. cbn [andb]. unfold ok, SetUint, Set_, bind, ret.
    rewrite wrapU_64_bits. reflexivity.
  - intros k i. apply wrapS_in_range, int_bits_pos.
  - intros k u. apply wrapU_in_range, uint_bits_pos.
Qed.

Lemma integer_targets_wrap_witness :
  assignInt sampleRuntime (defaultAssigner sampleRuntime Rev2) true
    (VInt KInt8 0) "Vi" (Some (VInt KInt 300)) "vi" None
  = Done ((VInt KInt8 44, None), None)
  /\ assignUint sampleRuntime (defaultAssigner sampleRuntime Rev1) true
       (VUint KUint8 0) "Vu" (Some (VInt KInt 256)) "vu" None
     = Done ((VUint KUint8 0, None), None).
Proof.
  split.
  - apply (proj1 (integer_targets_wrap sampleRuntime
                    (defaultAssigner sampleRuntime Rev2) "Vi" "vi"
                    (Some (VInt KInt 300)) None) KInt8 0 KInt 300 eq_refl).
  - apply (proj1 (proj2 (proj2 (proj2
             (integer_targets_wrap sampleRuntime
                (defaultAssigner sampleRuntime Rev1) "Vu" "vu"
                (Some (VInt KInt 256)) None)))) KUint8 0 KInt 256 eq_refl).
    lia.
Defined.

Lemma SetFloat_run (rt : GoRuntime) (kf : FloatKind) (f0 f : spec_float)
  (s : Sink) :
  SetFloat rt true (VFloat kf f0) f s = Done (VFloat kf (floatAs rt kf f), s).
Proof. destruct kf; reflexivity. Qed.

(** X8. assignFloat on a float source.  A finite source, and in the
    first revision every source, is stored as it is (rounded to float32 in
    a float32 target).  In the rewrite a NaN or an infinity is refused in
    strict mode, with the target kept, and stored as zero in weak mode. *)
Theorem assignFloat_nan_inf :
  forall (rt : GoRuntime) (a : assigner) (kf : FloatKind) (f0 : spec_float)
         (tk sk : metaKey) (source : option value) (kf' : FloatKind)
         (f : spec_float) (s : Sink),
    Indirect source = Some (VFloat kf' f) ->
    (float_nan_or_inf f = false \/ rev a = Rev1 ->
     assignFloat rt a true (VFloat kf f0) tk source sk s
     = Done ((VFloat kf (floatAs rt kf f), None), s))
    /\ (float_nan_or_inf f = true -> rev a = Rev2 ->
        (weak a = false ->
         forall canSet,
           assignFloat rt a canSet (VFloat kf f0) tk source sk s
           = Done ((VFloat kf f0, Some (ErrorNew (MsgNaNInf tk))), s))
        /\ (weak a = true ->
            assignFloat rt a true (VFloat kf f0) tk source sk s
            = Done ((VFloat kf (floatAs rt kf SF_zero), None), s))).
Proof.
  intros rt a kf f0 tk sk source kf' f s Hsrc.
  destruct (sourceKind_float a kf' f) as (Hi & Hu & Hf).
  split.
  - intros H. unfold assignFloat. rewrite Hsrc. cbv zeta.
    rewrite Hi, Hu, Hf. cbn [Float_]. unfold setFloatValue.
    destruct H as [H | H]; [rewrite H | rewrite H];
      try destruct (rev a); try destruct (float_nan_or_inf f);
      try destruct (weak a);
      unfold ok, bind, ret; try rewrite SetFloat_run; try reflexivity.
    all: fail.
  - intros Hnan Hrev. split; [intros Hweak canSet | intros Hweak];
      unfold assignFloat; rewrite Hsrc; cbv zeta;
      rewrite Hi, Hu, Hf; cbn [Float_]; rewrite Hrev; unfold setFloatValue;
      rewrite Hnan, Hweak.
    + reflexivity.
    + unfold ok, bind, ret. rewrite SetFloat_run. reflexivity.
Qed.

Lemma assignFloat_nan_inf_witness :
  assignFloat sampleRuntime (defaultAssigner sampleRuntime Rev2) true
    (VFloat KFloat64 SF_zero) "Vf" (Some (VFloat KFloat64 S754_nan)) "vf" None
  = Done ((VFloat KFloat64 SF_zero, Some (ErrorNew (MsgNaNInf "Vf"))), None)
  /\ assignFloat sampleRuntime (defaultAssigner sampleRuntime Rev1) true
       (VFloat KFloat64 SF_zero) "Vf" (Some (VFloat KFloat64 S754_nan)) "vf" None
     = Done ((VFloat KFloat64 S754_nan, None), None).
Proof.
  split.
  - pose proof (assignFloat_nan_inf sampleRuntime
                  (defaultAssigner sampleRuntime Rev2) KFloat64 SF_zero
                  "Vf" "vf" (Some (VFloat KFloat64 S754_nan)) KFloat64 S754_nan
                  None eq_refl) as (_ & H).
    destruct (H eq_refl eq_refl) as (Hstrict & _).
    apply (Hstrict eq_refl true).
  - pose proof (assignFloat_nan_inf sampleRuntime
                  (defaultAssigner sampleRuntime Rev1) KFloat64 SF_zero
                  "Vf" "vf" (Some (VFloat KFloat64 S754_nan)) KFloat64 S754_nan
                  None eq_refl) as (H & _).
    apply H. right; reflexivity.
Defined.

(** X9. assignPtr.  A nil source sets the pointer to nil and asks for
    the path to be recorded.  For any other source a nil pointer is
    allocated only when the decoding into a fresh zero value succeeds (on an
    error it stays nil), and a pointer that is set is decoded through, its
    pointee taking whatever the recursive call leaves; the error and the
    metadata are those of the recursive call. *)
Theorem assignPtr_target :
  forall (E : engine) (a : assigner) (e : type) (tk sk : metaKey)
         (source : option value) (s : Sink),
    (sourceIsNil a source = Some true ->
     forall p, assignPtr E a true (VPtr e p) tk source sk s
               = Done ((true, (VPtr e None, None)), s))
    /\ (sourceIsNil a source = Some false ->
        (forall x' err s',
           e_assign E a true (Zero e) tk source sk s = Done ((x', err), s') ->
           assignPtr E a true (VPtr e None) tk source sk s
           = Done ((false, (match err with
                            | None => VPtr e (Some x')
                            | Some _ => VPtr e None
                            end, err)), s'))
        /\ (forall x x' err s',
              e_assign E a true x tk source sk s = Done ((x', err), s') ->
              assignPtr E a true (VPtr e (Some x)) tk source sk s
              = Done ((false, (VPtr e (Some x'), err)), s'))).
Proof.
  intros E a e tk sk source s. split.
  - intros Hnil p. unfold assignPtr. rewrite Hnil. destruct p; reflexivity.
  - intros Hnil. split.
    + intros x' err s' Hrun. unfold assignPtr. rewrite Hnil.
      rewrite (bind_Done_eq _ Hrun). destruct err; reflexivity.
    + intros x x' err s' Hrun. unfold assignPtr. rewrite Hnil.
      rewrite (bind_Done_eq _ Hrun). destruct err; reflexivity.
Qed.

Lemma assignPtr_target_witness :
  assignPtr (eng sampleRuntime 1) (defaultAssigner sampleRuntime Rev1) true
    (VPtr (TInt KInt) None) "Vp" (Some (VString "x")) "vp" None
  = Done ((false,
           (VPtr (TInt KInt) None,
            Some (unconvertible (defaultAssigner sampleRuntime Rev1)
                    (VInt KInt 0) "Vp" (Some (VString "x")) (VString "x")))),
          None)
  /\ assignPtr (eng sampleRuntime 1) (defaultAssigner sampleRuntime Rev2) true
       (VPtr (TInt KInt) None) "Vp" (Some (VInt KInt 5)) "vp" None
     = Done ((false, (VPtr (TInt KInt) (Some (VInt KInt 5)), None)), None).
Proof.
  split.
  - pose proof (assignPtr_target (eng sampleRuntime 1)
                  (defaultAssigner sampleRuntime Rev1) (TInt KInt) "Vp" "vp"
                  (Some (VString "x")) None) as (_ & H).
    destruct (H eq_refl) as (Hnil & _).
    apply (Hnil (VInt KInt 0)
             (Some (unconvertible (defaultAssigner sampleRuntime Rev1)
                      (VInt KInt 0) "Vp" (Some (VString "x")) (VString "x")))
             None).
    reflexivity.
  - pose proof (assignPtr_target (eng sampleRuntime 1)
                  (defaultAssigner sampleRuntime Rev2) (TInt KInt) "Vp" "vp"
                  (Some (VInt KInt 5)) None) as (_ & H).
    destruct (H eq_refl) as (Hnil & _).
    apply (Hnil (VInt KInt 5) None None).
    reflexivity.
Defined.

(** X18. A nil interface target takes the source as it is: for a
    source that is present, not skipped, not found equal and neither an
    interface nor a pointer to one, assign stores the source value itself
    in the interface, whatever its kind, returns no error and records the
    target path. *)
Theorem assign_nil_interface_target :
  forall (rt : GoRuntime) (E : engine) (a : assigner) (tk sk : metaKey)
         (sv : value) (s : Sink),
    shouldSkipKey a tk sk s = Done (false, s) ->
    (forall e, sv <> VPtr e None) ->
    (forall p, sv <> VPtr TAny p) ->
    (forall x, sv <> VIface x) ->
    (SkipSameValues (config a)
     && DeepEqual rt (Interface_ (VIface None)) (Interface_ sv))%bool = false ->
    assign rt E a true (VIface None) tk (Some sv) sk s
    = Done ((VIface (Some sv), None), recordKey tk s).
Proof.
  intros rt E a tk sk sv s Hskip Hpresent Hany Hiface Hsame.
  rewrite (assign_dispatch rt E a true (VIface None) tk sk sv s
             Hskip Hpresent Hsame).
  assert (Hu : unwrapped a (Some sv) = Some sv).
  { unfold unwrapped. destruct (rev a); [reflexivity|].
    destruct sv; try reflexivity. exfalso; eapply Hiface; reflexivity. }
  rewrite Hu.
  assert (Hd : dispatch rt E a true (VIface None) tk (Some sv) sk
               = Some (bind (assignBasic E a true (VIface None) tk (Some sv) sk)
                         (fun r => ret (true, r)))).
  { unfold dispatch. destruct (rev a); reflexivity. }
  rewrite Hd.
  assert (Hb : assignBasic E a true (VIface None) tk (Some sv) sk s
               = Done ((VIface (Some sv), None), s)).
  { unfold assignBasic. cbn [Interface_ typeOf].
    destruct sv; try reflexivity.
    - destruct (type_eqb e TAny) eqn:He.
      + exfalso. unfold type_eqb in He.
        destruct (type_eq_dec e TAny) as [->|]; [|discriminate].
        eapply Hany; reflexivity.
      + reflexivity.
    - exfalso; eapply Hiface; reflexivity. }
  unfold bind at 1. unfold bind at 1. rewrite Hb. cbv beta iota.
  unfold ret at 1. cbv beta iota.
  assert (Hrec : (true && match rev a with Rev1 => true | Rev2 => is_none (@None error) end)%bool = true)
    by (destruct (rev a); reflexivity).
  rewrite Hrec. unfold bind. rewrite addMetaKey_run. reflexivity.
Qed.

Lemma assign_nil_interface_target_witness :
  assign sampleRuntime (eng sampleRuntime 0) (defaultAssigner sampleRuntime Rev2)
    true (VIface None) "Vany" (Some (VInt KInt8 3)) "vany"
    (Some (mkMetadata [] [] []))
  = Done ((VIface (Some (VInt KInt8 3)), None),
          Some (mkMetadata ["Vany"] [] [])).
Proof.
  apply (assign_nil_interface_target sampleRuntime (eng sampleRuntime 0)
           (defaultAssigner sampleRuntime Rev2) "Vany" "vany" (VInt KInt8 3)
           (Some (mkMetadata [] [] [])) eq_refl
           (fun e H => ltac:(discriminate H))
           (fun p H => ltac:(discriminate H))
           (fun x H => ltac:(discriminate H)) eq_refl).
Defined.



Lemma copies_not_nil (rt : GoRuntime) (r : revision) (old new : value) :
  copies rt r old new -> forall e, new <> VPtr e None.
Proof. intros H e. destruct H; discriminate. Qed.


(** X24. Assign on a pointer to a scalar and a source of the same
    type, given as a value or behind a pointer, without SkipSameValues: the
    target holds the source afterwards and no error is returned, for bools,
    strings, integers in the range of their type and floats (finite, in the
    rewrite) that the target type holds exactly. *)
Theorem Assign_copies_scalar :
  forall (rt : GoRuntime) (n : nat) (a : assigner) (e : type)
         (old new : value) (source : option value),
    copies rt (rev a) old new ->
    source = Some new \/ (exists e', source = Some (VPtr e' (Some new))) ->
    SkipSameValues (config a) = false ->
    Assign rt (S n) a (Some (VPtr e (Some old))) source []
    = Done (Some (VPtr e (Some new)), None, Metadata_ (config a)).
Proof.
  intros rt n a e old new source Hc Hsrc Hsame.
  unfold Assign. cbn [eng e_assign].
  assert (Hrun : forall s,
    assign rt (eng rt n) a true old "" source "" s = Done ((new, None), s)).
  { intros s. destruct a as [c cache r]. cbn [rev config] in *.
    unfold assign. cbn [shouldSkipKey].
    destruct Hsrc as [-> | (e' & ->)];
      destruct Hc as [b0 b | s0 str | k i0 i Hr | k u0 u Hk Hr | k f0 f Hn Hf];
      try (apply (proj2 (wrapS_in_range (int_bits k) i (int_bits_pos k))) in Hr);
      try (apply (proj2 (wrapU_in_range (uint_bits k) u (uint_bits_pos k))) in Hr);
      try (destruct k; try (contradiction Hk; reflexivity));
      destruct r; try (rewrite (Hn eq_refl)); 
      cbn -[wrapS wrapU Z.pow] in *; rewrite ?Hsame;
      cbn -[wrapS wrapU Z.pow]; rewrite ?(Hn eq_refl); unfold ret;
      rewrite ?Hr, ?Hf; try reflexivity.
    all: unfold setFloatValue; rewrite (Hn eq_refl);
      cbn -[wrapS wrapU Z.pow]; rewrite ?Hf; reflexivity. }
  rewrite Hrun. reflexivity.
Qed.

Lemma Assign_copies_scalar_witness :
  Assign sampleRuntime 1 (defaultAssigner sampleRuntime Rev2)
    (Some (VPtr (TInt KInt16) (Some (VInt KInt16 0))))
    (Some (VPtr (TInt KInt16) (Some (VInt KInt16 (-300))))) []
  = Done (Some (VPtr (TInt KInt16) (Some (VInt KInt16 (-300)))), None, None).
Proof.
  apply (Assign_copies_scalar sampleRuntime 0
           (defaultAssigner sampleRuntime Rev2) (TInt KInt16)
           (VInt KInt16 0) (VInt KInt16 (-300))).
  - apply copies_int. simpl. lia.
  - right. exists (TInt KInt16). reflexivity.
  - reflexivity.
Defined.

(** ** Arrays and containers *)

Lemma indexed_In {A : Type} (l : list A) (i : nat) (x : A) :
  In (i, x) (indexed l) -> (i < List.length l)%nat.
Proof.
  unfold indexed. intros H. apply in_combine_l in H.
  apply in_seq in H. lia.
Qed.

Lemma assignArrayBody_frame (E : engine) (a : assigner) (c : bool)
  (tk sk : metaKey) (ix : nat * value) (st st' : list value * list errmsg)
  (s s' : Sink) :
  assignArrayBody E a c tk sk ix st s = Done (st', s') ->
  List.length (fst st') = List.length (fst st)
  /\ (forall j, j <> fst ix -> nth_error (fst st') j = nth_error (fst st) j).
Proof.
  destruct ix as [i x], st as [l errs]. unfold assignArrayBody.
  destruct (nth_error l i) as [tf|]; [|intros H; discriminate H].
  intros H. apply bind_Done in H as (b & s1 & _ & H).
  destruct b.
  - unfold ret in H. inversion H; subst. split; [reflexivity|]. intros; reflexivity.
  - apply bind_Done in H as ((y & err) & s2 & _ & H).
    unfold ret in H. inversion H; subst. cbn [fst].
    split; [apply set_nth_length|].
    intros j Hj. apply nth_error_set_nth_neq. intros ->. apply Hj. reflexivity.
Qed.

Lemma assignArrayLoop_frame (E : engine) (a : assigner) (c : bool)
  (tk sk : metaKey) (src : list value) (l : list value) (st' : list value * list errmsg)
  (s s' : Sink) :
  forEach (assignArrayBody E a c tk sk) (indexed src) (l, []) s = Done (st', s') ->
  List.length (fst st') = List.length l
  /\ (forall j, (List.length src <= j)%nat -> nth_error (fst st') j = nth_error l j).
Proof.
  intros H.
  refine (forEach_invariant (assignArrayBody E a c tk sk)
            (fun st _ => List.length (fst st) = List.length l
                         /\ (forall j, (List.length src <= j)%nat ->
                                       nth_error (fst st) j = nth_error l j))
            (indexed src) _ (l, []) s st' s' _ H).
  - intros [i x] st0 s0 st1 s1 Hin (Hlen & Htail) Hb.
    apply assignArrayBody_frame in Hb as (Hl & Hother).
    apply indexed_In in Hin. cbn [fst] in Hother.
    split; [congruence|].
    intros j Hj. rewrite Hother by lia. apply Htail; exact Hj.
  - split; [reflexivity|]. intros; reflexivity.
Qed.



Lemma sequenceOf_source (source : option value) (src : list value) :
  sequenceOf source src ->
  exists sv, Indirect source = Some sv
             /\ isArraySlice (value_kind sv) = true
             /\ Len sv = Some (List.length src)
             /\ arraySource (Some sv) = Some src.
Proof.
  intros [(e & H) | (e & H)]; rewrite H; eexists; (split; [reflexivity|]);
    repeat split; reflexivity.
Qed.



Lemma nth_error_repeat {A : Type} (x : A) (n j : nat) :
  (j < n)%nat -> nth_error (repeat x n) j = Some x.
Proof.
  revert j. induction n as [|n IH]; intros j H; [lia|].
  destruct j; [reflexivity|]. simpl. apply IH. lia.
Qed.

(** X11. When assignArray returns on a source sequence, the target is
    an array of the same length.  The elements after the length of the
    source are zero in the rewrite, and in the first revision when the
    target held the zero value; in the first revision an array that held
    something keeps them. *)
Theorem assignArray_tail :
  forall (E : engine) (a : assigner) (e : type) (tl : list value)
         (tk sk : metaKey) (source : option value) (src : list value)
         (s s' : Sink) (t' : value) (err : option error),
    sequenceOf source src ->
    assignArray E a true (VArray e tl) tk source sk s = Done ((t', err), s') ->
    exists l',
      t' = VArray e l'
      /\ List.length l' = List.length tl
      /\ (rev a = Rev2 \/
          go_eq (VArray e tl) (Zero (TArray (List.length tl) e)) = Some true ->
          forall j, (List.length src <= j < List.length tl)%nat ->
                    nth_error l' j = Some (Zero e))
      /\ (rev a = Rev1 ->
          go_eq (VArray e tl) (Zero (TArray (List.length tl) e)) = Some false ->
          forall j, (List.length src <= j)%nat ->
                    nth_error l' j = nth_error tl j).
Proof.
  intros E a e tl tk sk source src s s' t' err Hseq Hrun.
  destruct (sequenceOf_source source src Hseq) as (sv & Hind & Hkind & Hl & Hsrc).
  (* the part after the checks, on the array [l0] it starts from *)
  assert (Hfill : forall l0,
    List.length l0 = List.length tl ->
    assignArrayFill E a true true e (List.length tl) tk (Some sv) sk l0 s
    = Done ((t', err), s') ->
    exists l',
      t' = VArray e l' /\ List.length l' = List.length tl
      /\ (rev a = Rev2 ->
          forall j, (List.length src <= j < List.length tl)%nat ->
                    nth_error l' j = Some (Zero e))
      /\ (rev a = Rev1 ->
          forall j, (List.length src <= j)%nat ->
                    nth_error l' j = nth_error l0 j)).
  { intros l0 Hl0 H. unfold assignArrayFill in H. rewrite Hsrc in H.
    apply bind_Done in H as ([l errs] & s1 & Hloop & H).
    pose proof (assignArrayLoop_frame E a true tk sk src l0 (l, errs) s s1 Hloop)
      as (Hlen & Htail). cbn [fst] in Hlen, Htail.
    destruct (rev a) eqn:Hrev.
    - cbn in H. unfold ret in H. inversion H; subst.
      exists l. split; [reflexivity|]. split; [congruence|].
      split; [discriminate|]. intros _ j Hj. apply Htail; exact Hj.
    - destruct (List.length src <? List.length tl)%nat eqn:Hlt.
      + cbn in H. unfold ret in H. inversion H; subst.
        apply Nat.ltb_lt in Hlt.
        eexists. split; [reflexivity|].
        assert (Hfn : List.length (firstn (List.length src) l) = List.length src).
        { rewrite length_firstn. lia. }
        split.
        * rewrite length_app, Hfn, repeat_length. lia.
        * split; [|discriminate]. intros _ j Hj.
          rewrite nth_error_app2 by lia. rewrite Hfn.
          apply nth_error_repeat. lia.
      + cbn in H. unfold ret in H. inversion H; subst.
        apply Nat.ltb_ge in Hlt.
        exists l. split; [reflexivity|]. split; [congruence|].
        split; [|discriminate]. intros _ j Hj. lia. }
  unfold assignArray in Hrun. rewrite Hind in Hrun. cbn [typeOf Kind_] in Hrun.
  destruct (go_eq (VArray e tl) (Zero (TArray (List.length tl) e))) as [[|]|] eqn:Hz;
    [| |discriminate Hrun].
  - rewrite Hkind in Hrun. cbn [negb] in Hrun. rewrite Hl in Hrun.
    destruct (List.length tl <? List.length src)%nat eqn:Hlt.
    + unfold fail, ret in Hrun. inversion Hrun; subst.
      apply Nat.ltb_lt in Hlt.
      exists tl. split; [reflexivity|]. split; [reflexivity|].
      split; [intros _ j Hj; lia | intros _ X; discriminate X].
    + destruct (Hfill (repeat (Zero e) (List.length tl)) (repeat_length _ _) Hrun)
        as (l' & Ht & Hlen & H2 & H1).
      exists l'. split; [exact Ht|]. split; [exact Hlen|].
      split; [|intros _ X; discriminate X].
      intros _ j Hj. destruct (rev a) eqn:Hrev.
      * rewrite (H1 eq_refl j) by lia. apply nth_error_repeat. lia.
      * apply (H2 eq_refl j Hj).
  - destruct (Hfill tl eq_refl Hrun) as (l' & Ht & Hlen & H2 & H1).
    exists l'. split; [exact Ht|]. split; [exact Hlen|]. split.
    + intros [Hrev | X]; [|discriminate X]. apply (H2 Hrev).
    + intros Hrev _. apply (H1 Hrev).
Qed.

Lemma assignArray_tail_witness :
  exists l',
    VArray (TInt KInt) [VInt KInt 1; VInt KInt 0] = VArray (TInt KInt) l'
    /\ nth_error l' 1 = Some (VInt KInt 0).
Proof.
  destruct (assignArray_tail (eng sampleRuntime 2)
              (defaultAssigner sampleRuntime Rev2) (TInt KInt)
              [VInt KInt 7; VInt KInt 8] "Va" "va"
              (Some (VSlice (TInt KInt) (Some [VInt KInt 1])))
              [VInt KInt 1] None None
              (VArray (TInt KInt) [VInt KInt 1; VInt KInt 0]) None)
    as (l' & Ht & _ & Hzero & _).
  - right. exists (TInt KInt). reflexivity.
  - reflexivity.
  - exists l'. split; [exact Ht|].
    apply (Hzero (or_introl eq_refl) 1%nat). simpl. lia.
Defined.






Lemma bind_ext {A B : Type} (m : M A) (f g : A -> M B) (s : Sink) :
  (forall x s1, f x s1 = g x s1) -> bind m f s = bind m g s.
Proof. intros H. unfold bind. destruct (m s) as [[x s1]| |]; auto. Qed.

Lemma assignMapFromStructLoop_flat (rt : GoRuntime) (E : engine)
  (h : assigner -> bool -> value -> metaKey -> value -> metaKey -> M result)
  (a : assigner) (kT eT : type) (tk sk : metaKey) :
  forall (fields : list (string * fieldInfo)) (entries : list (value * value))
         (s : Sink),
    assignMapFromStructLoop rt E a kT eT tk sk fields entries s
    = assignMapFromStructLoop rt (withNested E h) a kT eT tk sk fields entries s.
Proof.
  induction fields as [|[n f] rest IH]; intros entries s; [reflexivity|].
  cbn [assignMapFromStructLoop]. cbv zeta.
  destruct (AssignableTo (typeOf (fieldVal f)) eT) eqn:Has; [|reflexivity].
  cbn [negb]. apply bind_ext. intros skip s1.
  destruct skip; [apply IH|].
  unfold weakAssign. cbn [withNested e_assign].
  apply bind_ext. intros [keyVal kerr] s2.
  destruct (rev a), kerr; try reflexivity;
    rewrite ?Has;
    (destruct (reflect.kind_eqb (value_kind (fieldVal f)) reflect.Struct);
     [|destruct (omitempty f && isEmptyValue (fieldVal f))]);
    apply bind_ext; intros; apply IH.
Qed.

(** X22. assignMapFromStruct never reaches its recursive call: a field
    whose type is not assignable to the element type of the map ends the
    loop with an error before the switch on its kind, so the branch that
    would turn a nested struct into a nested map is dead, and the result of
    the handler does not depend on what the recursive call would do. *)
Theorem assignMapFromStruct_never_nests :
  forall (rt : GoRuntime) (E : engine)
         (h : assigner -> bool -> value -> metaKey -> value -> metaKey
              -> M result)
         (a : assigner) (canSet : bool) (targetVal : value) (tk sk : metaKey)
         (sourceVal : value) (s : Sink),
    assignMapFromStruct rt (withNested E h) a canSet targetVal tk sourceVal sk s
    = assignMapFromStruct rt E a canSet targetVal tk sourceVal sk s.
Proof.
  intros rt E h a canSet targetVal tk sk sourceVal s.
  unfold assignMapFromStruct. destruct targetVal; try reflexivity.
  apply bind_ext. intros entries s1.
  apply bind_ext. intros fields s2.
  unfold bind. rewrite <- assignMapFromStructLoop_flat. reflexivity.
Qed.

(** ** The metadata only grows *)

Lemma grows_refl (s : Sink) : grows s s.
Proof.
  destruct s as [m|]; simpl; [|exact I].
  repeat split; exists []; rewrite app_nil_r; reflexivity.
Qed.

Lemma grows_trans (s1 s2 s3 : Sink) : grows s1 s2 -> grows s2 s3 -> grows s1 s3.
Proof.
  destruct s1 as [m1|], s2 as [m2|], s3 as [m3|]; simpl; try tauto.
  intros ((k1 & Hk1) & (u1 & Hu1) & (n1 & Hn1))
         ((k2 & Hk2) & (u2 & Hu2) & (n2 & Hn2)).
  repeat split.
  - exists (k1 ++ k2). rewrite Hk2, Hk1, app_assoc. reflexivity.
  - exists (u1 ++ u2). rewrite Hu2, Hu1, app_assoc. reflexivity.
  - exists (n1 ++ n2). rewrite Hn2, Hn1, app_assoc. reflexivity.
Qed.

Lemma appendOnly_ret {A : Type} (x : A) : appendOnly (ret x).
Proof. intros s r s' H. unfold ret in H. inversion H; subst. apply grows_refl. Qed.

Lemma appendOnly_panic {A : Type} : appendOnly (@panic A).
Proof. intros s r s' H. discriminate H. Qed.

Lemma appendOnly_out_of_fuel {A : Type} : appendOnly (@out_of_fuel A).
Proof. intros s r s' H. discriminate H. Qed.

Lemma appendOnly_bind {A B : Type} (m : M A) (f : A -> M B) :
  appendOnly m -> (forall x, appendOnly (f x)) -> appendOnly (bind m f).
Proof.
  intros Hm Hf s r s' H. apply bind_Done in H as (x & s1 & H1 & H2).
  eapply grows_trans; [eapply Hm; exact H1 | eapply Hf; exact H2].
Qed.

Lemma appendOnly_forEach {X St : Type} (body : X -> St -> M St) (xs : list X) :
  (forall x st, appendOnly (body x st)) ->
  forall st, appendOnly (forEach body xs st).
Proof.
  intros Hb. induction xs as [|x r IH]; intros st; simpl.
  - apply appendOnly_ret.
  - apply appendOnly_bind; [apply Hb | intros; apply IH].
Qed.

Lemma appendOnly_without_sink {A : Type} (m : M A) : appendOnly (without_sink m).
Proof.
  intros s r s' H. unfold without_sink in H.
  destruct (m None) as [[x s1]| |]; inversion H; subst. apply grows_refl.
Qed.

Lemma appendOnly_addMetaKey (k : metaKey) : appendOnly (addMetaKey k).
Proof.
  intros s r s' H. unfold addMetaKey, modify, ret in H.
  destruct (IsEmpty k); [inversion H; subst; apply grows_refl|].
  destruct s as [m|]; inversion H; subst; simpl; [|exact I].
  repeat split; [exists [k] | exists [] | exists []];
    rewrite ?app_nil_r; reflexivity.
Qed.

Lemma appendOnly_addMetaUnused (k : metaKey) : appendOnly (addMetaUnused k).
Proof.
  intros s r s' H. unfold addMetaUnused, modify, ret in H.
  destruct (IsEmpty k); [inversion H; subst; apply grows_refl|].
  destruct s as [m|]; inversion H; subst; simpl; [|exact I].
  repeat split; [exists [] | exists [k] | exists []];
    rewrite ?app_nil_r; reflexivity.
Qed.

Lemma appendOnly_addMetaUnset (k : metaKey) : appendOnly (addMetaUnset k).
Proof.
  intros s r s' H. unfold addMetaUnset, modify, ret in H.
  destruct (IsEmpty k); [inversion H; subst; apply grows_refl|].
  destruct s as [m|]; inversion H; subst; simpl; [|exact I].
  repeat split; [exists [] | exists [] | exists [k]];
    rewrite ?app_nil_r; reflexivity.
Qed.

Lemma appendOnly_addMetaUnusedAll (sk : metaKey) (k : reflect.Kind)
  (names : list string) : appendOnly (addMetaUnusedAll sk k names).
Proof.
  induction names as [|n r IH]; simpl; [apply appendOnly_ret|].
  apply appendOnly_bind; [apply appendOnly_addMetaUnused | intros; exact IH].
Qed.

Lemma appendOnly_shouldSkipKey (a : assigner) (tk sk : metaKey) :
  appendOnly (shouldSkipKey a tk sk).
Proof.
  unfold shouldSkipKey.
  destruct (String.eqb tk "" || String.eqb sk "")%bool; [apply appendOnly_ret|].
  destruct (rev a).
  - destruct (existsb _ _); [|apply appendOnly_ret].
    apply appendOnly_bind; [apply appendOnly_addMetaUnused|intros].
    apply appendOnly_bind; [apply appendOnly_addMetaUnset|intros].
    apply appendOnly_ret.
  - destruct (existsb _ _); [apply appendOnly_ret|].
    destruct (existsb _ _); apply appendOnly_ret.
Qed.

Lemma appendOnly_Set (c : bool) (x : value) : appendOnly (Set_ c x).
Proof. destruct c; [apply appendOnly_ret | apply appendOnly_panic]. Qed.


Lemma appendOnly_scalar (rt : GoRuntime) (h : handler) :
  scalarHandler rt h ->
  forall a c t tk src sk, appendOnly (h a c t tk src sk).
Proof.
  intros Hh a c t tk src sk s [r err] s' H.
  destruct (scalar_frame rt h Hh a c t tk sk src s s' r err H) as (-> & _).
  apply grows_refl.
Qed.

Ltac ao_step :=
  match goal with
  | |- appendOnly (ret _) => apply appendOnly_ret
  | |- appendOnly panic => apply appendOnly_panic
  | |- appendOnly out_of_fuel => apply appendOnly_out_of_fuel
  | |- appendOnly (fail _ _) => apply appendOnly_ret
  | |- appendOnly (Set_ _ _) => apply appendOnly_Set
  | |- appendOnly (addMetaKey _) => apply appendOnly_addMetaKey
  | |- appendOnly (addMetaUnused _) => apply appendOnly_addMetaUnused
  | |- appendOnly (addMetaUnset _) => apply appendOnly_addMetaUnset
  | |- appendOnly (addMetaUnusedAll _ _ _) => apply appendOnly_addMetaUnusedAll
  | |- appendOnly (shouldSkipKey _ _ _) => apply appendOnly_shouldSkipKey
  | |- appendOnly (without_sink _) => apply appendOnly_without_sink
  | |- appendOnly (weakAssign _ _ _ _ _ _) => apply appendOnly_without_sink
  | |- appendOnly (bind _ _) => apply appendOnly_bind; [|intros]
  | |- appendOnly (forEach _ _ _) => apply appendOnly_forEach; intros
  | |- appendOnly (match ?x with _ => _ end) => destruct x
  | |- appendOnly (if ?b then _ else _) => destruct b
  end.

Ltac ao := repeat ao_step.

Section AppendOnly.

Variable rt : GoRuntime.
Variable E : engine.
Hypothesis HE : engineAppendOnly E.

Let HEa := proj1 HE.
Let HEs := proj1 (proj2 HE).
Let HEr := proj1 (proj2 (proj2 HE)).
Let HEm := proj2 (proj2 (proj2 HE)).

Lemma appendOnly_assignBasic a c t tk src sk :
  appendOnly (assignBasic E a c t tk src sk).
Proof.
  unfold assignBasic, ok. ao; try apply HEa.
Qed.

Lemma appendOnly_assignInvalidTarget a tk src sk :
  appendOnly (assignInvalidTarget a tk src sk).
Proof. unfold assignInvalidTarget. ao. Qed.

Lemma appendOnly_assignPtr a c t tk src sk :
  appendOnly (assignPtr E a c t tk src sk).
Proof.
  unfold assignPtr. ao; try apply HEa; try apply appendOnly_assignInvalidTarget.
Qed.

Lemma appendOnly_assignSlice a c t tk src sk :
  appendOnly (assignSlice E a c t tk src sk).
Proof.
  unfold assignSlice, assignSliceBody. cbv zeta.
  ao; try apply HEa; try apply HEs.
Qed.

Lemma appendOnly_assignArrayFill a c c' e n tk sv sk l :
  appendOnly (assignArrayFill E a c c' e n tk sv sk l).
Proof.
  unfold assignArrayFill, assignArrayBody. ao; try apply HEa.
Qed.

Lemma appendOnly_assignArray a c t tk src sk :
  appendOnly (assignArray E a c t tk src sk).
Proof.
  unfold assignArray. cbv zeta.
  ao; try apply HEr; try apply appendOnly_assignArrayFill.
Qed.

Lemma appendOnly_assignMapFromSliceLoop a c tk sk src :
  forall i t, appendOnly (assignMapFromSliceLoop E a c tk sk src i t).
Proof.
  induction src as [|x r IH]; intros i t; simpl; ao; try apply HEa; apply IH.
Qed.

Lemma appendOnly_assignMapFromSlice a c t tk sv sk :
  appendOnly (assignMapFromSlice E a c t tk sv sk).
Proof.
  unfold assignMapFromSlice. ao; apply appendOnly_assignMapFromSliceLoop.
Qed.

Lemma appendOnly_assignMapFromMap a c t tk sv sk :
  appendOnly (assignMapFromMap rt E a c t tk sv sk).
Proof.
  unfold assignMapFromMap, assignMapFromMapBody. ao; try apply HEa.
Qed.

Lemma appendOnly_assignMapFromStructLoop a kT eT tk sk fields :
  forall entries,
    appendOnly (assignMapFromStructLoop rt E a kT eT tk sk fields entries).
Proof.
  induction fields as [|[n f] r IH]; intros entries; simpl;
    ao; try apply HEm; try apply IH.
Qed.

Lemma appendOnly_assignMapFromStruct a c t tk sv sk :
  appendOnly (assignMapFromStruct rt E a c t tk sv sk).
Proof.
  unfold assignMapFromStruct, flattenSource.
  ao; apply appendOnly_assignMapFromStructLoop.
Qed.

Lemma appendOnly_assignMap a c t tk src sk :
  appendOnly (assignMap rt E a c t tk src sk).
Proof.
  unfold assignMap. cbv zeta.
  ao; first [ apply appendOnly_assignMapFromMap
            | apply appendOnly_assignMapFromStruct
            | apply appendOnly_assignMapFromSlice ].
Qed.

Lemma appendOnly_assignStructFromMap a c t tk sv sk :
  appendOnly (assignStructFromMap rt E a c t tk sv sk).
Proof.
  unfold assignStructFromMap, assignStructFromMapBody, flattenTarget.
  cbv zeta. ao; try apply HEa.
Qed.

Lemma appendOnly_assignStructFromStruct a c t tk sv sk :
  appendOnly (assignStructFromStruct rt E a c t tk sv sk).
Proof.
  unfold assignStructFromStruct, assignStructFromStructBody, flattenTarget,
    flattenSource. ao; try apply HEa.
Qed.

Lemma appendOnly_assignStruct a c t tk src sk :
  appendOnly (assignStruct rt E a c t tk src sk).
Proof.
  unfold assignStruct. cbv zeta.
  ao; first [ apply appendOnly_assignStructFromMap
            | apply appendOnly_assignStructFromStruct ].
Qed.

Lemma appendOnly_dispatch a c t tk src sk h :
  dispatch rt E a c t tk src sk = Some h -> appendOnly h.
Proof.
  unfold dispatch.
  set (k := match rev a with Rev1 => getKind t | Rev2 => _ end).
  destruct k; intros H; try discriminate H; inversion H; subst h; clear H;
    try apply appendOnly_assignPtr;
    (apply appendOnly_bind; [|intros; apply appendOnly_ret]);
    first [ apply (appendOnly_scalar rt); constructor
          | apply appendOnly_assignBasic
          | apply appendOnly_assignStruct
          | apply appendOnly_assignMap
          | apply appendOnly_assignSlice
          | apply appendOnly_assignArray ].
Qed.

Lemma appendOnly_assign a c t tk src sk :
  appendOnly (assign rt E a c t tk src sk).
Proof.
  unfold assign.
  repeat first
    [ match goal with
      | |- appendOnly (match dispatch ?r ?e ?a ?c ?t ?tk ?s ?sk with _ => _ end) =>
          destruct (dispatch r e a c t tk s sk) as [h|] eqn:Hd;
          [ apply appendOnly_bind;
            [ eapply appendOnly_dispatch; exact Hd | intros ]
          | apply appendOnly_ret ]
      end
    | ao_step ].
Qed.

End AppendOnly.

Lemma eng_appendOnly (rt : GoRuntime) (fuel : nat) :
  engineAppendOnly (eng rt fuel).
Proof.
  induction fuel as [|n IH].
  - repeat split; intros; apply appendOnly_out_of_fuel.
  - repeat split; intros; cbn [eng e_assign e_assignSlice e_assignArray
                                e_assignMapFromStruct].
    + apply appendOnly_assign; exact IH.
    + apply appendOnly_assignSlice; exact IH.
    + apply appendOnly_assignArray; exact IH.
    + apply appendOnly_assignMapFromStruct; exact IH.
Qed.

(** X15. The engine only appends to the metadata.  Whenever assign
    returns, at any depth of the recursion and with or without an error,
    each of Keys, Unused and Unset is its value before the call followed by
    the entries added, and a sink that is absent stays absent; the same for
    Assign and the Metadata of the configuration. *)
Theorem metadata_append_only :
  forall (rt : GoRuntime) (fuel : nat) (a : assigner),
    (forall canSet t tk src sk s r s',
        assign rt (eng rt fuel) a canSet t tk src sk s = Done (r, s') ->
        grows s s')
    /\ (forall target source t' err s',
           Assign rt (S fuel) a target source [] = Done (t', err, s') ->
           grows (Metadata_ (config a)) s').
Proof.
  intros rt fuel a. split.
  - intros canSet t tk src sk s r s' H.
    exact (appendOnly_assign rt (eng rt fuel) (eng_appendOnly rt fuel)
             a canSet t tk src sk s r s' H).
  - intros target source t' err s' H. unfold Assign in H.
    destruct target as [[ | | | | | | | | |e [targetVal|]| | | ]|];
      try (inversion H; subst; apply grows_refl).
    cbn [eng e_assign] in H.
    destruct (assign rt (eng rt fuel) a true targetVal "" source ""
                (Metadata_ (config a))) as [[[t err0] s0]| |] eqn:Hrun;
      try discriminate H.
    inversion H; subst.
    exact (appendOnly_assign rt (eng rt fuel) (eng_appendOnly rt fuel)
             a true targetVal "" source "" _ _ _ Hrun).
Qed.

Lemma metadata_append_only_witness :
  (exists r s',
      assign sampleRuntime (eng sampleRuntime 2)
        (newAssigner Rev2 keysDemoConfig) true partDemoTarget "Vt"
        (Some (VMap TString TAny (Some partDemoEntries))) "vt"
        (Some (mkMetadata ["A"] ["b"] ["C"]))
      = Done (r, s')
      /\ grows (Some (mkMetadata ["A"] ["b"] ["C"])) s')
  /\ (exists t' err s',
         Assign sampleRuntime 3 (newAssigner Rev1 keysDemoConfig)
           (Some (VPtr (TStruct "T" []) (Some partDemoTarget)))
           (Some partDemoStruct) []
         = Done (t', err, s')
         /\ grows (Metadata_ (config (newAssigner Rev1 keysDemoConfig))) s').
Proof.
  split.
  - eexists _, _. split; [vm_compute; reflexivity|].
    eapply (proj1 (metadata_append_only sampleRuntime 2
                     (newAssigner Rev2 keysDemoConfig))
              true partDemoTarget "Vt"
              (Some (VMap TString TAny (Some partDemoEntries))) "vt").
    vm_compute; reflexivity.
  - eexists _, _, _. split; [vm_compute; reflexivity|].
    eapply (proj2 (metadata_append_only sampleRuntime 2
                     (newAssigner Rev1 keysDemoConfig))
              (Some (VPtr (TStruct "T" []) (Some partDemoTarget)))
              (Some partDemoStruct)).
    vm_compute; reflexivity.
Defined.

(** ** Unused keys and unset fields *)

Lemma RangeOrder_In (rt : GoRuntime) {A : Type} (l : list A) (x : A) :
  In x (RangeOrder rt l) <-> In x l.
Proof.
  split; intros H.
  - eapply Permutation_in; [apply Permutation_sym, RangeOrder_perm | exact H].
  - eapply Permutation_in; [apply RangeOrder_perm | exact H].
Qed.

Lemma addKey_In (k x : string) (l : list string) :
  In x (addKey k l) <-> x = k \/ In x l.
Proof.
  unfold addKey. destruct (existsb (String.eqb k) l) eqn:E.
  - apply existsb_eqb_In in E. split; [auto|]. intros [->|H]; assumption.
  - rewrite in_app_iff. simpl. split; intros [H|H]; auto.
    + destruct H as [H|[]]; auto.
Qed.

Lemma fold_addKey_In {A : Type} (f : A -> string) (l : list A)
  (acc : list string) (x : string) :
  In x (fold_left (fun acc k => addKey (f k) acc) l acc)
  <-> In x acc \/ exists y, In y l /\ f y = x.
Proof.
  revert acc. induction l as [|y r IH]; intros acc; simpl.
  - split; [auto | intros [H|(y & [] & _)]; exact H].
  - rewrite IH, addKey_In. split.
    + intros [[->|H]|(z & Hz & Hf)]; eauto.
    + intros [H|(z & [->|Hz] & Hf)]; eauto.
Qed.

Lemma deleteKey_In (k x : string) (l : list string) :
  In x (deleteKey k l) <-> In x l /\ x <> k.
Proof.
  unfold deleteKey. rewrite filter_In, negb_true_iff, String.eqb_neq. reflexivity.
Qed.

Lemma deleteField_In (n : string) (p : string * fieldInfo)
  (l : list (string * fieldInfo)) :
  In p (deleteField n l) <-> In p l /\ fst p <> n.
Proof.
  unfold deleteField. rewrite filter_In, negb_true_iff, String.eqb_neq. reflexivity.
Qed.

Lemma addMetaUnused_In (k : metaKey) (s : Sink) (m' : Metadata) (x : string) :
  addMetaUnused k s = Done (tt, Some m') ->
  (x = k /\ k <> "") \/ (exists m, s = Some m /\ In x (Unused m)) ->
  In x (Unused m').
Proof.
  unfold addMetaUnused, IsEmpty, modify, ret.
  destruct (String.eqb k "") eqn:E.
  - intros H. inversion H; subst.
    intros [(-> & Hk) | (m & Hm & Hin)].
    + apply String.eqb_eq in E. contradiction.
    + inversion Hm; subst. exact Hin.
  - destruct s as [m|]; intros H; inversion H; subst. simpl.
    intros [(-> & _) | (m0 & Hm & Hin)]; apply in_app_iff.
    + right; left; reflexivity.
    + inversion Hm; subst. left; exact Hin.
Qed.

Lemma addMetaUnused_Some (k : metaKey) (s : Sink) (m' : Metadata) :
  addMetaUnused k s = Done (tt, Some m') -> exists m, s = Some m.
Proof.
  unfold addMetaUnused, modify, ret. destruct (IsEmpty k), s as [m|];
    intros H; inversion H; subst; eauto.
Qed.

Lemma addMetaUnusedAll_In (sk : metaKey) (kind : reflect.Kind)
  (names : list string) :
  forall (s : Sink) (m' : Metadata) (x : string),
    addMetaUnusedAll sk kind names s = Done (tt, Some m') ->
    (exists n, In n names /\ x = newChild sk kind n /\ x <> "")
    \/ (exists m, s = Some m /\ In x (Unused m)) ->
    In x (Unused m').
Proof.
  induction names as [|n r IH]; intros s m' x H Hx.
  - simpl in H. unfold ret in H. inversion H; subst.
    destruct Hx as [(n & [] & _) | (m & Hm & Hin)].
    inversion Hm; subst. exact Hin.
  - simpl in H. apply bind_Done in H as ([] & s1 & H1 & H2).
    destruct s1 as [m1|].
    + apply (IH _ _ _ H2).
      destruct Hx as [(n0 & [->|Hn0] & -> & Hne) | Hold].
      * right. exists m1. split; [reflexivity|].
        apply (addMetaUnused_In _ _ _ _ H1). left. split; [reflexivity | exact Hne].
      * left. exists n0. auto.
      * right. exists m1. split; [reflexivity|].
        apply (addMetaUnused_In _ _ _ _ H1). right. exact Hold.
    + exfalso.
      pose proof (appendOnly_addMetaUnusedAll sk kind r None tt (Some m') H2) as G.
      exact G.
Qed.

Section Unused.

Variable rt : GoRuntime.
Variable E : engine.
Variable a : assigner.
Variables tk sk : metaKey.

Lemma assignStructFromMapBody_unused (sourceVal : value) (kT : type)
  (nf : string * fieldInfo) (st st' : fromMapState) (s s' : Sink) (k : string) :
  assignStructFromMapBody rt E a tk sk sourceVal kT nf st s = Done (st', s') ->
  actualName (snd nf) <> k ->
  In k (snd (fst st)) -> In k (snd (fst st')).
Proof.
  destruct st as [[[root mapKey] unused] errors].
  unfold assignStructFromMapBody. cbv zeta. intros H Hne Hin.
  apply bind_Done in H as ([kv kerr] & s1 & _ & H).
  destruct kerr; [unfold ret in H; inversion H; subst; exact Hin|].
  destruct (match rev a with Rev1 => Indirect (Some kv) | Rev2 => Some kv end)
    as [key|]; [|discriminate H].
  destruct (MapIndex sourceVal key) as [v|].
  - apply bind_Done in H as (b & s2 & _ & H).
    destruct b; [unfold ret in H; inversion H; subst; exact Hin|].
    destruct (negb (fieldCanSet (snd nf))).
    + apply bind_Done in H as ([] & s3 & _ & H).
      unfold ret in H; inversion H; subst; exact Hin.
    + apply bind_Done in H as ([x err] & s3 & _ & H).
      unfold ret in H; inversion H; subst. cbn [fst snd].
      apply deleteKey_In. split; [exact Hin | congruence].
  - apply bind_Done in H as ([] & s2 & _ & H).
    unfold ret in H; inversion H; subst; exact Hin.
Qed.

Lemma assignStructFromStructBody_unused (nf : string * fieldInfo)
  (st st' : fromStructState) (s s' : Sink) (p : string * fieldInfo) :
  assignStructFromStructBody E a tk sk nf st s = Done (st', s') ->
  fst nf <> fst p ->
  In p (snd (fst st)) -> In p (snd (fst st')).
Proof.
  destruct nf as [n tf], st as [[root sfields] errors].
  unfold assignStructFromStructBody. intros H Hne Hin.
  destruct (lookupField sfields n) as [sf|].
  - apply bind_Done in H as (b & s2 & _ & H).
    destruct b; [unfold ret in H; inversion H; subst; exact Hin|].
    destruct (negb (fieldCanSet tf)).
    + apply bind_Done in H as ([] & s3 & _ & H).
      unfold ret in H; inversion H; subst; exact Hin.
    + apply bind_Done in H as ([x err] & s3 & _ & H).
      unfold ret in H; inversion H; subst. cbn [fst snd].
      apply deleteField_In. split; [exact Hin|]. cbn [fst] in Hne. congruence.
  - apply bind_Done in H as ([] & s2 & _ & H).
    unfold ret in H; inversion H; subst; exact Hin.
Qed.

End Unused.

(** X16. What a struct target does not take is reported as unused.
    When a map with string keys is decoded into a struct, every key of the
    map that is the name of no flattened field of the target has its path
    in Unused afterwards; when a struct is decoded into a struct, so has
    every flattened field of the source whose name no flattened field of
    the target bears.  For any behaviour of the recursive calls. *)
Theorem unmatched_source_keys_unused :
  forall (rt : GoRuntime) (E : engine) (a : assigner) (canSet : bool)
         (targetVal : value) (tk sk : metaKey) (s : Sink) (t' : value)
         (err : option error) (m' : Metadata)
         (root : value) (fields : list (string * fieldInfo)),
    flattenStruct a canSet targetVal = Some (root, fields) ->
    (forall eT entries,
       assignStructFromMap rt E a canSet targetVal tk
         (VMap TString eT (Some entries)) sk s
       = Done ((t', err), Some m') ->
       forall k x,
         In (VString k, x) entries ->
         (forall nf, In nf fields -> actualName (snd nf) <> k) ->
         newChild sk reflect.Map k <> "" ->
         In (newChild sk reflect.Map k) (Unused m'))
    /\ (forall sourceVal sroot sfields,
        flattenStruct a false sourceVal = Some (sroot, sfields) ->
        assignStructFromStruct rt E a canSet targetVal tk sourceVal sk s
        = Done ((t', err), Some m') ->
        forall n fi,
          In (n, fi) sfields ->
          (forall nf, In nf fields -> fst nf <> n) ->
          newChild sk reflect.Struct n <> "" ->
          In (newChild sk reflect.Struct n) (Unused m')).
Proof.
  intros rt E a canSet targetVal tk sk s t' err m' root fields Hflat. split.
  - intros eT entries Hrun k x Hk Hnone Hne.
    unfold assignStructFromMap in Hrun. cbn [typeOf type_kind] in Hrun.
    cbn in Hrun. unfold flattenTarget in Hrun. rewrite Hflat in Hrun.
    apply bind_Done in Hrun as ([root0 fields0] & s0 & Hret & Hrun).
    unfold ret in Hret. inversion Hret; subst root0 fields0 s0. clear Hret.
    apply bind_Done in Hrun as ([[[root1 mk] unused] errs] & s1 & Hloop & Hrun).
    apply bind_Done in Hrun as ([] & s2 & Hall & Hrun).
    unfold ret in Hrun. inversion Hrun; subst. clear Hrun.
    apply (addMetaUnusedAll_In _ _ _ _ _ _ Hall).
    left. exists k. split; [|split; [reflexivity | exact Hne]].
    apply RangeOrder_In.
    refine (forEach_invariant _ (fun st _ => In k (snd (fst st))) _ _ _ _ _ _ _ Hloop).
    + intros nf st0 s3 st1 s4 Hin HI Hb.
      eapply assignStructFromMapBody_unused; [exact Hb | | exact HI].
      apply Hnone. apply RangeOrder_In in Hin. exact Hin.
    + cbn [fst snd]. apply fold_addKey_In. right.
      exists (VString k). split; [|reflexivity].
      apply RangeOrder_In. unfold map_keys.
      apply in_map_iff. exists (VString k, x). split; [reflexivity | exact Hk].
  - intros sourceVal sroot sfields Hsflat Hrun n fi Hn Hnone Hne.
    unfold assignStructFromStruct, flattenTarget, flattenSource in Hrun.
    rewrite Hflat, Hsflat in Hrun.
    apply bind_Done in Hrun as ([root0 fields0] & s0 & Hret & Hrun).
    unfold ret in Hret. inversion Hret; subst root0 fields0 s0. clear Hret.
    apply bind_Done in Hrun as (sf0 & s0 & Hret & Hrun).
    unfold ret in Hret. inversion Hret; subst sf0 s0. clear Hret.
    apply bind_Done in Hrun as ([[root1 sf1] errs] & s1 & Hloop & Hrun).
    apply bind_Done in Hrun as ([] & s2 & Hall & Hrun).
    unfold ret in Hrun. inversion Hrun; subst. clear Hrun.
    apply (addMetaUnusedAll_In _ _ _ _ _ _ Hall).
    left. exists n. split; [|split; [reflexivity | exact Hne]].
    apply RangeOrder_In. apply in_map_iff. exists (n, fi). split; [reflexivity|].
    refine (forEach_invariant _ (fun st _ => In (n, fi) (snd (fst st)))
              _ _ _ _ _ _ _ Hloop).
    + intros nf st0 s3 st1 s4 Hin HI Hb.
      eapply assignStructFromStructBody_unused; [exact Hb | | exact HI].
      cbn [fst]. apply Hnone. apply RangeOrder_In in Hin. exact Hin.
    + exact Hn.
Qed.

Lemma unmatched_source_keys_unused_witness :
  (exists t' m',
      assignStructFromMap sampleRuntime (eng sampleRuntime 3)
        (newAssigner Rev2 keysDemoConfig) true partDemoTarget ""
        (VMap TString TAny (Some partDemoEntries)) ""
        (Some (mkMetadata [] [] []))
      = Done ((t', None), Some m')
      /\ In (newChild "" reflect.Map "extra") (Unused m'))
  /\ (exists t' m',
         assignStructFromStruct sampleRuntime (eng sampleRuntime 3)
           (newAssigner Rev1 keysDemoConfig) true partDemoTarget ""
           partDemoStruct "" (Some (mkMetadata [] [] []))
         = Done ((t', None), Some m')
         /\ In (newChild "" reflect.Struct "Extra") (Unused m')).
Proof.
  split.
  - eexists _, _. split; [vm_compute; reflexivity|].
    eapply (proj1 (unmatched_source_keys_unused sampleRuntime
                     (eng sampleRuntime 3) (newAssigner Rev2 keysDemoConfig)
                     true partDemoTarget "" "" (Some (mkMetadata [] [] []))
                     _ _ _ _ _ ltac:(vm_compute; reflexivity))
              TAny partDemoEntries).
    + vm_compute; reflexivity.
    + right; left; reflexivity.
    + intros nf [<-|[<-|[]]]; discriminate.
    + vm_compute; discriminate.
  - eexists _, _. split; [vm_compute; reflexivity|].
    eapply (proj2 (unmatched_source_keys_unused sampleRuntime
                     (eng sampleRuntime 3) (newAssigner Rev1 keysDemoConfig)
                     true partDemoTarget "" "" (Some (mkMetadata [] [] []))
                     _ _ _ _ _ ltac:(vm_compute; reflexivity))
              partDemoStruct).
    + vm_compute; reflexivity.
    + vm_compute; reflexivity.
    + right; left; reflexivity.
    + intros nf [<-|[<-|[]]]; discriminate.
    + vm_compute; discriminate.
Defined.

Lemma forEach_app {X St : Type} (body : X -> St -> M St) (l1 l2 : list X)
  (st : St) (s : Sink) :
  forEach body (l1 ++ l2) st s
  = bind (forEach body l1 st) (fun st1 => forEach body l2 st1) s.
Proof.
  revert st s. induction l1 as [|x r IH]; intros st s; simpl.
  - reflexivity.
  - unfold bind. destruct (body x st s) as [[st1 s1]| |]; try reflexivity.
    rewrite IH. reflexivity.
Qed.

Lemma grows_Unset (s s' : Sink) (m : Metadata) (x : string) :
  grows s s' -> s = Some m -> In x (Unset m) ->
  exists m', s' = Some m' /\ In x (Unset m').
Proof.
  intros G -> Hin. destruct s' as [m'|]; simpl in G; [|contradiction].
  destruct G as (_ & _ & (l & Hl)). exists m'. split; [reflexivity|].
  rewrite Hl. apply in_app_iff. left; exact Hin.
Qed.

Lemma grows_Some (s s' : Sink) (m : Metadata) :
  grows s s' -> s = Some m -> exists m', s' = Some m'.
Proof.
  intros G ->. destruct s' as [m'|]; simpl in G; [eauto | contradiction].
Qed.

Lemma addMetaUnset_In (k : metaKey) (m : Metadata) :
  k <> "" ->
  exists m', addMetaUnset k (Some m) = Done (tt, Some m') /\ In k (Unset m').
Proof.
  intros Hk. apply String.eqb_neq in Hk.
  unfold addMetaUnset, IsEmpty, modify. rewrite Hk.
  eexists. split; [reflexivity|]. simpl. apply in_app_iff. right; left; reflexivity.
Qed.

Lemma lookupField_None (fields : list (string * fieldInfo)) (n : string) :
  lookupField fields n = None <-> forall p, In p fields -> fst p <> n.
Proof.
  induction fields as [|[k fi] r IH]; simpl.
  - split; [intros _ p [] | reflexivity].
  - destruct (String.eqb k n) eqn:E.
    + apply String.eqb_eq in E. split; [discriminate|].
      intros H. exfalso. apply (H (k, fi)); [left; reflexivity | exact E].
    + apply String.eqb_neq in E. rewrite IH. split.
      * intros H p [<-|Hp]; [exact E | apply H; exact Hp].
      * intros H p Hp. apply H. right; exact Hp.
Qed.

Section Unset.

Variable rt : GoRuntime.
Variable E : engine.
Variable a : assigner.
Variables tk sk : metaKey.
Hypothesis HE : engineAppendOnly E.

Lemma appendOnly_fromStructBody nf st :
  appendOnly (assignStructFromStructBody E a tk sk nf st).
Proof.
  unfold assignStructFromStructBody. ao; apply (proj1 HE).
Qed.

Lemma appendOnly_fromMapBody sourceVal kT nf st :
  appendOnly (assignStructFromMapBody rt E a tk sk sourceVal kT nf st).
Proof.
  unfold assignStructFromMapBody. cbv zeta. ao; apply (proj1 HE).
Qed.

Lemma fromStructBody_shrinks nf st st' s s' p :
  assignStructFromStructBody E a tk sk nf st s = Done (st', s') ->
  In p (snd (fst st')) -> In p (snd (fst st)).
Proof.
  destruct nf as [n tf], st as [[root sfields] errors].
  unfold assignStructFromStructBody. intros H Hin.
  destruct (lookupField sfields n) as [sf|].
  - apply bind_Done in H as (b & s2 & _ & H).
    destruct b; [unfold ret in H; inversion H; subst; exact Hin|].
    destruct (negb (fieldCanSet tf)).
    + apply bind_Done in H as ([] & s3 & _ & H).
      unfold ret in H; inversion H; subst; exact Hin.
    + apply bind_Done in H as ([x err] & s3 & _ & H).
      unfold ret in H; inversion H; subst. cbn [fst snd] in *.
      apply deleteField_In in Hin. apply Hin.
  - apply bind_Done in H as ([] & s2 & _ & H).
    unfold ret in H; inversion H; subst; exact Hin.
Qed.

(** A target field no source field is named like is reported as unset. *)
Lemma assignStructFromStruct_unset canSet targetVal sourceVal m t' err s'
  root fields sroot sfields :
  flattenStruct a canSet targetVal = Some (root, fields) ->
  flattenStruct a false sourceVal = Some (sroot, sfields) ->
  assignStructFromStruct rt E a canSet targetVal tk sourceVal sk (Some m)
  = Done ((t', err), s') ->
  exists m', s' = Some m'
    /\ forall nf, In nf fields -> lookupField sfields (fst nf) = None ->
                  newChild tk reflect.Struct (displayName (snd nf)) <> "" ->
                  In (newChild tk reflect.Struct (displayName (snd nf)))
                     (Unset m').
Proof.
  intros Hflat Hsflat Hrun.
  assert (Hao : appendOnly (assignStructFromStruct rt E a canSet targetVal tk
                              sourceVal sk))
    by (apply appendOnly_assignStructFromStruct; exact HE).
  destruct (grows_Some _ _ m (Hao _ _ _ Hrun) eq_refl) as (m' & ->).
  exists m'. split; [reflexivity|].
  intros nf Hnf Hnone Hne.
  unfold assignStructFromStruct, flattenTarget, flattenSource in Hrun.
  rewrite Hflat, Hsflat in Hrun.
  apply bind_Done in Hrun as ([root0 fields0] & s0 & Hret & Hrun).
  unfold ret in Hret. inversion Hret; subst root0 fields0 s0. clear Hret.
  apply bind_Done in Hrun as (sf0 & s0 & Hret & Hrun).
  unfold ret in Hret. inversion Hret; subst sf0 s0. clear Hret.
  apply bind_Done in Hrun as ([[root1 sf1] errs] & s1 & Hloop & Hrun).
  apply bind_Done in Hrun as ([] & s2 & Hall & Hrun).
  unfold ret in Hrun. inversion Hrun; subst. clear Hrun.
  apply (RangeOrder_In rt) in Hnf.
  destruct (in_split _ _ Hnf) as (pre & post & Hsplit).
  rewrite Hsplit in Hloop. rewrite forEach_app in Hloop.
  apply bind_Done in Hloop as ([[rootp sfp] errsp] & sp & Hpre & Hloop).
  cbn [forEach] in Hloop.
  apply bind_Done in Hloop as (stb & sb & Hbody & Hpost).
  (* the prefix only removes source fields and only appends to the sink *)
  assert (Hsub : forall p, In p sfp -> In p sfields).
  { refine (forEach_invariant _
              (fun st _ => forall p, In p (snd (fst st)) -> In p sfields)
              _ _ _ _ _ _ _ Hpre); [|intros p Hp; exact Hp].
    intros x st0 s3 st1 s4 _ HI Hb p Hp. apply HI.
    eapply fromStructBody_shrinks; [exact Hb | exact Hp]. }
  assert (Hgp : grows (Some m) sp).
  { apply (appendOnly_forEach _ pre (fun x st => appendOnly_fromStructBody x st)
             _ _ _ _ Hpre). }
  destruct (grows_Some _ _ m Hgp eq_refl) as (mp & ->).
  (* the round of [nf] *)
  assert (Hnone' : lookupField sfp (fst nf) = None).
  { apply lookupField_None. intros p Hp.
    apply (proj1 (lookupField_None sfields (fst nf)) Hnone). apply Hsub; exact Hp. }
  destruct nf as [n tf]. cbn [fst snd] in *.
  unfold assignStructFromStructBody in Hbody. rewrite Hnone' in Hbody.
  destruct (addMetaUnset_In _ mp Hne) as (mb & Hset & Hin).
  rewrite (bind_Done_eq _ Hset) in Hbody.
  unfold ret in Hbody. inversion Hbody; subst stb sb. clear Hbody.
  (* the rest only appends *)
  assert (Hg1 : grows (Some mb) s1).
  { apply (appendOnly_forEach _ post (fun x st => appendOnly_fromStructBody x st)
             _ _ _ _ Hpost). }
  destruct (grows_Unset _ _ mb _ Hg1 eq_refl Hin) as (m1 & -> & Hin1).
  pose proof (appendOnly_addMetaUnusedAll _ _ _ _ _ _ Hall) as Hg2.
  destruct (grows_Unset _ _ m1 _ Hg2 eq_refl Hin1) as (m2 & Heq & Hin2).
  inversion Heq; subst. exact Hin2.
Qed.

End Unset.

(** The name of a field, decoded into the key slot of a map with string
    keys: behind a fresh pointer in the first revision, in the slot shared
    by the rounds in the rewrite. *)
Lemma fieldName_key (rt : GoRuntime) (n : nat) (a : assigner) (nm : string)
  (s : Sink) :
  match rev a with
  | Rev1 =>
      weakAssign rt (eng rt (S (S n))) a false
        (VPtr TString (Some (Zero TString))) (Some (VString nm)) s
      = Done ((VPtr TString (Some (VString nm)), None), s)
  | Rev2 =>
      forall x,
        weakAssign rt (eng rt (S (S n))) a true (VString x) (Some (VString nm)) s
        = Done ((VString nm, None), s)
  end.
Proof. destruct (rev a) eqn:Hr; [|intros x]; unfold weakAssign; rewrite Hr; reflexivity. Qed.

Section UnsetFromMap.

Variable rt : GoRuntime.
Variable n : nat.
Variable a : assigner.
Variables tk sk : metaKey.
Variable eT : type.
Variable entries : list (value * value).

Let E := eng rt (S (S n)).
Let sourceVal := VMap TString eT (Some entries).

(** One round of the loop of [assignStructFromMap] on a map with string
    keys, up to the lookup of the field's name. *)
Lemma fromMapBody_lookup (nf : string * fieldInfo) root x unused errors s :
  assignStructFromMapBody rt E a tk sk sourceVal TString nf
    (root, VString x, unused, errors) s
  = let targetField := snd nf in
    let mapKey := match rev a with
                  | Rev1 => VString x
                  | Rev2 => VString (actualName targetField)
                  end in
    let targetFieldKey :=
      newChild tk reflect.Struct (displayName targetField) in
    match assoc entries (VString (actualName targetField)) with
    | None =>
        bind (addMetaUnset targetFieldKey)
          (fun _ => ret (root, mapKey, unused, errors)) s
    | Some value =>
        let sourceFieldKey :=
          newChild sk reflect.Map (actualName targetField) in
        bind (shouldSkipKey a targetFieldKey sourceFieldKey)
          (fun skip =>
             if skip then ret (root, mapKey, unused, errors)
             else if negb (fieldCanSet targetField) then
               bind (addMetaUnset targetFieldKey)
                 (fun _ => ret (root, mapKey, unused, errors))
             else
               bind (e_assign E a true (live root targetField) targetFieldKey
                       (pass a value) sourceFieldKey)
                 (fun r =>
                    match r with
                    | (y, err) =>
                        ret (set_at root (fieldLoc targetField) y, mapKey,
                             deleteKey (actualName targetField) unused,
                             addError errors err)
                    end)) s
    end.
Proof.
  unfold assignStructFromMapBody. cbv zeta.
  pose proof (fieldName_key rt n a (actualName (snd nf)) s) as Hk.
  fold E in Hk.
  destruct (rev a) eqn:Hr.
  - cbn [Zero] in Hk. rewrite (bind_Done_eq _ Hk). cbn [Indirect MapIndex].
    unfold sourceVal. cbn [MapIndex].
    destruct (assoc entries _); reflexivity.
  - rewrite (bind_Done_eq _ (Hk x)). unfold sourceVal. cbn [MapIndex].
    destruct (assoc entries _); reflexivity.
Qed.

Lemma fromMapBody_keySlot (nf : string * fieldInfo) root x unused errors s
  st' s' :
  assignStructFromMapBody rt E a tk sk sourceVal TString nf
    (root, VString x, unused, errors) s = Done (st', s') ->
  exists y, snd (fst (fst st')) = VString y.
Proof.
  rewrite fromMapBody_lookup. cbv zeta.
  set (mk := match rev a with Rev1 => VString x | Rev2 => _ end).
  assert (Hmk : exists y, mk = VString y)
    by (unfold mk; destruct (rev a); eauto).
  destruct (assoc entries _).
  - intros H. apply bind_Done in H as (b & s1 & _ & H). destruct b.
    + unfold ret in H. inversion H; subst. exact Hmk.
    + destruct (negb _).
      * apply bind_Done in H as ([] & s2 & _ & H).
        unfold ret in H. inversion H; subst. exact Hmk.
      * apply bind_Done in H as ([y err] & s2 & _ & H).
        unfold ret in H. inversion H; subst. exact Hmk.
  - intros H. apply bind_Done in H as ([] & s2 & _ & H).
    unfold ret in H. inversion H; subst. exact Hmk.
Qed.

(** A target field whose name is no key of the source map is reported as
    unset. *)
Lemma assignStructFromMap_unset canSet targetVal m t' err s' root fields :
  flattenStruct a canSet targetVal = Some (root, fields) ->
  assignStructFromMap rt E a canSet targetVal tk sourceVal sk (Some m)
  = Done ((t', err), s') ->
  exists m', s' = Some m'
    /\ forall nf, In nf fields ->
                  assoc entries (VString (actualName (snd nf))) = None ->
                  newChild tk reflect.Struct (displayName (snd nf)) <> "" ->
                  In (newChild tk reflect.Struct (displayName (snd nf)))
                     (Unset m').
Proof.
  intros Hflat Hrun.
  assert (HE : engineAppendOnly E) by apply eng_appendOnly.
  assert (Hao : appendOnly (assignStructFromMap rt E a canSet targetVal tk
                              sourceVal sk))
    by (apply appendOnly_assignStructFromMap; exact HE).
  destruct (grows_Some _ _ m (Hao _ _ _ Hrun) eq_refl) as (m' & ->).
  exists m'. split; [reflexivity|].
  intros nf Hnf Hnone Hne.
  unfold assignStructFromMap, sourceVal in Hrun. cbn [typeOf type_kind] in Hrun.
  cbn in Hrun. unfold flattenTarget in Hrun. rewrite Hflat in Hrun.
  apply bind_Done in Hrun as ([root0 fields0] & s0 & Hret & Hrun).
  unfold ret in Hret. inversion Hret; subst root0 fields0 s0. clear Hret.
  apply bind_Done in Hrun as ([[[root1 mk] unused] errs] & s1 & Hloop & Hrun).
  apply bind_Done in Hrun as ([] & s2 & Hall & Hrun).
  unfold ret in Hrun. inversion Hrun; subst. clear Hrun.
  apply (RangeOrder_In rt) in Hnf.
  destruct (in_split _ _ Hnf) as (pre & post & Hsplit).
  rewrite Hsplit in Hloop. rewrite forEach_app in Hloop.
  apply bind_Done in Hloop as ([[[rootp mkp] unusedp] errsp] & sp & Hpre & Hloop).
  cbn [forEach] in Hloop.
  apply bind_Done in Hloop as (stb & sb & Hbody & Hpost).
  fold sourceVal in Hpre, Hbody, Hpost.
  assert (Hslot : exists x, mkp = VString x).
  { refine (forEach_invariant _
              (fun st _ => exists x, snd (fst (fst st)) = VString x)
              _ _ _ _ _ _ _ Hpre); [|exists ""; reflexivity].
    intros y [[[r0 k0] u0] e0] s3 st1 s4 _ (x0 & Hx0) Hb.
    cbn [fst snd] in Hx0. subst k0.
    eapply fromMapBody_keySlot; exact Hb. }
  destruct Hslot as (x & ->).
  assert (Hgp : grows (Some m) sp).
  { apply (appendOnly_forEach _ pre
             (fun y st => appendOnly_fromMapBody rt E a tk sk HE sourceVal
                            TString y st) _ _ _ _ Hpre). }
  destruct (grows_Some _ _ m Hgp eq_refl) as (mp & ->).
  rewrite fromMapBody_lookup in Hbody. cbv zeta in Hbody.
  rewrite Hnone in Hbody.
  destruct (addMetaUnset_In _ mp Hne) as (mb & Hset & Hin).
  rewrite (bind_Done_eq _ Hset) in Hbody.
  unfold ret in Hbody. inversion Hbody; subst stb sb. clear Hbody.
  assert (Hg1 : grows (Some mb) s1).
  { apply (appendOnly_forEach _ post
             (fun y st => appendOnly_fromMapBody rt E a tk sk HE sourceVal
                            TString y st) _ _ _ _ Hpost). }
  destruct (grows_Unset _ _ mb _ Hg1 eq_refl Hin) as (m1 & -> & Hin1).
  pose proof (appendOnly_addMetaUnusedAll _ _ _ _ _ _ Hall) as Hg2.
  destruct (grows_Unset _ _ m1 _ Hg2 eq_refl Hin1) as (m2 & Heq & Hin2).
  inversion Heq; subst. exact Hin2.
Qed.

End UnsetFromMap.

(** X17. What the source does not provide is reported as unset.  When
    a map with string keys is decoded into a struct, every flattened field
    of the target whose name is no key of the map has its path in Unset
    afterwards; when a struct is decoded into a struct, so has every
    flattened field of the target whose name no flattened field of the
    source bears. *)
Theorem unmatched_target_fields_unset :
  forall (rt : GoRuntime) (n : nat) (a : assigner) (canSet : bool)
         (targetVal : value) (tk sk : metaKey) (m : Metadata) (t' : value)
         (err : option error) (s' : Sink)
         (root : value) (fields : list (string * fieldInfo)),
    flattenStruct a canSet targetVal = Some (root, fields) ->
    (forall eT entries,
       assignStructFromMap rt (eng rt (S (S n))) a canSet targetVal tk
         (VMap TString eT (Some entries)) sk (Some m)
       = Done ((t', err), s') ->
       exists m',
         s' = Some m'
         /\ forall nf,
              In nf fields ->
              assoc entries (VString (actualName (snd nf))) = None ->
              newChild tk reflect.Struct (displayName (snd nf)) <> "" ->
              In (newChild tk reflect.Struct (displayName (snd nf)))
                 (Unset m'))
    /\ (forall sourceVal sroot sfields,
        flattenStruct a false sourceVal = Some (sroot, sfields) ->
        assignStructFromStruct rt (eng rt n) a canSet targetVal tk sourceVal sk
          (Some m)
        = Done ((t', err), s') ->
        exists m',
          s' = Some m'
          /\ forall nf,
               In nf fields -> lookupField sfields (fst nf) = None ->
               newChild tk reflect.Struct (displayName (snd nf)) <> "" ->
               In (newChild tk reflect.Struct (displayName (snd nf)))
                  (Unset m')).
Proof.
  intros rt n a canSet targetVal tk sk m t' err s' root fields Hflat. split.
  - intros eT entries Hrun.
    eapply assignStructFromMap_unset; [exact Hflat | exact Hrun].
  - intros sourceVal sroot sfields Hsflat Hrun.
    eapply assignStructFromStruct_unset;
      [apply eng_appendOnly | exact Hflat | exact Hsflat | exact Hrun].
Qed.

Lemma unmatched_target_fields_unset_witness :
  (exists t' m',
      assignStructFromMap sampleRuntime (eng sampleRuntime 2)
        (newAssigner Rev2 keysDemoConfig) true partDemoTarget ""
        (VMap TString TAny (Some partDemoEntries)) ""
        (Some (mkMetadata [] [] []))
      = Done ((t', None), Some m')
      /\ In (newChild "" reflect.Struct "Age") (Unset m'))
  /\ (exists t' m',
         assignStructFromStruct sampleRuntime (eng sampleRuntime 1)
           (newAssigner Rev1 keysDemoConfig) true partDemoTarget ""
           partDemoStruct "" (Some (mkMetadata [] [] []))
         = Done ((t', None), Some m')
         /\ In (newChild "" reflect.Struct "Age") (Unset m')).
Proof.
  split.
  - eexists _, _. split; [vm_compute; reflexivity|].
    destruct (proj1 (unmatched_target_fields_unset sampleRuntime 0
                       (newAssigner Rev2 keysDemoConfig) true partDemoTarget
                       "" "" (mkMetadata [] [] []) _ _ _ _ _
                       ltac:(vm_compute; reflexivity))
                TAny partDemoEntries ltac:(vm_compute; reflexivity))
      as (m' & Hm' & H).
    inversion Hm'; subst m'.
    refine (H (_, _) (or_intror (or_introl eq_refl)) eq_refl _).
    vm_compute; discriminate.
  - eexists _, _. split; [vm_compute; reflexivity|].
    destruct (proj2 (unmatched_target_fields_unset sampleRuntime 1
                       (newAssigner Rev1 keysDemoConfig) true partDemoTarget
                       "" "" (mkMetadata [] [] []) _ _ _ _ _
                       ltac:(vm_compute; reflexivity))
                partDemoStruct _ _ ltac:(vm_compute; reflexivity)
                ltac:(vm_compute; reflexivity))
      as (m' & Hm' & H).
    inversion Hm'; subst m'.
    refine (H (_, _) (or_intror (or_introl eq_refl)) eq_refl _).
    vm_compute; discriminate.
Defined.

(** ** Copies of scalars, slices and records *)

Lemma shouldSkipKey_noSkips (a : assigner) (tk sk : metaKey) (s : Sink) :
  noSkips a -> shouldSkipKey a tk sk s = Done (false, s).
Proof.
  intros (H1 & H2). unfold shouldSkipKey. rewrite H1, H2.
  destruct (String.eqb tk "" || String.eqb sk "")%bool; [reflexivity|].
  destruct (rev a); reflexivity.
Qed.

(** A scalar the target can hold as it is, is copied into it. *)
Lemma assign_copies (rt : GoRuntime) (E : engine) (a : assigner)
  (old new : value) (tk sk : metaKey) (src : option value) (s : Sink) :
  shouldSkipKey a tk sk s = Done (false, s) ->
  SkipSameValues (config a) = false ->
  copies rt (rev a) old new ->
  unwrapped a src = Some new ->
  assign rt E a true old tk src sk s = Done ((new, None), recordKey tk s).
Proof.
  intros Hskip Hsame Hc Hsrc.
  assert (Hsv : exists sv, src = Some sv /\ (forall e, sv <> VPtr e None)
                           /\ unwrapped a (Some sv) = Some new).
  { destruct src as [sv|].
    - exists sv. split; [reflexivity|]. split; [|exact Hsrc].
      intros e ->. unfold unwrapped in Hsrc.
      destruct (rev a); inversion Hsrc; subst; inversion Hc.
    - unfold unwrapped in Hsrc. destruct (rev a); discriminate Hsrc. }
  destruct Hsv as (sv & -> & Hnn & Hun).
  rewrite (assign_dispatch rt E a true old tk sk sv s Hskip Hnn)
    by (rewrite Hsame; reflexivity).
  rewrite Hun. clear Hun Hnn Hsrc sv Hskip.
  destruct a as [c cache r]. cbn [rev config] in *.
  destruct Hc as [b0 b | s0 str | k i0 i Hr | k u0 u Hk Hr | k f0 f Hn Hf];
    try (apply (proj2 (wrapS_in_range (int_bits k) i (int_bits_pos k))) in Hr);
    try (apply (proj2 (wrapU_in_range (uint_bits k) u (uint_bits_pos k))) in Hr);
    try (destruct k; try (contradiction Hk; reflexivity));
    destruct r; cbn -[wrapS wrapU Z.pow recordKey] in *;
    unfold setFloatValue; rewrite ?(Hn eq_refl);
    cbn -[wrapS wrapU Z.pow recordKey];
    unfold bind, ret; rewrite ?addMetaKey_run, ?Hr, ?Hf; reflexivity.
Qed.

Lemma grow_enough (e : type) (l : list value) (i : nat) :
  (i < List.length l)%nat -> grow e l i = l.
Proof.
  intros H. unfold grow.
  replace (S i - List.length l)%nat with 0%nat by lia.
  simpl. apply app_nil_r.
Qed.

Lemma set_nth_middle {A : Type} (l1 l2 : list A) (x y : A) :
  set_nth (l1 ++ x :: l2) (List.length l1) y = l1 ++ y :: l2.
Proof. induction l1 as [|z r IH]; simpl; [reflexivity | rewrite IH; reflexivity]. Qed.

Lemma nth_middle' {A : Type} (l1 l2 : list A) (x d : A) :
  nth (List.length l1) (l1 ++ x :: l2) d = x.
Proof. induction l1 as [|z r IH]; simpl; [reflexivity | exact IH]. Qed.

(** The loop of [assignSlice] over scalars the elements can hold as they
    are: one element after the other is copied. *)
Lemma assignSliceLoop_copies (rt : GoRuntime) (E' E : engine) (a : assigner)
  (e : type) (tk sk : metaKey) :
  e_assign E' = assign rt E ->
  noSkips a -> SkipSameValues (config a) = false ->
  forall (ys rest done : list value) (s : Sink),
    Forall2 (fun y x => copies rt (rev a) (Zero e) x
                        /\ unwrapped a (pass a y) = Some x) ys rest ->
    exists s',
      forEach (assignSliceBody E' a e tk sk)
        (combine (seq (List.length done) (List.length ys)) ys)
        (done ++ repeat (Zero e) (List.length rest), []) s
      = Done ((done ++ rest, []), s').
Proof.
  intros HE Hns Hsame ys rest done s H. revert done s.
  induction H as [|y x ys rest (Hc & Hu) _ IH]; intros done s.
  - exists s. simpl. rewrite app_nil_r. reflexivity.
  - cbn [List.length seq combine forEach repeat].
    unfold bind at 1. unfold assignSliceBody at 1.
    rewrite grow_enough
      by (rewrite length_app; cbn [List.length]; lia).
    rewrite nth_middle'.
    rewrite (bind_Done_eq _ (shouldSkipKey_noSkips a _ _ s Hns)).
    rewrite HE.
    rewrite (bind_Done_eq _
               (assign_copies rt E a (Zero e) x _ _ (pass a y) s
                  (shouldSkipKey_noSkips a _ _ s Hns) Hsame Hc Hu)).
    unfold ret at 1. rewrite set_nth_middle. cbn [addError].
    destruct (IH (done ++ [x]) (recordKey (newChild tk reflect.Slice
                                             (Itoa (List.length done))) s))
      as (s' & Hs').
    exists s'.
    rewrite length_app in Hs'. cbn [List.length] in Hs'.
    rewrite Nat.add_1_r in Hs'.
    rewrite <- !app_assoc in Hs'. cbn [app] in Hs'. exact Hs'.
Qed.

Lemma copies_pass (rt : GoRuntime) (a : assigner) (old x : value) :
  copies rt (rev a) old x ->
  unwrapped a (pass a x) = Some x
  /\ unwrapped a (pass a (VIface (Some x))) = Some x.
Proof.
  intros H. unfold unwrapped, pass. destruct (rev a); destruct H; split; reflexivity.
Qed.

Lemma Forall2_map_l {A B : Type} (R : B -> A -> Prop) (f : A -> B) (l : list A) :
  Forall (fun x => R (f x) x) l -> Forall2 R (map f l) l.
Proof. induction 1; simpl; constructor; assumption. Qed.

Lemma assignSlice_scalars (rt : GoRuntime) (n : nat) (a : assigner) (e eS : type)
  (ys src : list value) (tk sk : metaKey) (s : Sink) :
  noSkips a -> SkipSameValues (config a) = false ->
  Forall2 (fun y x => copies rt (rev a) (Zero e) x
                      /\ unwrapped a (pass a y) = Some x) ys src ->
  exists s',
    assignSlice (eng rt (S n)) a true (VSlice e None) tk
      (Some (VSlice eS (Some ys))) sk s
    = Done ((VSlice e (Some src), None), s').
Proof.
  intros Hns Hsame Hall.
  destruct (assignSliceLoop_copies rt (eng rt (S n)) (eng rt n) a e tk sk
              eq_refl Hns Hsame ys src [] s Hall) as (s' & Hloop).
  exists s'. unfold assignSlice. cbn [Indirect Kind_ value_kind typeOf type_kind].
  cbn [isArraySlice reflect.kind_eqb reflect.kind_num Z.eqb orb negb].
  cbn [Elems type_elem typeOf].
  assert (Hlen : List.length ys = List.length src)
    by (eapply Forall2_length; exact Hall).
  unfold indexed. cbn [app List.length] in Hloop.
  rewrite <- Hlen in Hloop.
  change (negb (isArraySlice reflect.Slice)) with false. cbv iota.
  rewrite (bind_Done_eq _ Hloop). reflexivity.
Qed.

(** X19. Decoding a slice of scalars into a nil slice of the same
    element type gives a slice with exactly the elements of the source, in
    their order, and no error; the same when the source is a []any that
    holds these scalars.  Without skip paths and without SkipSameValues. *)
Theorem slice_of_scalars_copies :
  forall (rt : GoRuntime) (n : nat) (a : assigner) (e : type)
         (src : list value) (tk sk : metaKey) (s : Sink),
    noSkips a -> SkipSameValues (config a) = false ->
    Forall (fun x => copies rt (rev a) (Zero e) x) src ->
    (exists s',
        assignSlice (eng rt (S n)) a true (VSlice e None) tk
          (Some (VSlice e (Some src))) sk s
        = Done ((VSlice e (Some src), None), s'))
    /\ (exists s',
           assignSlice (eng rt (S n)) a true (VSlice e None) tk
             (Some (VSlice TAny (Some (map (fun x => VIface (Some x)) src))))
             sk s
           = Done ((VSlice e (Some src), None), s')).
Proof.
  intros rt n a e src tk sk s Hns Hsame Hall. split.
  - apply assignSlice_scalars; try assumption.
    rewrite <- (map_id src) at 1. apply Forall2_map_l.
    eapply Forall_impl; [|exact Hall]. intros x Hx. cbv beta.
    split; [exact Hx | apply (copies_pass rt a (Zero e) x Hx)].
  - apply assignSlice_scalars; try assumption.
    apply Forall2_map_l.
    eapply Forall_impl; [|exact Hall]. intros x Hx. cbv beta.
    split; [exact Hx | apply (copies_pass rt a (Zero e) x Hx)].
Qed.

Lemma slice_of_scalars_copies_witness :
  (exists s',
      assignSlice (eng sampleRuntime 1) (defaultAssigner sampleRuntime Rev2)
        true (VSlice (TInt KInt8) None) "Vs"
        (Some (VSlice (TInt KInt8) (Some [VInt KInt8 1; VInt KInt8 (-2)])))
        "vs" None
      = Done ((VSlice (TInt KInt8) (Some [VInt KInt8 1; VInt KInt8 (-2)]),
               None), s'))
  /\ (exists s',
         assignSlice (eng sampleRuntime 1) (defaultAssigner sampleRuntime Rev2)
           true (VSlice (TInt KInt8) None) "Vs"
           (Some (VSlice TAny
                    (Some (map (fun x => VIface (Some x))
                             [VInt KInt8 1; VInt KInt8 (-2)]))))
           "vs" None
         = Done ((VSlice (TInt KInt8) (Some [VInt KInt8 1; VInt KInt8 (-2)]),
                  None), s')).
Proof.
  apply (slice_of_scalars_copies sampleRuntime 0
           (defaultAssigner sampleRuntime Rev2) (TInt KInt8)
           [VInt KInt8 1; VInt KInt8 (-2)] "Vs" "vs" None
           (conj eq_refl eq_refl) eq_refl).
  repeat constructor; simpl; lia.
Defined.

Lemma bytes_string_bytes (str : string) : bytes_string (string_bytes str) = str.
Proof.
  induction str as [|c r IH]; simpl; [reflexivity|].
  rewrite Nat2Z.id, ascii_nat_embedding, IH. reflexivity.
Qed.

Lemma string_bytes_copies (rt : GoRuntime) (r : revision) (str : string) :
  Forall (fun x => copies rt r (Zero (TUint KUint8)) x) (string_bytes str).
Proof.
  induction str as [|c rest IH]; simpl; constructor; [|exact IH].
  apply copies_uint; [discriminate|].
  pose proof (nat_ascii_bounded c) as Hb. cbn [uint_bits].
  change (2 ^ 8) with 256. lia.
Qed.

(** X23. In weak mode a string and its bytes convert into each other:
    a string decoded into a nil []byte gives the bytes of the string, and
    these bytes decoded into a string give the string back.  Without skip
    paths and without SkipSameValues. *)
Theorem string_bytes_round_trip :
  forall (rt : GoRuntime) (n : nat) (a : assigner) (str : string)
         (tk sk : metaKey) (s : Sink),
    weak a = true -> noSkips a -> SkipSameValues (config a) = false ->
    (exists s',
        assignSlice (eng rt (S (S n))) a true (VSlice (TUint KUint8) None) tk
          (Some (VString str)) sk s
        = Done ((VSlice (TUint KUint8) (Some (string_bytes str)), None), s'))
    /\ (forall old tk' sk' s1,
           assignString rt a true (VString old) tk'
             (Some (VSlice (TUint KUint8) (Some (string_bytes str)))) sk' s1
           = Done ((VString str, None), s1)).
Proof.
  intros rt n a str tk sk s Hw Hns Hsame. split.
  - destruct (assignSlice_scalars rt n a (TUint KUint8) (TUint KUint8)
                (string_bytes str) (string_bytes str) tk sk s Hns Hsame)
      as (s' & Hrun).
    + rewrite <- (map_id (string_bytes str)) at 1. apply Forall2_map_l.
      eapply Forall_impl; [|apply (string_bytes_copies rt (rev a) str)].
      intros x Hx. cbv beta.
      split; [exact Hx | apply (copies_pass rt a _ x Hx)].
    + exists s'. unfold assignSlice at 1.
      cbn [Indirect Kind_ value_kind typeOf type_kind].
      change (negb (isArraySlice reflect.String)) with true. cbv iota.
      rewrite Hw. cbn [type_elem type_kind uint_kind reflect.kind_eqb
                        reflect.kind_num Z.eqb andb String_].
      cbn [eng e_assignSlice]. exact Hrun.
  - intros old tk' sk' s1. unfold assignString. cbn [Indirect]. cbv zeta.
    rewrite sourceKind_not_string by discriminate.
    rewrite sourceKind_not_bool by discriminate.
    rewrite sourceKind_sequence by (left; reflexivity).
    unfold kindIsInt, kindIsUint, kindIsFloat. rewrite Hw.
    destruct (rev a); cbn; rewrite bytes_string_bytes; reflexivity.
Qed.

Lemma string_bytes_round_trip_witness :
  (exists s',
      assignSlice (eng sampleRuntime 2) (weakAssigner sampleRuntime Rev1) true
        (VSlice (TUint KUint8) None) "Vb" (Some (VString "hi")) "vb" None
      = Done ((VSlice (TUint KUint8) (Some (string_bytes "hi")), None), s'))
  /\ (forall old tk' sk' s1,
         assignString sampleRuntime (weakAssigner sampleRuntime Rev1) true
           (VString old) tk'
           (Some (VSlice (TUint KUint8) (Some (string_bytes "hi")))) sk' s1
         = Done ((VString "hi", None), s1)).
Proof.
  apply (string_bytes_round_trip sampleRuntime 0
           (weakAssigner sampleRuntime Rev1) "hi" "Vb" "vb" None
           eq_refl (conj eq_refl eq_refl) eq_refl).
Defined.

Lemma fields_has_false (fields : list (string * fieldInfo)) (n : string) :
  ~ In n (map fst fields) -> fields_has fields n = false.
Proof.
  intros H. unfold fields_has. destruct (existsb _ fields) eqn:E; [|reflexivity].
  exfalso. apply H. apply existsb_exists in E as (p & Hp & He).
  apply String.eqb_eq in He. subst. apply in_map. exact Hp.
Qed.

Lemma plainEntries_names (a : assigner) (it : structItem)
  (fs : list (StructField * value)) (i : nat) (n : string) :
  In n (map fst (plainEntries a it fs i)) ->
  In n (map (fun p => Name (fst p)) fs).
Proof.
  revert i. induction fs as [|[fd v] r IH]; intros i H; simpl in *; [exact H|].
  rewrite map_app in H. apply in_app_iff in H as [H|H].
  - destruct (kept a fd v); [|destruct H]. destruct H as [H|[]]. left; exact H.
  - right. eapply IH; exact H.
Qed.

Lemma flattenFields_plain (a : assigner) (it : structItem) :
  forall (fs : list (StructField * value)) (i : nat) (root : value)
         (structs : list structItem) (acc : list (string * fieldInfo)),
    Forall (fun p => Anonymous (fst p) = false) fs ->
    NoDup (map (fun p => Name (fst p)) fs) ->
    (forall n, In n (map fst acc) -> ~ In n (map (fun p => Name (fst p)) fs)) ->
    flattenFields a it fs i (root, structs, acc)
    = (root, structs, acc ++ plainEntries a it fs i).
Proof.
  induction fs as [|[fd v] r IH]; intros i root structs acc Han Hnd Hdis.
  - simpl. rewrite app_nil_r. reflexivity.
  - cbn [flattenFields plainEntries]. rewrite flattenField_eq.
    inversion Han as [|? ? Hfd Han']; subst. cbn [fst] in Hfd.
    cbn [map fst] in Hnd. inversion Hnd as [|? ? Hnotin Hnd']; subst.
    assert (Hsq : squashed fd v = false) by (unfold squashed; rewrite Hfd; reflexivity).
    destruct (kept a fd v) eqn:Hk; cbn [negb].
    + rewrite Hsq.
      rewrite fields_has_false.
      * rewrite IH; [rewrite <- app_assoc; reflexivity | exact Han' | exact Hnd' |].
        intros n0 Hin. rewrite map_app in Hin. apply in_app_iff in Hin as [Hin|Hin].
        -- intros Hc. apply (Hdis n0 Hin). right. exact Hc.
        -- destruct Hin as [<-|[]]. exact Hnotin.
      * intros Hin. apply (Hdis _ Hin). left. reflexivity.
    + rewrite IH; [reflexivity | exact Han' | exact Hnd' |].
      intros n0 Hin Hc. apply (Hdis n0 Hin). right. exact Hc.
Qed.

Lemma flattenStruct_plain (a : assigner) (canSet : bool) (name : string)
  (fs : list (StructField * value)) :
  Forall (fun p => Anonymous (fst p) = false) fs ->
  NoDup (map (fun p => Name (fst p)) fs) ->
  flattenStruct a canSet (VStruct name fs)
  = Some (VStruct name fs,
          plainEntries a (mkItem (VStruct name fs) (Some []) canSet) fs 0).
Proof.
  intros Han Hnd. unfold flattenStruct.
  cbn [vweight flattenLoop sVal struct_fields].
  rewrite flattenFields_plain; [|exact Han | exact Hnd | intros n0 []].
  cbn [app]. destruct (list_sum _); reflexivity.
Qed.

Lemma plainEntries_In (a : assigner) (it : structItem)
  (fs : list (StructField * value)) (i : nat) (nf : string * fieldInfo) :
  In nf (plainEntries a it fs i) <->
  exists j fd v, nth_error fs j = Some (fd, v) /\ kept a fd v = true
                 /\ nf = (Name fd, entryOf a it (i + j) fd v).
Proof.
  revert i. induction fs as [|[fd v] r IH]; intros i; cbn [plainEntries].
  - split; [intros [] | intros (j & fd & v & H & _)]. destruct j; discriminate H.
  - rewrite in_app_iff, IH. split.
    + intros [H | (j & fd' & v' & Hn & Hk & ->)].
      * destruct (kept a fd v) eqn:Hk; [|destruct H]. destruct H as [<-|[]].
        exists 0%nat, fd, v. rewrite Nat.add_0_r. auto.
      * exists (S j), fd', v'. rewrite Nat.add_succ_r. auto.
    + intros (j & fd' & v' & Hn & Hk & ->). destruct j as [|j].
      * inversion Hn; subst. left. rewrite Hk, Nat.add_0_r. left; reflexivity.
      * right. exists j, fd', v'. rewrite Nat.add_succ_r. auto.
Qed.

Lemma set_nth_same {A : Type} (l : list A) (i : nat) (x : A) :
  nth_error l i = Some x -> set_nth l i x = l.
Proof.
  revert i. induction l as [|y r IH]; intros [|i] H; try discriminate H.
  - inversion H; subst. reflexivity.
  - simpl. rewrite (IH i H). reflexivity.
Qed.

Lemma copies_dynamic (rt : GoRuntime) (a : assigner) (old el : value) :
  copies rt (rev a) old (dynamic el) ->
  unwrapped a (pass a el) = Some (dynamic el).
Proof.
  intros H. unfold unwrapped, pass, dynamic in *.
  destruct el as [ | | | | | | | | | |[x|]| | ];
    try (destruct (rev a); reflexivity); inversion H.
Qed.

Lemma fieldLoc_in_dec (l : list (string * fieldInfo)) (p : option path) :
  (exists nf, In nf l /\ fieldLoc (snd nf) = p)
  \/ (forall nf, In nf l -> fieldLoc (snd nf) <> p).
Proof.
  assert (Hdec : forall q : option path, {q = p} + {q <> p}).
  { intros q. repeat decide equality. }
  induction l as [|nf l [(nf' & Hin & Heq)|Hno]].
  - right. intros nf [].
  - left. exists nf'. split; [right; exact Hin | exact Heq].
  - destruct (Hdec (fieldLoc (snd nf))) as [Heq|Hne].
    + left. exists nf. split; [left; reflexivity | exact Heq].
    + right. intros nf' [<-|Hin]; [exact Hne | apply Hno; exact Hin].
Qed.

Section PlainStruct.

Variable rt : GoRuntime.
Variable n : nat.
Variable a : assigner.
Variables tk sk : metaKey.
Variable eT : type.
Variable entries : list (value * value).
Variable name : string.
Variable fs : list (StructField * value).

Hypothesis Hns : noSkips a.
Hypothesis Hsame : SkipSameValues (config a) = false.

Let E := eng rt (S (S n)).
Let sourceVal := VMap TString eT (Some entries).
Let it0 := mkItem (VStruct name fs) (Some []) true.

(** The entry [nf] stands for the kept field [i] of the struct, which the
    struct [cur] still holds as it was. *)
Let pending (cur : list (StructField * value)) (nf : string * fieldInfo)
  : Prop :=
  exists i fd v,
    nf = (Name fd, entryOf a it0 i fd v)
    /\ nth_error fs i = Some (fd, v)
    /\ nth_error cur i = Some (fd, v)
    /\ kept a fd v = true
    /\ Anonymous fd = false
    /\ (forall el,
           assoc entries (VString (fst (fst (parseTag a fd)))) = Some el ->
           copies rt (rev a) v (dynamic el)).

Lemma fromMapBody_plain (nf : string * fieldInfo)
  (cur : list (StructField * value)) (x : string) (unused : list string)
  (s : Sink) (i : nat) (fd : StructField) (v : value) :
  nf = (Name fd, entryOf a it0 i fd v) ->
  nth_error cur i = Some (fd, v) ->
  kept a fd v = true ->
  Anonymous fd = false ->
  (forall el,
      assoc entries (VString (fst (fst (parseTag a fd)))) = Some el ->
      copies rt (rev a) v (dynamic el)) ->
  exists x' unused' s',
    assignStructFromMapBody rt E a tk sk sourceVal TString nf
      (VStruct name cur, VString x, unused, []) s
    = Done ((VStruct name (set_nth cur i (decodedField a entries (fd, v))),
             VString x', unused', []), s').
Proof.
  intros -> Hcur Hk Han Hcp.
  unfold E, sourceVal. rewrite fromMapBody_lookup. cbv zeta.
  cbn [snd entryOf actualName displayName fieldCanSet fieldLoc].
  assert (Hslot : slotOf it0 i fd v = Some [SField i])
    by (unfold slotOf; rewrite Han; reflexivity).
  assert (Hcs : canSetOf it0 fd v = true)
    by (unfold canSetOf; rewrite Han; reflexivity).
  assert (Hmk : exists y, match rev a with
                          | Rev1 => VString x
                          | Rev2 => VString (fst (fst (parseTag a fd)))
                          end = VString y) by (destruct (rev a); eauto).
  destruct Hmk as (y & Hy). rewrite Hy.
  unfold decodedField. cbn [fst snd]. rewrite Hk.
  destruct (assoc entries (VString (fst (fst (parseTag a fd))))) as [el|] eqn:Hel.
  - rewrite (bind_Done_eq _ (shouldSkipKey_noSkips a _ _ s Hns)).
    rewrite Hcs. cbn [negb].
    assert (Hlive : live (VStruct name cur) (entryOf a it0 i fd v) = v).
    { unfold live. cbn [fieldLoc entryOf]. rewrite Hslot. cbn [get_path].
      rewrite Hcur. reflexivity. }
    rewrite Hlive.
    pose proof (assign_copies rt (eng rt (S n)) a v (dynamic el)
                  (newChild tk reflect.Struct (Name fd))
                  (newChild sk reflect.Map (fst (fst (parseTag a fd))))
                  (pass a el) s (shouldSkipKey_noSkips a _ _ s Hns) Hsame
                  (Hcp el eq_refl) (copies_dynamic rt a v el (Hcp el eq_refl)))
      as Hrun.
    change (e_assign (eng rt (S (S n)))) with (assign rt (eng rt (S n))).
    rewrite (bind_Done_eq _ Hrun). unfold ret. rewrite Hslot.
    rewrite (set_at_field name cur i fd v (dynamic el) Hcur).
    cbn [addError]. eexists _, _, _. reflexivity.
  - unfold bind. destruct (addMetaUnset _ s) as [[[] s1]| |] eqn:Hu.
    + unfold ret. rewrite (set_nth_same cur i (fd, v) Hcur).
      eexists _, _, _. reflexivity.
    + exfalso. unfold addMetaUnset, modify, ret in Hu.
      destruct (IsEmpty _), s; discriminate Hu.
    + exfalso. unfold addMetaUnset, modify, ret in Hu.
      destruct (IsEmpty _), s; discriminate Hu.
Qed.

Lemma pending_index (cur : list (StructField * value))
  (nf nf' : string * fieldInfo) (j : nat) :
  pending cur nf -> pending cur nf' ->
  fieldLoc (snd nf) = Some [SField j] -> fieldLoc (snd nf') = Some [SField j] ->
  nf = nf'.
Proof.
  intros (i & fd & v & -> & Hfs & _ & _ & Han & _)
         (i' & fd' & v' & -> & Hfs' & _ & _ & Han' & _) H H'.
  cbn [snd entryOf fieldLoc] in H, H'.
  unfold slotOf in H, H'. rewrite Han in H. rewrite Han' in H'.
  cbn in H, H'. inversion H; inversion H'; subst.
  rewrite Hfs in Hfs'. inversion Hfs'; subst. reflexivity.
Qed.

Lemma fromMapLoop_plain :
  forall (l : list (string * fieldInfo)) (cur : list (StructField * value))
         (x : string) (unused : list string) (s : Sink),
    Forall (pending cur) l ->
    NoDup (map fst l) ->
    exists cur' x' unused' s',
      forEach (assignStructFromMapBody rt E a tk sk sourceVal TString) l
        (VStruct name cur, VString x, unused, []) s
      = Done ((VStruct name cur', VString x', unused', []), s')
      /\ (forall j,
             (exists nf, In nf l /\ fieldLoc (snd nf) = Some [SField j]) ->
             nth_error cur' j
             = option_map (decodedField a entries) (nth_error fs j))
      /\ (forall j,
             (forall nf, In nf l -> fieldLoc (snd nf) <> Some [SField j]) ->
             nth_error cur' j = nth_error cur j).
Proof.
  induction l as [|nf l IH]; intros cur x unused s Hall Hnd.
  - exists cur, x, unused, s. split; [reflexivity|]. split.
    + intros j (nf & [] & _).
    + intros; reflexivity.
  - inversion Hall as [|? ? Hnf Hall']; subst.
    cbn [map] in Hnd. inversion Hnd as [|? ? Hnotin Hnd']; subst.
    pose proof Hnf as (i & fd & v & Heq & Hfs & Hcur & Hk & Han & Hcp).
    destruct (fromMapBody_plain nf cur x unused s i fd v Heq Hcur Hk Han Hcp)
      as (x1 & unused1 & s1 & Hbody).
    assert (Hloc : fieldLoc (snd nf) = Some [SField i]).
    { rewrite Heq. cbn [snd entryOf fieldLoc]. unfold slotOf. rewrite Han.
      reflexivity. }
    (* the other entries still stand for fields that are as they were *)
    assert (Hall1 : Forall (pending (set_nth cur i (decodedField a entries (fd, v))))
                      l).
    { apply Forall_forall. intros nf' Hin'.
      pose proof (proj1 (Forall_forall _ _) Hall' nf' Hin') as Hp'.
      pose proof Hp' as (i' & fd' & v' & Heq' & Hfs' & Hcur' & Hk' & Han' & Hcp').
      exists i', fd', v'. repeat split; try assumption.
      rewrite nth_error_set_nth_neq; [exact Hcur'|].
      intros <-. apply Hnotin.
      assert (Hloc' : fieldLoc (snd nf') = Some [SField i]).
      { rewrite Heq'. cbn [snd entryOf fieldLoc]. unfold slotOf. rewrite Han'.
        reflexivity. }
      rewrite (pending_index cur nf nf' i Hnf Hp' Hloc Hloc').
      apply in_map. exact Hin'. }
    destruct (IH _ x1 unused1 s1 Hall1 Hnd')
      as (cur' & x' & unused' & s' & Hrest & Hin & Hout).
    exists cur', x', unused', s'. split; [|split].
    + cbn [forEach]. rewrite (bind_Done_eq _ Hbody). exact Hrest.
    + intros j (nf' & [<-|Hin'] & Hloc').
      * (* the field of this round, which the rest leaves alone *)
        rewrite Hloc in Hloc'. inversion Hloc'; subst j.
        destruct (fieldLoc_in_dec l (Some [SField i])) as [Hex | Hnex].
        -- apply Hin. exact Hex.
        -- rewrite Hout by exact Hnex.
           rewrite (nth_error_set_nth_eq cur i _ (fd, v) Hcur), Hfs. reflexivity.
      * apply Hin. exists nf'. split; assumption.
    + intros j Hno. rewrite Hout.
      * apply nth_error_set_nth_neq. intros <-. apply (Hno nf); [left; reflexivity|].
        exact Hloc.
      * intros nf' Hin'. apply Hno. right. exact Hin'.
Qed.

End PlainStruct.

Lemma plainEntries_NoDup (a : assigner) (it : structItem)
  (fs : list (StructField * value)) (i : nat) :
  NoDup (map (fun p => Name (fst p)) fs) ->
  NoDup (map fst (plainEntries a it fs i)).
Proof.
  revert i. induction fs as [|[fd v] r IH]; intros i Hnd; cbn [plainEntries].
  - constructor.
  - cbn [map fst] in Hnd. inversion Hnd as [|? ? Hnotin Hnd']; subst.
    destruct (kept a fd v); cbn [app map fst].
    + constructor; [|apply IH; exact Hnd'].
      intros Hin. apply Hnotin. eapply plainEntries_names; exact Hin.
    + apply IH; exact Hnd'.
Qed.

(** X25. Decoding a map with string keys into a struct without
    embedded fields, without skip paths and without SkipSameValues: when
    every element that the map holds under the name of a kept field is a
    scalar of the field's type, the call returns without an error and the
    struct is the one in which each kept field named by a key of the map
    holds that element, every other field being as it was. *)
Theorem struct_from_map_sets_fields :
  forall (rt : GoRuntime) (n : nat) (a : assigner) (name : string)
         (fs : list (StructField * value)) (eT : type)
         (entries : list (value * value)) (tk sk : metaKey) (s : Sink),
    noSkips a ->
    SkipSameValues (config a) = false ->
    NoDup (map (fun p => Name (fst p)) fs) ->
    Forall (fun p =>
              Anonymous (fst p) = false
              /\ (kept a (fst p) (snd p) = true ->
                  forall el,
                    assoc entries (VString (fst (fst (parseTag a (fst p)))))
                    = Some el ->
                    copies rt (rev a) (snd p) (dynamic el))) fs ->
    exists s',
      assignStructFromMap rt (eng rt (S (S n))) a true (VStruct name fs) tk
        (VMap TString eT (Some entries)) sk s
      = Done ((VStruct name (map (decodedField a entries) fs), None), s').
Proof.
  intros rt n a name fs eT entries tk sk s Hns Hsame Hnd Hall.
  assert (Han : Forall (fun p => Anonymous (fst p) = false) fs).
  { eapply Forall_impl; [|exact Hall]. intros p [H _]. exact H. }
  unfold assignStructFromMap. cbn [typeOf type_kind].
  change (negb (reflect.kind_eqb reflect.String reflect.String)) with false.
  cbn [andb]. unfold flattenTarget.
  rewrite (flattenStruct_plain a true name fs Han Hnd).
  set (it0 := mkItem (VStruct name fs) (Some []) true).
  set (l := RangeOrder rt (plainEntries a it0 fs 0)).
  assert (Hperm : Permutation (plainEntries a it0 fs 0) l)
    by apply RangeOrder_perm.
  assert (Hpend : Forall (fun nf =>
            exists i fd v,
              nf = (Name fd, entryOf a it0 i fd v)
              /\ nth_error fs i = Some (fd, v)
              /\ nth_error fs i = Some (fd, v)
              /\ kept a fd v = true
              /\ Anonymous fd = false
              /\ (forall el,
                     assoc entries (VString (fst (fst (parseTag a fd)))) = Some el ->
                     copies rt (rev a) v (dynamic el))) l).
  { apply Forall_forall. intros nf Hin.
    apply (Permutation_in _ (Permutation_sym Hperm)) in Hin.
    apply plainEntries_In in Hin as (j & fd & v & Hj & Hk & ->).
    exists j, fd, v. cbn [Nat.add].
    pose proof (proj1 (Forall_forall _ _) Hall (fd, v) (nth_error_In _ _ Hj))
      as [Ha Hc]. cbn [fst snd] in Ha, Hc.
    repeat split; try assumption. apply Hc. exact Hk. }
  assert (Hndl : NoDup (map fst l)).
  { eapply Permutation_NoDup; [apply Permutation_map; exact Hperm|].
    apply plainEntries_NoDup. exact Hnd. }
  cbn [Zero].
  unfold bind at 1. unfold ret at 1.
  set (u0 := fold_left _ _ []).
  destruct (fromMapLoop_plain rt n a tk sk eT entries name fs Hns Hsame l fs ""
              u0 s Hpend Hndl)
    as (cur' & x' & unused' & s1 & Hloop & Hin & Hout).
  rewrite (bind_Done_eq _ Hloop).
  destruct (returns_addMetaUnusedAll sk reflect.Map (RangeOrder rt unused') s1)
    as ([] & s2 & Hun).
  rewrite (bind_Done_eq _ Hun). unfold ret. cbn [errorsResult].
  exists s2. do 4 f_equal.
  apply nth_error_ext. intros j. rewrite nth_error_map.
  destruct (nth_error fs j) as [[fd v]|] eqn:Hj.
  - destruct (kept a fd v) eqn:Hk.
    + rewrite Hin; [rewrite Hj; reflexivity|].
      exists (Name fd, entryOf a it0 j fd v). split.
      * apply (Permutation_in _ Hperm). apply plainEntries_In.
        exists j, fd, v. auto.
      * cbn [snd entryOf fieldLoc]. unfold slotOf.
        pose proof (proj1 (Forall_forall _ _) Han (fd, v) (nth_error_In _ _ Hj))
          as Ha. cbn [fst] in Ha. rewrite Ha. reflexivity.
    + rewrite Hout.
      * rewrite Hj. cbn [option_map]. unfold decodedField. cbn [fst snd].
        rewrite Hk. reflexivity.
      * intros nf Hnf Hloc.
        pose proof (proj1 (Forall_forall _ _) Hpend nf Hnf)
          as (i & fd' & v' & -> & Hi & _ & Hk' & Ha' & _).
        cbn [snd entryOf fieldLoc] in Hloc. unfold slotOf in Hloc.
        rewrite Ha' in Hloc. cbn in Hloc. inversion Hloc; subst i.
        rewrite Hj in Hi. inversion Hi; subst. congruence.
  - rewrite Hout; [rewrite Hj; reflexivity|].
    intros nf Hnf Hloc.
    pose proof (proj1 (Forall_forall _ _) Hpend nf Hnf)
      as (i & fd' & v' & -> & Hi & _ & Hk' & Ha' & _).
    cbn [snd entryOf fieldLoc] in Hloc. unfold slotOf in Hloc.
    rewrite Ha' in Hloc. cbn in Hloc. inversion Hloc; subst i.
    rewrite Hj in Hi. discriminate Hi.
Qed.

Lemma struct_from_map_sets_fields_witness :
  exists s',
    assignStructFromMap sampleRuntime (eng sampleRuntime 2)
      (newAssigner Rev2 keysDemoConfig) true partDemoTarget ""
      (VMap TString TAny (Some partDemoEntries)) ""
      (Some (mkMetadata [] [] []))
    = Done ((VStruct "T" [(plainField "Name", VString "new");
                          (plainField "Age", VInt KInt 3)], None), s').
Proof.
  apply (struct_from_map_sets_fields sampleRuntime 0
           (newAssigner Rev2 keysDemoConfig) "T"
           [(plainField "Name", VString "old"); (plainField "Age", VInt KInt 3)]
           TAny partDemoEntries "" "" (Some (mkMetadata [] [] []))
           (conj eq_refl eq_refl) eq_refl).
  - repeat constructor; simpl; intuition discriminate.
  - repeat constructor; simpl; intros _ el Hel; inversion Hel; subst.
    apply copies_string.
Defined.
